(** * compare_allele_frequencies.py: classification of loci by per-clade
      allele frequencies.

    Shallow embedding of the aggregation and classification functions of
    [compare_allele_frequencies.py], and the properties stated about them.

    - Python floats are IEEE-754 binary64 numbers: [spec_float] with
      [prec = 53] and [emax = 1024], with the comparison and arithmetic
      of the Standard Library's [SpecFloat].
    - Python dicts keep insertion order, and that order is observable
      (tie-breaks, stable sorting, output order): a dict is an association
      list in insertion order, its keys pairwise distinct.
    - A Python exception is an error result ([Raise]).
    - The functions of the Python runtime that the script calls on strings
      and sets are parameters: [int], [float], [round(x, 6)] and the
      iteration order of a [set].  Module [Runtime] has instances of them,
      which the examples use.
    - The writers format the structures they are given; [main] is modelled
      up to the structures it hands to them.

    The file has three parts: the functions of the script, the vocabulary
    of the properties with the example data, and the properties. *)

From Stdlib Require Import List ZArith Bool String Ascii Lia.
From Stdlib Require Import Permutation Sorted.
From Stdlib Require Import Floats.SpecFloat.
From Stdlib Require Import DecimalString.
Import ListNotations.

Local Open Scope Z_scope.
Local Open Scope list_scope.

Set Implicit Arguments.

(* ================================================================= *)
(** ** Python floats *)

Module PyFloat.

Definition float := spec_float.

Definition prec : Z := 53.
Definition emax : Z := 1024.

Definition add : float -> float -> float := SFadd prec emax.
Definition sub : float -> float -> float := SFsub prec emax.
Definition div : float -> float -> float := SFdiv prec emax.

(** [a < b], [a <= b], [a == b]; every comparison with NaN is false. *)
Definition ltb : float -> float -> bool := SFltb.
Definition leb : float -> float -> bool := SFleb.
Definition eqb : float -> float -> bool := SFeqb.

(** [a > b] and [a >= b]. *)
Definition gtb (a b : float) : bool := ltb b a.
Definition geb (a b : float) : bool := leb b a.

(** [math.isnan]. *)
Definition isnan (x : float) : bool :=
  match x with S754_nan => true | _ => false end.

(** Neither NaN nor an infinity. *)
Definition isfinite (x : float) : bool :=
  match x with
  | S754_zero _ | S754_finite _ _ _ => true
  | S754_infinity _ | S754_nan => false
  end.

(** The float nearest to [m * 2^e] (ties to even); an infinity on overflow. *)
Definition of_scaled (m e : Z) : float := binary_normalize prec emax m e false.

(** The literals of the source. *)
Definition zero : float := S754_zero false.       (* 0.0, and float(0) *)
Definition one : float := Eval cbv in of_scaled 1 0.  (* 1.0 *)
Definition nan : float := S754_nan.

End PyFloat.

Import PyFloat.

(* ================================================================= *)
(** ** Exceptions *)

(** The built-in exceptions the functions can raise, and the error class the
    specification names ([MalformedRecordError]), which the source neither
    defines nor raises. *)
Inductive pyexn : Type :=
  | ValueError
  | IndexError
  | ZeroDivisionError
  | OverflowError
  | MalformedRecordError.

Inductive result (A : Type) : Type :=
  | Ok (a : A)
  | Raise (e : pyexn).

Arguments Ok {A} a.
Arguments Raise {A} e.

Definition bind {A B : Type} (r : result A) (k : A -> result B) : result B :=
  match r with
  | Ok a => k a
  | Raise e => Raise e
  end.

Notation "x <- c1 ;; c2" := (bind c1 (fun x => c2))
  (at level 61, c1 at next level, right associativity).
Notation "' pat <- c1 ;; c2" := (bind c1 (fun x => match x with pat => c2 end))
  (at level 61, pat pattern, c1 at next level, right associativity).

(** A [for] loop whose body can raise: the first exception ends the loop. *)
Fixpoint for_each {A S : Type} (body : S -> A -> result S) (xs : list A)
    (s : S) : result S :=
  match xs with
  | [] => Ok s
  | x :: rest => s' <- body s x ;; for_each body rest s'
  end.

(* ================================================================= *)
(** ** Insertion-ordered dicts *)

Class Key (K : Type) : Type := { key_eqb : K -> K -> bool }.

#[export] Instance string_Key : Key string := {| key_eqb := String.eqb |}.

(** A locus: [(CHROM, POS)]. *)
Definition locus : Type := (string * Z)%type.

Definition locus_eqb (a b : locus) : bool :=
  (String.eqb (fst a) (fst b) && Z.eqb (snd a) (snd b))%bool.

#[export] Instance locus_Key : Key locus := {| key_eqb := locus_eqb |}.

Module Dict.
Section Dict.
Context {K V : Type} `{Key K}.

Definition dict : Type := list (K * V).

Definition keys (d : dict) : list K := map fst d.
Definition values (d : dict) : list V := map snd d.

(** A dict has each key once. *)
Definition wf (d : dict) : Prop := NoDup (keys d).

(** [d.get(k)]. *)
Fixpoint get (k : K) (d : dict) : option V :=
  match d with
  | [] => None
  | (k', v) :: rest => if key_eqb k k' then Some v else get k rest
  end.

Definition mem (k : K) (d : dict) : bool :=
  match get k d with Some _ => true | None => false end.

(** [d[k] = v]: a present key keeps its position, a new one goes last. *)
Fixpoint set (k : K) (v : V) (d : dict) : dict :=
  match d with
  | [] => [(k, v)]
  | (k', v') :: rest =>
      if key_eqb k k' then (k', v) :: rest else (k', v') :: set k v rest
  end.
End Dict.
Arguments dict : clear implicits.

(** [d.setdefault(k, []).append(x)]. *)
Fixpoint setdefault_append {K X : Type} `{Key K} (k : K) (x : X)
    (d : dict K (list X)) : dict K (list X) :=
  match d with
  | [] => [(k, [x])]
  | (k', xs) :: rest =>
      if key_eqb k k' then (k', xs ++ [x]) :: rest
      else (k', xs) :: setdefault_append k x rest
  end.
End Dict.

Import Dict.

(* ================================================================= *)
(** ** Data model *)

Definition clade : Type := string.
Definition allele : Type := string.

(** [allele_freqs]: allele -> frequency. *)
Definition allele_freqs : Type := dict allele float.

(** The record of a clade at a locus: [(perc_genotyped, allele_freqs)]. *)
Definition clade_record : Type := (float * allele_freqs)%type.

Definition clade_data : Type := dict clade clade_record.

(** [all_alleles]: locus -> clade -> record. *)
Definition table : Type := dict locus clade_data.

(** Every dict of the table has each key once. *)
Definition wf_table (t : table) : Prop :=
  wf t /\
  forall l cd, In (l, cd) t ->
    wf cd /\ forall c pg af, In (c, (pg, af)) cd -> wf af.

(* ================================================================= *)
(** ** Built-ins *)

(** [max(xs)]: the current maximum starts as the first element and is
    replaced by each later element that is greater ([>]); [ValueError] on
    an empty sequence. *)
Definition py_max (xs : list float) : result float :=
  match xs with
  | [] => Raise ValueError
  | x :: rest => Ok (fold_left (fun cur y => if gtb y cur then y else cur) rest x)
  end.

(** [min(xs)]: likewise, with [<]. *)
Definition py_min (xs : list float) : result float :=
  match xs with
  | [] => Raise ValueError
  | x :: rest => Ok (fold_left (fun cur y => if ltb y cur then y else cur) rest x)
  end.

(* ================================================================= *)
(** ** identify_fixed_alleles *)

Definition fixed_entry : Type := (clade * allele_freqs)%type.
Definition fixed_map : Type := dict locus (list fixed_entry).

(** The test of line 47; [and] does not evaluate [max] when the first
    comparison is false. *)
Definition is_fixed (miss_tolerance error_tolerance : float)
    (r : clade_record) : result bool :=
  let '(perc_genotyped, afs) := r in
  if geb perc_genotyped miss_tolerance then
    m <- py_max (values afs) ;;
    Ok (geb m (sub one error_tolerance))
  else Ok false.

(** The body of the loop over the clades of a locus (lines 46-48). *)
Definition record_if_fixed (miss_tolerance error_tolerance : float) (l : locus)
    (fixed_alleles : fixed_map) (it : clade * clade_record) : result fixed_map :=
  let '(c, r) := it in
  b <- is_fixed miss_tolerance error_tolerance r ;;
  Ok (if b then setdefault_append l (c, snd r) fixed_alleles
      else fixed_alleles).

(** The body of the loop over the loci (lines 45-48). *)
Definition record_fixed_at (miss_tolerance error_tolerance : float)
    (fixed_alleles : fixed_map) (it : locus * clade_data) : result fixed_map :=
  let '(l, cd) := it in
  for_each (record_if_fixed miss_tolerance error_tolerance l) cd fixed_alleles.

Definition identify_fixed_alleles (all_alleles : table)
    (miss_tolerance error_tolerance : float) : result fixed_map :=
  for_each (record_fixed_at miss_tolerance error_tolerance) all_alleles [].

(* ================================================================= *)
(** ** find_unique_fixed_alleles *)

(** [max(allele_freqs, key=allele_freqs.get)]: the current maximum starts
    as the first key and is replaced by each later key whose frequency is
    greater ([>]); [ValueError] on an empty dict.  The keys of a dict are
    distinct, so [allele_freqs.get] of a key is the value of its item. *)
Definition py_max_key (afs : allele_freqs) : result allele :=
  match afs with
  | [] => Raise ValueError
  | item :: rest =>
      Ok (fst (fold_left
                 (fun cur it => if gtb (snd it) (snd cur) then it else cur)
                 rest item))
  end.

(** The body of the loop of lines 56-58. *)
Definition record_fixed_allele (per_clade : dict clade allele)
    (it : fixed_entry) : result (dict clade allele) :=
  let '(c, afs) := it in
  fixed_allele <- py_max_key afs ;;
  Ok (set c fixed_allele per_clade).

(** [fixed_alleles_per_clade] after the loop of lines 56-58. *)
Definition fixed_alleles_per_clade (cd : list fixed_entry)
    : result (dict clade allele) :=
  for_each record_fixed_allele cd [].

(** [len(set(xs))]. *)
Definition count_distinct (xs : list allele) : nat :=
  List.length (nodup string_dec xs).

(** The body of the loop over the loci (lines 54-65). *)
Definition record_unique (unique_fixed_alleles : fixed_map)
    (it : locus * list fixed_entry) : result fixed_map :=
  let '(l, cd) := it in
  per_clade <- fixed_alleles_per_clade cd ;;
  if Nat.eqb (List.length cd) 1 then Ok (set l cd unique_fixed_alleles)
  else if Nat.eqb (count_distinct (values per_clade)) (List.length per_clade)
  then Ok (set l cd unique_fixed_alleles)
  else Ok unique_fixed_alleles.

Definition find_unique_fixed_alleles (fixed_alleles : fixed_map)
    : result fixed_map :=
  for_each record_unique fixed_alleles [].

(* ================================================================= *)
(** ** identify_private_alleles *)

(** [{"freq": freq, "perc_genotyped": perc_genotyped}]. *)
Record private_info : Type := {
  freq : float;
  perc_genotyped : float
}.

Definition private_map : Type := dict locus (dict clade (dict allele private_info)).

(** The test of lines 73-74 on one clade record. *)
Definition missing_or_nan (r : clade_record) : bool :=
  (eqb (fst r) zero || existsb isnan (values (snd r)))%bool.

(** The alleles of a frequency dict whose frequency is [> error_tolerance]. *)
Definition above (error_tolerance : float) (afs : allele_freqs) : allele_freqs :=
  filter (fun it => gtb (snd it) error_tolerance) afs.

(** [other_clades_alleles] of lines 81-86, in insertion order. *)
Definition other_clades_alleles (error_tolerance : float) (c : clade)
    (cd : clade_data) : list allele :=
  flat_map
    (fun it => if negb (key_eqb (fst it) c)
               then keys (above error_tolerance (snd (snd it))) else [])
    cd.

(** [private_alleles_set] of lines 88-89. *)
Definition private_alleles_set (error_tolerance : float) (c : clade)
    (r : clade_record) (cd : clade_data) : dict allele private_info :=
  map (fun it => (fst it, {| freq := snd it; perc_genotyped := fst r |}))
    (filter
       (fun it => negb (existsb (String.eqb (fst it))
                          (other_clades_alleles error_tolerance c cd)))
       (above error_tolerance (snd r))).

(** The body of the loop over the clades of a locus (lines 78-92). *)
Definition record_private (error_tolerance : float) (cd : clade_data)
    (private_alleles_at_pos : dict clade (dict allele private_info))
    (it : clade * clade_record) : dict clade (dict allele private_info) :=
  let '(c, r) := it in
  match private_alleles_set error_tolerance c r cd with
  | [] => private_alleles_at_pos
  | ps => set c ps private_alleles_at_pos
  end.

Definition private_alleles_at_pos (error_tolerance : float) (cd : clade_data)
    : dict clade (dict allele private_info) :=
  fold_left (record_private error_tolerance cd) cd [].

(** The body of the loop over the loci (lines 72-95). *)
Definition record_private_at (error_tolerance : float)
    (private_alleles : private_map) (it : locus * clade_data) : private_map :=
  let '(l, cd) := it in
  if existsb missing_or_nan (values cd) then private_alleles
  else
    match private_alleles_at_pos error_tolerance cd with
    | [] => private_alleles
    | at_pos => set l at_pos private_alleles
    end.

Definition identify_private_alleles (all_alleles : table)
    (error_tolerance : float) : private_map :=
  fold_left (record_private_at error_tolerance) all_alleles [].

(* ================================================================= *)
(** ** find_private_sites *)

(** [genotyped_clades] (line 104) and [missing_clades] (line 105); the keys
    of [clade_data] are distinct, so each comprehension keeps one entry per
    selected item. *)
Definition genotyped_clades (cd : clade_data) : dict clade float :=
  map (fun it => (fst it, fst (snd it)))
    (filter (fun it => gtb (fst (snd it)) zero) cd).

Definition missing_clades (cd : clade_data) : list clade :=
  map fst (filter (fun it => eqb (fst (snd it)) zero) cd).

Definition private_sites_map : Type := dict locus (clade * float).
Definition uniquely_missing_map : Type := dict locus (dict clade float).

(** The body of the loop over the loci (lines 103-112). *)
Definition record_sites (acc : private_sites_map * uniquely_missing_map)
    (it : locus * clade_data) : private_sites_map * uniquely_missing_map :=
  let '(private_sites, uniquely_missing_sites) := acc in
  let '(l, cd) := it in
  let genotyped := genotyped_clades cd in
  let missing := missing_clades cd in
  let private_sites :=
    match genotyped with
    | [first] =>
        if Nat.ltb 0 (List.length missing) then set l first private_sites
        else private_sites
    | _ => private_sites
    end in
  let uniquely_missing_sites :=
    if (Nat.ltb 1 (List.length genotyped) && Nat.eqb (List.length missing) 1)%bool
    then set l genotyped uniquely_missing_sites
    else uniquely_missing_sites in
  (private_sites, uniquely_missing_sites).

Definition find_private_sites (all_alleles : table)
    : private_sites_map * uniquely_missing_map :=
  fold_left record_sites all_alleles ([], []).

(* ================================================================= *)
(** ** compute_divergence_scores *)

Definition divergence_map : Type := dict locus (float * float).

(** [d.get(k, default)]. *)
Definition get_default {K V : Type} `{Key K} (k : K) (d : dict K V)
    (default : V) : V :=
  match get k d with
  | Some v => v
  | None => default
  end.

(** [float(n)] for an [int]: the nearest float. *)
Definition float_of_int (n : Z) : float := of_scaled n 0.

Section SetOrder.

(** The order in which a Python [set] of strings is iterated depends on
    the hashes of its elements, not on the order of insertion.
    [set_iter xs] is the iteration order of the set built by adding the
    elements of [xs] one after the other. *)
Variable set_iter : list allele -> list allele.

(** Lines 129-131: the insertions into [all_alleles_set], and
    [total_genotyped], which starts as [0]. *)
Definition gather (clade_freqs : list clade_record) : list allele * float :=
  fold_left
    (fun '(inserted, total_genotyped) '(pg, afs) =>
       (inserted ++ keys afs, add total_genotyped pg))
    clade_freqs ([], zero).

(** Lines 133-136.  [max_diff] starts as the int [0], which the first
    [+=] converts to [0.0]; when the clades have no allele it stays [0],
    which [write_most_divergent_loci] reads through [float(...)]: the
    model starts from [0.0]. *)
Definition max_diff_of (clade_freqs : list clade_record)
    (alleles : list allele) : result float :=
  for_each
    (fun max_diff a =>
       let freqs := map (fun r => get_default a (snd r) zero) clade_freqs in
       hi <- py_max freqs ;;
       lo <- py_min freqs ;;
       Ok (add max_diff (sub hi lo)))
    alleles zero.

(** The body of the loop over the loci (lines 119-139). *)
Definition record_divergence (divergence_scores : divergence_map)
    (it : locus * clade_data) : result divergence_map :=
  let '(l, cd) := it in
  let clade_freqs := values cd in
  if Nat.ltb (List.length clade_freqs) 2 then Ok divergence_scores
  else
    let num_clades := List.length clade_freqs in
    let '(inserted, total_genotyped) := gather clade_freqs in
    max_diff <- max_diff_of clade_freqs (set_iter inserted) ;;
    let avg_genotyped :=
      div total_genotyped (float_of_int (Z.of_nat num_clades)) in
    Ok (set l (max_diff, avg_genotyped) divergence_scores).

Definition compute_divergence_scores (all_alleles : table)
    : result divergence_map :=
  for_each record_divergence all_alleles [].

End SetOrder.

(* ================================================================= *)
(** ** write_most_divergent_loci *)

Section Sorted.
Context {A : Type}.
Variable key : A -> float.

(** [list.sort] is a stable merge sort that sorts short runs by binary
    insertion; it compares keys with [<] only.  On keys that [<] orders
    totally every stable sort returns the same list: the model is the
    insertion sort, which puts an element to the right of the elements
    that are not greater. *)
Fixpoint insert_right (x : A) (sorted : list A) : list A :=
  match sorted with
  | [] => [x]
  | y :: rest =>
      if ltb (key x) (key y) then x :: y :: rest
      else y :: insert_right x rest
  end.

(** The stable ascending sort of [list.sort]. *)
Definition stable_sort (xs : list A) : list A :=
  fold_left (fun sorted x => insert_right x sorted) xs [].

(** [sorted(xs, key=key, reverse=True)]: the list is reversed, sorted
    ascending, and reversed again. *)
Definition py_sorted_reverse (xs : list A) : list A :=
  rev (stable_sort (rev xs)).

(** [xs[:n]]: a negative [n] counts from the end. *)
Definition py_slice_to (n : Z) (xs : list A) : list A :=
  if n <? 0 then firstn (Z.to_nat (Z.of_nat (List.length xs) + n)) xs
  else firstn (Z.to_nat n) xs.
End Sorted.

Section Round.

(** [round(x, 6)] of the Python runtime. *)
Variable round6 : float -> float.

Definition sort_key (item : locus * (float * float)) : float :=
  round6 (fst (snd item)).

Definition filtered_scores (divergence_scores : divergence_map)
    : divergence_map :=
  filter (fun item => negb (isnan (fst (snd item)))) divergence_scores.

(** [sorted_loci] of line 145: the rows the function writes, in order. *)
Definition write_most_divergent_loci (divergence_scores : divergence_map)
    (num_div_loci : Z) : list (locus * (float * float)) :=
  py_slice_to num_div_loci
    (py_sorted_reverse sort_key (filtered_scores divergence_scores)).

End Round.

(* ================================================================= *)
(** ** process_files *)

(** A string is a sequence of characters with code points below 256: the
    character [c] is [chr(nat_of_ascii c)].  Text with other characters
    is outside the model. *)
Module PyStr.

(** The characters [str.strip] removes and [str.split()] splits on, those
    for which [str.isspace] holds: the code points 9-13, 28-32, 133
    (U+0085) and 160 (U+00A0). *)
Definition is_space (c : ascii) : bool :=
  let n := nat_of_ascii c in
  ((Nat.leb 9 n && Nat.leb n 13) || (Nat.leb 28 n && Nat.leb n 32)
   || Nat.eqb n 133 || Nat.eqb n 160)%bool.

Fixpoint lstrip (s : string) : string :=
  match s with
  | EmptyString => EmptyString
  | String c rest => if is_space c then lstrip rest else s
  end.

Fixpoint rstrip (s : string) : string :=
  match s with
  | EmptyString => EmptyString
  | String c rest =>
      match rstrip rest with
      | EmptyString => if is_space c then EmptyString else String c EmptyString
      | rest' => String c rest'
      end
  end.

(** [s.strip()]. *)
Definition strip (s : string) : string := rstrip (lstrip s).

(** [s.split(sep)] for a one-character separator. *)
Fixpoint split (sep : ascii) (s : string) : list string :=
  match s with
  | EmptyString => [EmptyString]
  | String c rest =>
      if Ascii.eqb c sep then EmptyString :: split sep rest
      else
        match split sep rest with
        | [] => [String c EmptyString]
        | w :: ws => String c w :: ws
        end
  end.

(** [s.replace(pat, '')] for a non-empty [pat]: the occurrences of [pat]
    are removed from left to right; [skip] counts the characters of the
    occurrence being removed. *)
Fixpoint remove_from (pat : string) (skip : nat) (s : string) : string :=
  match s with
  | EmptyString => EmptyString
  | String c rest =>
      match skip with
      | S k => remove_from pat k rest
      | O =>
          if String.prefix pat s
          then remove_from pat (Nat.pred (String.length pat)) rest
          else String c (remove_from pat 0 rest)
      end
  end.

Definition remove (pat s : string) : string := remove_from pat 0 s.

End PyStr.

(** [xs.index(x)]. *)
Fixpoint index_of (x : string) (xs : list string) : result nat :=
  match xs with
  | [] => Raise ValueError
  | y :: rest =>
      if String.eqb x y then Ok O
      else i <- index_of x rest ;; Ok (S i)
  end.

(** [xs[i]] for [i >= 0]. *)
Definition item {A : Type} (xs : list A) (i : nat) : result A :=
  match nth_error xs i with
  | Some x => Ok x
  | None => Raise IndexError
  end.

(** [n / 2] for an [int] [n]: the float nearest to the quotient. *)
Definition int_div_2 (n : Z) : result float :=
  let q := of_scaled n (-1) in
  if isfinite q then Ok q else Raise OverflowError.

(** [a / n] for a float [a] and an [int] [n]: [n] is converted to a float,
    then tested for zero. *)
Definition float_div_int (a : float) (n : Z) : result float :=
  let b := float_of_int n in
  if isfinite b then
    if Z.eqb n 0 then Raise ZeroDivisionError else Ok (div a b)
  else Raise OverflowError.

(** [d.setdefault(k1, {})[k2] = v]. *)
Definition setdefault_set {K1 K2 V : Type} `{Key K1} `{Key K2}
    (k1 : K1) (k2 : K2) (v : V) (d : dict K1 (dict K2 V))
    : dict K1 (dict K2 V) :=
  match get k1 d with
  | Some inner => set k1 (set k2 v inner) d
  | None => set k1 [(k2, v)] d
  end.

(** An input file: its path and the lines [readlines()] returns. *)
Record frq_file : Type := {
  path : string;
  lines : list string
}.

(** [file.split('/')[-1].replace('.frq', '')]. *)
Definition clade_name (file : string) : clade :=
  PyStr.remove ".frq" (last (PyStr.split "/" file) EmptyString).

Section Parsing.

(** [int(s)] and [float(s)] of the Python runtime; [None] is the
    [ValueError] of a string they do not accept. *)
Variable py_int : string -> option Z.
Variable py_float : string -> option float.

Definition parse_int (s : string) : result Z :=
  match py_int s with
  | Some n => Ok n
  | None => Raise ValueError
  end.

Definition parse_float (s : string) : result float :=
  match py_float s with
  | Some x => Ok x
  | None => Raise ValueError
  end.

(** [line[header.index(name)]]. *)
Definition column (header line : list string) (name : string)
    : result string :=
  i <- index_of name header ;; item line i.

(** Lines 32-36. *)
Definition read_allele_freqs (header line : list string) (num_alleles : Z)
    : result allele_freqs :=
  allele_freq_index <- index_of "{ALLELE:FREQ}" header ;;
  for_each
    (fun afs j =>
       field <- item line (allele_freq_index + j)%nat ;;
       match PyStr.split ":" field with
       | [a; f] => x <- parse_float f ;; Ok (set a x afs)
       | _ => Raise ValueError
       end)
    (seq 0 (Z.to_nat num_alleles)) [].

(** Lines 25-39: one data row of a file. *)
Definition process_line (header : list string) (clade_name : clade)
    (n_indv : Z) (all_alleles : table) (raw : string) : result table :=
  let line := PyStr.split "009" (PyStr.strip raw) in
  CHROM <- column header line "CHROM" ;;
  POS <- (s <- column header line "POS" ;; parse_int s) ;;
  num_alleles <- (s <- column header line "N_ALLELES" ;; parse_int s) ;;
  num_chromosomes <- (s <- column header line "N_CHR" ;; parse_int s) ;;
  genotyped_indv <- int_div_2 num_chromosomes ;;
  afs <- read_allele_freqs header line num_alleles ;;
  perc_genotyped <- float_div_int genotyped_indv n_indv ;;
  Ok (setdefault_set (CHROM, POS) clade_name (perc_genotyped, afs) all_alleles).

Definition process_file (all_alleles : table) (input : frq_file * Z)
    : result table :=
  let '(file, n_indv) := input in
  first <- item (lines file) 0 ;;
  let header := PyStr.split "009" (PyStr.strip first) in
  for_each (process_line header (clade_name (path file)) n_indv)
    (tl (lines file)) all_alleles.

Definition process_files (file_list : list (frq_file * Z)) : result table :=
  for_each process_file file_list [].

End Parsing.

(* ================================================================= *)
(** ** main *)

(** A file the run writes, with the structure handed to its writer. *)
Inductive output : Type :=
  | MostDivergentLoci (rows : list (locus * (float * float)))
  | FixedAlleles (m : fixed_map)
  | UniqueFixedAlleles (m : fixed_map)
  | PrivateAlleles (m : private_map)
  | PrivateSites (m : private_sites_map)
  | UniquelyMissingSites (m : uniquely_missing_map).

(** The name of the file, from [out_name]. *)
Definition output_name (out_name : string) (o : output) : string :=
  (out_name ++
   match o with
   | MostDivergentLoci _ => "_most_divergent_loci.txt"
   | FixedAlleles _ => "_fixed_alleles.txt"
   | UniqueFixedAlleles _ => "_unique_fixed_alleles.txt"
   | PrivateAlleles _ => "_private_alleles.txt"
   | PrivateSites _ => "_private_sites.txt"
   | UniquelyMissingSites _ => "_uniquely_missing_sites.txt"
   end)%string.

Section Main.

Variable py_int : string -> option Z.
Variable py_float : string -> option float.
Variable set_iter : list allele -> list allele.
Variable round6 : float -> float.

(** Lines 259-273, from the parsed [file_list]: the files written, in
    order. *)
Definition main (file_list : list (frq_file * Z))
    (miss_tolerance error_tolerance : float) (num_div_loci : Z)
    : result (list output) :=
  all_alleles <- process_files py_int py_float file_list ;;
  fixed_alleles <-
    identify_fixed_alleles all_alleles miss_tolerance error_tolerance ;;
  unique_fixed_alleles <- find_unique_fixed_alleles fixed_alleles ;;
  let private_alleles := identify_private_alleles all_alleles error_tolerance in
  let '(private_sites, uniquely_missing_sites) :=
    find_private_sites all_alleles in
  divergence_scores <- compute_divergence_scores set_iter all_alleles ;;
  Ok ([ MostDivergentLoci
          (write_most_divergent_loci round6 divergence_scores num_div_loci);
        FixedAlleles fixed_alleles;
        UniqueFixedAlleles unique_fixed_alleles;
        PrivateAlleles private_alleles;
        PrivateSites private_sites ]
      ++ (if Nat.ltb 2 (List.length file_list)
          then [UniquelyMissingSites uniquely_missing_sites]
          else [])).

End Main.

(* ================================================================= *)
(** ** main: the list of input files *)

Module PyText.

(** [s.split()]: the words between runs of whitespace; [word] is the word
    being read. *)
Fixpoint words_from (s : string) (word : string) : list string :=
  match s with
  | EmptyString =>
      match word with
      | EmptyString => []
      | _ => [word]
      end
  | String c rest =>
      if PyStr.is_space c then
        match word with
        | EmptyString => words_from rest EmptyString
        | _ => word :: words_from rest EmptyString
        end
      else words_from rest (word ++ String c EmptyString)
  end.

Definition words (s : string) : list string := words_from s EmptyString.

(** [str(n)] for an [int]. *)
Definition str_int (n : Z) : string := NilZero.string_of_int (Z.to_int n).

End PyText.

Section FileList.

Variable py_int : string -> option Z.

(** Lines 246-252: the manifest, one [path count] pair per line. *)
Definition manifest_line (file_list : list (string * Z)) (line : string)
    : result (list (string * Z)) :=
  match PyText.words (PyStr.strip line) with
  | [file; count] => n <- parse_int py_int count ;; Ok (file_list ++ [(file, n)])
  | _ => Raise ValueError
  end.

Definition file_list_of_manifest (manifest : list string)
    : result (list (string * Z)) :=
  for_each manifest_line manifest [].

(** Lines 255-257: the arguments, alternately a path and a count. *)
Definition file_list_of_arguments (args : list string)
    : result (list (string * Z)) :=
  if Nat.eqb (Nat.modulo (List.length args) 2) 0 then
    for_each
      (fun file_list i =>
         file <- item args i ;;
         count <- item args (i + 1) ;;
         n <- parse_int py_int count ;;
         Ok (file_list ++ [(file, n)]))
      (map (fun k => (2 * k)%nat) (seq 0 (Nat.div (List.length args) 2))) []
  else Raise ValueError.

(** [os.path.isfile], and the lines of a file that exists. *)
Variable isfile : string -> bool.
Variable readlines : string -> list string.

(** Lines 244-257. *)
Definition read_file_list (args : list string) : result (list (string * Z)) :=
  match args with
  | [only] =>
      if isfile only then file_list_of_manifest (readlines only)
      else file_list_of_arguments args
  | _ => file_list_of_arguments args
  end.

End FileList.

(* ================================================================= *)
(** ** The writers *)

(** The exceptions of the writers: the [KeyError] of a subscript [d[k]]
    for a key that [d] does not have, and the exceptions of [pyexn]. *)
Inductive writer_exn : Type :=
  | KeyError
  | Builtin (e : pyexn).

Inductive outcome (A : Type) : Type :=
  | Returns (a : A)
  | Raises (e : writer_exn).

Arguments Returns {A} a.
Arguments Raises {A} e.

Definition and_then {A B : Type} (o : outcome A) (k : A -> outcome B)
    : outcome B :=
  match o with
  | Returns a => k a
  | Raises e => Raises e
  end.

Definition of_result {A : Type} (r : result A) : outcome A :=
  match r with
  | Ok a => Returns a
  | Raise e => Raises (Builtin e)
  end.

(** [d[k]]. *)
Definition subscript {K V : Type} `{Key K} (d : dict K V) (k : K) : outcome V :=
  match get k d with
  | Some v => Returns v
  | None => Raises KeyError
  end.

(** A loop whose body can raise an exception of the writers. *)
Fixpoint loop {A S : Type} (body : S -> A -> outcome S) (xs : list A) (s : S)
    : outcome S :=
  match xs with
  | [] => Returns s
  | x :: rest => and_then (body s x) (loop body rest)
  end.

(** [grouped_data], the rows of a file before they are written: locus ->
    entries. *)
Definition grouped : Type := dict locus (list string).

(** [if key not in grouped_data: grouped_data[key] = []]. *)
Definition start_row (key : locus) (grouped_data : grouped) : grouped :=
  if mem key grouped_data then grouped_data else set key [] grouped_data.

(** [grouped_data[key].append(entry)]. *)
Definition add_entry (key : locus) (entry : string) (grouped_data : grouped)
    : outcome grouped :=
  and_then (subscript grouped_data key)
    (fun entries => Returns (set key (entries ++ [entry]) grouped_data)).

Definition space : string := String " " EmptyString.
Definition line_feed : string := String "010" EmptyString.
Definition tabulator : string := String "009" EmptyString.

(** The last loop of a writer: [f"{chrom} {pos} {' '.join(entries)}\n"]
    for each locus, after the header. *)
Definition file_lines (header : string) (grouped_data : grouped) : list string :=
  (header ++ line_feed)%string
  :: map (fun row : locus * list string =>
            (fst (fst row) ++ space ++ PyText.str_int (snd (fst row)) ++ space
             ++ String.concat space (snd row) ++ line_feed)%string)
       grouped_data.

Section Writers.

(** [str(x)] of a float, which [f"{x}"] prints, and [format(x, ".4f")],
    [format(x, ".2f")], of the Python runtime. *)
Variable str_float : float -> string.
Variable format_4f : float -> string.
Variable format_2f : float -> string.

(** Lines 147-150: the lines of the file of the most divergent loci. *)
Definition most_divergent_lines (sorted_loci : list (locus * (float * float)))
    : list string :=
  ("Chrom" ++ tabulator ++ "Pos" ++ tabulator ++ "Divergence_Score"
   ++ tabulator ++ "Avg_Perc_Genotyped" ++ line_feed)%string
  :: map (fun row : locus * (float * float) =>
            (fst (fst row) ++ tabulator ++ PyText.str_int (snd (fst row))
             ++ tabulator ++ format_4f (fst (snd row))
             ++ tabulator ++ format_2f (snd (snd row)) ++ line_feed)%string)
       sorted_loci.

(** [f"{clade} {allele} {freq}"]. *)
Definition allele_entry (c : clade) (a : allele) (f : float) : string :=
  (c ++ space ++ a ++ space ++ str_float f)%string.

(** Lines 158-164. *)
Definition fixed_rows (grouped_data : grouped) (it : locus * list fixed_entry)
    : outcome grouped :=
  let '(key, cd) := it in
  loop
    (fun g (e : fixed_entry) =>
       loop (fun g (af : allele * float) =>
               add_entry key (allele_entry (fst e) (fst af) (snd af)) g)
         (snd e) g)
    cd (start_row key grouped_data).

Definition write_fixed_alleles_to_file (fixed_alleles : fixed_map)
    : outcome (list string) :=
  and_then (loop fixed_rows fixed_alleles [])
    (fun g => Returns (file_lines "Chrom Pos Clade Allele Freq" g)).

(** Lines 175-182. *)
Definition unique_fixed_rows (grouped_data : grouped)
    (it : locus * list fixed_entry) : outcome grouped :=
  let '(key, cd) := it in
  loop
    (fun g (e : fixed_entry) =>
       and_then (of_result (py_max_key (snd e))) (fun fixed_allele =>
       and_then (subscript (snd e) fixed_allele) (fun f =>
       add_entry key (allele_entry (fst e) fixed_allele f) g)))
    cd (start_row key grouped_data).

Definition write_unique_fixed_alleles_to_file (unique_fixed_alleles : fixed_map)
    : outcome (list string) :=
  and_then (loop unique_fixed_rows unique_fixed_alleles [])
    (fun g => Returns (file_lines "Chrom Pos Clade Allele Freq" g)).

(** Lines 193-199;
    [f"{clade} {allele} {values['freq']} {values['perc_genotyped']}"]. *)
Definition private_rows (grouped_data : grouped)
    (it : locus * dict clade (dict allele private_info)) : outcome grouped :=
  let '(key, cd) := it in
  loop
    (fun g (e : clade * dict allele private_info) =>
       loop (fun g (av : allele * private_info) =>
               add_entry key
                 (fst e ++ space ++ fst av ++ space ++ str_float (freq (snd av))
                  ++ space ++ str_float (perc_genotyped (snd av)))%string g)
         (snd e) g)
    cd (start_row key grouped_data).

Definition write_private_alleles_to_file (private_alleles : private_map)
    : outcome (list string) :=
  and_then (loop private_rows private_alleles [])
    (fun g => Returns (file_lines "Chrom Pos Clade Allele Freq Perc_Genotyped" g)).

(** [f"{clade} {perc_genotyped}"]. *)
Definition site_entry (c : clade) (pg : float) : string :=
  (c ++ space ++ str_float pg)%string.

(** Lines 210-214. *)
Definition private_site_rows (grouped_data : grouped)
    (it : locus * (clade * float)) : outcome grouped :=
  let '(key, (c, pg)) := it in
  add_entry key (site_entry c pg) (start_row key grouped_data).

Definition write_private_sites_to_file (private_sites : private_sites_map)
    : outcome (list string) :=
  and_then (loop private_site_rows private_sites [])
    (fun g => Returns (file_lines "Chrom Pos Clade Perc_Genotyped" g)).

(** Lines 225-230. *)
Definition uniquely_missing_rows (grouped_data : grouped)
    (it : locus * dict clade float) : outcome grouped :=
  let '(key, cd) := it in
  loop (fun g (e : clade * float) => add_entry key (site_entry (fst e) (snd e)) g)
    cd (start_row key grouped_data).

Definition write_uniquely_missing_sites_to_file
    (uniquely_missing_sites : uniquely_missing_map) : outcome (list string) :=
  and_then (loop uniquely_missing_rows uniquely_missing_sites [])
    (fun g => Returns (file_lines "Chrom Pos Clade Perc_Genotyped" g)).

(** Lines 265-273 of [main]: each structure goes to its writer; the lines
    of the file when the writer returns. *)
Definition write_output (o : output) : outcome (list string) :=
  match o with
  | MostDivergentLoci rows => Returns (most_divergent_lines rows)
  | FixedAlleles m => write_fixed_alleles_to_file m
  | UniqueFixedAlleles m => write_unique_fixed_alleles_to_file m
  | PrivateAlleles m => write_private_alleles_to_file m
  | PrivateSites m => write_private_sites_to_file m
  | UniquelyMissingSites m => write_uniquely_missing_sites_to_file m
  end.

End Writers.

(* ################################################################# *)
(** * Vocabulary of the properties *)

(* ================================================================= *)
(** ** Dicts *)

Class KeyOk (K : Type) `{Key K} : Prop := {
  key_eqb_eq : forall a b : K, key_eqb a b = true <-> a = b
}.

Arguments KeyOk K {_}.

(** An entry [x] filed under key [k]. *)
Definition entry {K X : Type} `{Key K} (d : dict K (list X)) (k : K) (x : X)
    : Prop :=
  exists xs, get k d = Some xs /\ In x xs.

(** Checkers of the well-formedness of dicts. *)
Fixpoint distinctb {K : Type} `{Key K} (ks : list K) : bool :=
  match ks with
  | [] => true
  | k :: rest => (negb (existsb (key_eqb k) rest) && distinctb rest)%bool
  end.

Definition wf_tableb (t : table) : bool :=
  (distinctb (keys t)
   && forallb
        (fun it : locus * clade_data =>
           distinctb (keys (snd it))
           && forallb (fun r : clade * clade_record => distinctb (keys (snd (snd r))))
                (snd it))
        t)%bool.

(* ================================================================= *)
(** ** Loops that assign [d[k] = w] for some of the items of a dict *)

Section Collect.
Context {K V W : Type} `{Key K}.

(** A loop body that assigns [d[k] = w] when [f] selects the item. *)
Definition collect (f : K -> V -> option W) (acc : dict K W) (it : K * V)
    : dict K W :=
  match f (fst it) (snd it) with
  | Some w => set (fst it) w acc
  | None => acc
  end.

(** A loop body that assigns [d[k] = w] for some items and can raise. *)
Definition collect_r (f : K -> V -> result (option W)) (acc : dict K W)
    (it : K * V) : result (dict K W) :=
  o <- f (fst it) (snd it) ;;
  Ok (match o with Some w => set (fst it) w acc | None => acc end).

(** What a loop with body [collect_r f] assigns for an item. *)
Definition chosen (f : K -> V -> result (option W)) (k : K) (v : V)
    : option W :=
  match f k v with
  | Ok o => o
  | Raise _ => None
  end.

End Collect.

(* ================================================================= *)
(** ** The loops of the classifiers *)

(** What the loop over the clades assigns to a clade. *)
Definition private_of (error_tolerance : float) (cd : clade_data)
    (c : clade) (r : clade_record)
    : option (dict allele private_info) :=
  match private_alleles_set error_tolerance c r cd with
  | [] => None
  | ps => Some ps
  end.

(** What the loop over the loci assigns to a locus. *)
Definition private_at (error_tolerance : float) (l : locus) (cd : clade_data)
    : option (dict clade (dict allele private_info)) :=
  if existsb missing_or_nan (values cd) then None
  else
    match private_alleles_at_pos error_tolerance cd with
    | [] => None
    | at_pos => Some at_pos
    end.

(** The allele [a] is reported as private to clade [c] at locus [l], with
    the recorded values [i]. *)
Definition reported (out : private_map) (l : locus) (c : clade) (a : allele)
    (i : private_info) : Prop :=
  exists at_pos ps,
    get l out = Some at_pos /\ get c at_pos = Some ps /\ get a ps = Some i.

(** No clade of the locus has [perc_genotyped == 0] or a NaN frequency. *)
Definition all_genotyped_no_nan (cd : clade_data) : Prop :=
  forall c pg afs, In (c, (pg, afs)) cd ->
    eqb pg zero = false /\ forall f, In f (values afs) -> isnan f = false.

(** What the loop assigns to a locus in [private_sites]. *)
Definition private_site_of (l : locus) (cd : clade_data)
    : option (clade * float) :=
  match genotyped_clades cd with
  | [first] =>
      if Nat.ltb 0 (List.length (missing_clades cd)) then Some first else None
  | _ => None
  end.

(** What the loop assigns to a locus in [uniquely_missing_sites]. *)
Definition uniquely_missing_of (l : locus) (cd : clade_data)
    : option (dict clade float) :=
  if (Nat.ltb 1 (List.length (genotyped_clades cd))
      && Nat.eqb (List.length (missing_clades cd)) 1)%bool
  then Some (genotyped_clades cd) else None.

(** Every entry of the fixed-allele map has at least one allele. *)
Definition has_alleles (fm : fixed_map) : Prop :=
  forall l cd c afs, In (l, cd) fm -> In (c, afs) cd -> afs <> [].

(** What the loop of lines 56-58 assigns to a clade. *)
Definition fixed_allele_of (c : clade) (afs : allele_freqs)
    : result (option allele) :=
  a <- py_max_key afs ;; Ok (Some a).

(** What the loop over the loci assigns to a locus. *)
Definition unique_of (l : locus) (cd : list fixed_entry)
    : result (option (list fixed_entry)) :=
  per_clade <- fixed_alleles_per_clade cd ;;
  Ok (if (Nat.eqb (List.length cd) 1
          || Nat.eqb (count_distinct (values per_clade)) (List.length per_clade))%bool
      then Some cd else None).

(* ================================================================= *)
(** ** Divergence scores *)

(** The frequency of an allele in a clade record, [0.0] when the record
    does not have the allele. *)
Definition freq_in (a : allele) (r : clade_record) : float :=
  match get a (snd r) with
  | Some f => f
  | None => zero
  end.

(** Maximum frequency across the clades minus minimum frequency across the
    clades. *)
Definition spread (clade_freqs : list clade_record) (a : allele)
    : result float :=
  hi <- py_max (map (freq_in a) clade_freqs) ;;
  lo <- py_min (map (freq_in a) clade_freqs) ;;
  Ok (sub hi lo).

(** [score] is the sum, in the order of [alleles], of the spreads. *)
Definition sum_of_spreads (clade_freqs : list clade_record)
    (alleles : list allele) (score : float) : Prop :=
  exists spreads,
    Forall2 (fun a d => spread clade_freqs a = Ok d) alleles spreads /\
    score = fold_left add spreads zero.

(** The arithmetic mean of the genotyped fractions. *)
Definition mean_genotyped (clade_freqs : list clade_record) : float :=
  div (fold_left add (map fst clade_freqs) zero)
      (float_of_int (Z.of_nat (List.length clade_freqs))).

(** The alleles of the clades of a locus, in the order the loop over
    [all_alleles_set] visits them. *)
Definition alleles_seen (set_iter : list allele -> list allele)
    (clade_freqs : list clade_record) : list allele :=
  set_iter (flat_map (fun r => keys (snd r)) clade_freqs).

(** What the loop assigns to a locus. *)
Definition divergence_of (set_iter : list allele -> list allele)
    (l : locus) (cd : clade_data)
    : option (float * float) :=
  if Nat.ltb (List.length cd) 2 then None
  else
    match max_diff_of (values cd) (alleles_seen set_iter (values cd)) with
    | Ok max_diff => Some (max_diff, mean_genotyped (values cd))
    | Raise _ => None
    end.

(* ================================================================= *)
(** ** Sorting by key *)

Section SortKey.
Context {A : Type}.
Variable key : A -> float.

(** [a] may come before [b] in ascending order of keys. *)
Definition key_le (a b : A) : Prop := leb (key a) (key b) = true.

(** [a] may come before [b] in descending order of keys. *)
Definition key_ge (a b : A) : Prop := geb (key a) (key b) = true.

(** The elements whose key is [== k]. *)
Definition with_key (k : float) (xs : list A) : list A :=
  filter (fun e => eqb (key e) k) xs.

Definition keys_not_nan (xs : list A) : Prop :=
  forall e, In e xs -> isnan (key e) = false.

End SortKey.

(* ================================================================= *)
(** ** The order of floats *)

(** A float that is not NaN, as a triple of integers ordered
    lexicographically: infinities, signs, exponents and mantissas. *)
Definition rank (x : float) : Z * Z * Z :=
  match x with
  | S754_nan => (0, 0, 0)
  | S754_infinity true => (-2, 0, 0)
  | S754_finite true m e => (-1, - e, Zneg m)
  | S754_zero _ => (0, 0, 0)
  | S754_finite false m e => (1, e, Zpos m)
  | S754_infinity false => (2, 0, 0)
  end.

Definition lt3 (a b : Z * Z * Z) : Prop :=
  fst (fst a) < fst (fst b) \/
  (fst (fst a) = fst (fst b) /\
   (snd (fst a) < snd (fst b) \/
    (snd (fst a) = snd (fst b) /\ snd a < snd b))).

Definition lex_compare (a b : Z * Z * Z) : comparison :=
  match fst (fst a) ?= fst (fst b) with
  | Eq =>
      match snd (fst a) ?= snd (fst b) with
      | Eq => snd a ?= snd b
      | c => c
      end
  | c => c
  end.

(* ================================================================= *)
(** ** Exceptions *)

(** A result that, if it is an exception, is one of Python's built-in
    exceptions. *)
Definition raises_builtin {A : Type} (r : result A) : Prop :=
  forall e, r = Raise e -> e <> MalformedRecordError.

(* ================================================================= *)
(** ** Instances of the runtime functions *)

Module Runtime.

(** The integer nearest to [p / q], ties to even, for [p >= 0] and
    [q > 0]. *)
Definition round_half_even_div (p q : Z) : Z :=
  let d := p / q in
  match 2 * (p mod q) ?= q with
  | Lt => d
  | Gt => d + 1
  | Eq => if Z.even d then d else d + 1
  end.

(** [round(x, 6)]: the exact value of [x] is rounded to 6 decimals, ties to
    even, and the decimal result is converted to the nearest float. *)
Definition round6 (x : float) : float :=
  match x with
  | S754_finite s m e =>
      if 0 <=? e then x
      else
        match round_half_even_div (Zpos m * 10 ^ 6) (2 ^ (- e)) with
        | Zpos n => SFdiv prec emax (S754_finite s n 0) (S754_finite false 1000000 0)
        | _ => S754_zero s
        end
  | _ => x
  end.

Definition digit_of (c : ascii) : option Z :=
  let n := nat_of_ascii c in
  if (Nat.leb 48 n && Nat.leb n 57)%bool then Some (Z.of_nat (n - 48)) else None.

Fixpoint digits_value (s : string) (acc : Z) : option Z :=
  match s with
  | EmptyString => Some acc
  | String c rest =>
      match digit_of c with
      | Some d => digits_value rest (10 * acc + d)
      | None => None
      end
  end.

Definition unsigned_int (s : string) : option Z :=
  match s with
  | EmptyString => None
  | _ => digits_value s 0
  end.

(** [int(s)] on the decimal literals: ASCII digits after an optional sign.
    The other spellings [int] accepts (surrounding whitespace, underscores
    between digits) are not covered. *)
Definition int_of_digits (s : string) : option Z :=
  match s with
  | String "-" rest => option_map Z.opp (unsigned_int rest)
  | String "+" rest => unsigned_int rest
  | _ => unsigned_int s
  end.

(** The float nearest to [n / 10^k], for [n < 2^53] and [k <= 22], where
    numerator and denominator are floats and one division rounds once. *)
Definition decimal (negative : bool) (n : Z) (k : nat) : option float :=
  if ((n <? 2 ^ 53) && Nat.leb k 22)%bool then
    Some (match n with
          | Zpos m =>
              div (S754_finite negative m 0) (float_of_int (10 ^ Z.of_nat k))
          | _ => S754_zero negative
          end)
  else None.

Definition unsigned_float (negative : bool) (s : string) : option float :=
  if (String.eqb s "nan")%bool then Some nan
  else if (String.eqb s "inf")%bool then Some (S754_infinity negative)
  else
    match PyStr.split "." s with
    | [i] =>
        match unsigned_int i with
        | Some n => decimal negative n 0
        | None => None
        end
    | [i; f] =>
        match s, digits_value i 0, digits_value f 0 with
        | String "." EmptyString, _, _ => None
        | _, Some n, Some _ =>
            match digits_value f n with
            | Some v => decimal negative v (String.length f)
            | None => None
            end
        | _, _, _ => None
        end
    | _ => None
    end.

(** [float(s)] on [nan], [inf] and the decimal literals whose digits form
    an integer below [2^53], with at most 22 decimals, after an optional
    sign.  The other spellings [float] accepts (exponents, longer
    literals, surrounding whitespace) are not covered. *)
Definition float_of_decimal (s : string) : option float :=
  match s with
  | String "-" rest => unsigned_float true rest
  | String "+" rest => unsigned_float false rest
  | _ => unsigned_float false s
  end.

(** An iteration order of sets: first occurrences dropped, last kept. *)
Definition set_order (xs : list allele) : list allele := nodup string_dec xs.

End Runtime.

(* ================================================================= *)
(** ** Example data *)

Module Example.

Local Open Scope string_scope.

Definition flt (s : string) : float :=
  match Runtime.float_of_decimal s with
  | Some x => x
  | None => nan
  end.

Definition tab : string := String "009" EmptyString.
Definition newline : string := String "010" EmptyString.

(** A line of a [.frq] file. *)
Definition row (cells : list string) : string :=
  String.concat tab cells ++ newline.

Definition header : string :=
  row ["CHROM"; "POS"; "N_ALLELES"; "N_CHR"; "{ALLELE:FREQ}"].

(** Three clades of five individuals; clade C is missing at the second
    site, where vcftools prints [-nan] frequencies. *)
Definition file_A : frq_file :=
  {| path := "data/A.frq";
     lines := [header;
               row ["1"; "100"; "2"; "10"; "A:1"; "T:0"];
               row ["1"; "200"; "2"; "10"; "A:0.75"; "T:0.25"]] |}.

Definition file_B : frq_file :=
  {| path := "data/B.frq";
     lines := [header;
               row ["1"; "100"; "2"; "10"; "A:0"; "T:1"];
               row ["1"; "200"; "2"; "8"; "A:0.25"; "T:0.75"]] |}.

Definition file_C : frq_file :=
  {| path := "data/C.frq";
     lines := [header;
               row ["1"; "100"; "2"; "10"; "A:1"; "T:0"];
               row ["1"; "200"; "2"; "0"; "A:-nan"; "T:-nan"]] |}.

Definition files : list (frq_file * Z) := [(file_A, 5); (file_B, 5); (file_C, 5)].

Definition process (file_list : list (frq_file * Z)) : result table :=
  process_files Runtime.int_of_digits Runtime.float_of_decimal file_list.

(** The aggregated table of the three files. *)
Definition all_alleles : table :=
  Eval vm_compute in
    match process files with
    | Ok t => t
    | Raise _ => []
    end.

(** The fixed alleles of [all_alleles] for [miss_tolerance = 1.0] and
    [error_tolerance = 0.0]. *)
Definition fixed_alleles : fixed_map :=
  Eval vm_compute in
    match identify_fixed_alleles all_alleles one zero with
    | Ok m => m
    | Raise _ => []
    end.

(** A locus with two clades that have no data: identical frequency dicts
    of NaN. *)
Definition both_missing : table :=
  [(("1", 300),
    [("A", (zero, [("A", nan); ("T", nan)]));
     ("B", (zero, [("A", nan); ("T", nan)]))])].

(** A locus with two clades of the same infinite frequency ([float]
    accepts [inf]). *)
Definition both_infinite : table :=
  [(("1", 600),
    [("A", (one, [("A", S754_infinity false)]));
     ("B", (one, [("A", S754_infinity false)]))])].

(** A locus with two clades of identical finite frequencies. *)
Definition both_same : table :=
  [(("1", 400),
    [("A", (one, [("A", flt "0.3"); ("T", flt "0.7")]));
     ("B", (one, [("A", flt "0.3"); ("T", flt "0.7")]))])].

(** A clade that is genotyped at a locus for which the file lists no
    allele ([N_ALLELES = 0]). *)
Definition no_allele : table :=
  [(("1", 500), [("A", (one, [("A", one)])); ("B", (one, []))])].

(** Divergence scores: two that round to the same 6 decimals, and a NaN. *)
Definition scores : divergence_map :=
  [(("1", 1), (flt "1.0000001", one));
   (("1", 2), (flt "2", one));
   (("1", 3), (nan, zero));
   (("1", 4), (flt "1.0000004", one));
   (("1", 5), (flt "0.5", one))].

(** The runs on two and on three clades. *)
Definition run (file_list : list (frq_file * Z)) : result (list output) :=
  main Runtime.int_of_digits Runtime.float_of_decimal Runtime.set_order
    Runtime.round6 file_list one zero 200.

Definition outputs_of_three : list output :=
  Eval vm_compute in
    match run files with
    | Ok outs => outs
    | Raise _ => []
    end.

Definition outputs_of_two : list output :=
  Eval vm_compute in
    match run [(file_A, 5); (file_B, 5)] with
    | Ok outs => outs
    | Raise _ => []
    end.

End Example.

(* ################################################################# *)
(** * Vocabulary of the further properties *)

(** The record of clade [c] at locus [l]. *)
Definition record_at (t : table) (l : locus) (c : clade) : option clade_record :=
  match get l t with
  | Some cd => get c cd
  | None => None
  end.

(** The columns [process_files] looks up in the header. *)
Definition required_columns : list string :=
  ["CHROM"; "POS"; "N_ALLELES"; "N_CHR"; "{ALLELE:FREQ}"]%string.

(** The string has the character. *)
Fixpoint has_char (c : ascii) (s : string) : bool :=
  match s with
  | EmptyString => false
  | String c' rest => (Ascii.eqb c c' || has_char c rest)%bool
  end.

(** Further input files. *)
Module Cases.

Local Open Scope string_scope.

(** The header [vcftools --freq2] prints. *)
Definition header_freq2 : string :=
  Example.row ["CHROM"; "POS"; "N_ALLELES"; "N_CHR"; "{FREQ}"].

Definition file_freq2 : frq_file :=
  {| path := "data/D.frq";
     lines := [header_freq2; Example.row ["1"; "100"; "2"; "10"; "1"; "0"]] |}.

(** A file with no site, and a file with no line. *)
Definition file_header_only : frq_file :=
  {| path := "data/E.frq"; lines := [header_freq2] |}.

Definition file_empty : frq_file :=
  {| path := "data/F.frq"; lines := [] |}.

(** The no-break space, U+00A0. *)
Definition nbsp : string := String "160" EmptyString.

(** A file whose header line ends with a no-break space. *)
Definition file_nbsp : frq_file :=
  {| path := "data/G.frq";
     lines := [String.concat Example.tab
                 ["CHROM"; "POS"; "N_ALLELES"; "N_CHR"; "{ALLELE:FREQ}"]
               ++ nbsp ++ Example.newline;
               Example.row ["1"; "100"; "2"; "10"; "A:1"; "T:0"]] |}.

End Cases.

(** The cell [j] of the frequency columns of a row, which begin at column
    [first], reads as allele [a] with frequency [x]. *)
Definition cell_of (py_float : string -> option float) (line : list string)
    (first j : nat) (a : allele) (x : float) : Prop :=
  exists field f,
    nth_error line (first + j) = Some field /\
    PyStr.split ":" field = [a; f] /\ py_float f = Some x.

(** The clade names of the listed files. *)
Definition clade_names (file_list : list (frq_file * Z)) : list clade :=
  map (fun input => clade_name (path (fst input))) file_list.

(** The items a loop with body [collect f] assigns, in the order of the
    dict it runs over. *)
Definition selected {K V W : Type} (f : K -> V -> option W) (d : dict K V)
    : dict K W :=
  flat_map
    (fun it => match f (fst it) (snd it) with
               | Some w => [(fst it, w)]
               | None => []
               end)
    d.

(** The entries of the clades of a locus that pass the test of line 47,
    in the order of the clades. *)
Definition fixed_entries_of (miss_tolerance error_tolerance : float)
    (cd : clade_data) : list fixed_entry :=
  flat_map
    (fun it => match is_fixed miss_tolerance error_tolerance (snd it) with
               | Ok true => [(fst it, snd (snd it))]
               | _ => []
               end)
    cd.

(** What [identify_fixed_alleles] files under a locus. *)
Definition fixed_at (miss_tolerance error_tolerance : float) (l : locus)
    (cd : clade_data) : option (list fixed_entry) :=
  match fixed_entries_of miss_tolerance error_tolerance cd with
  | [] => None
  | es => Some es
  end.

(** The test of lines 60-65 on the entries of a locus. *)
Definition is_unique (cd : list fixed_entry) : bool :=
  match fixed_alleles_per_clade cd with
  | Ok per_clade =>
      (Nat.eqb (List.length cd) 1
       || Nat.eqb (count_distinct (values per_clade)) (List.length per_clade))%bool
  | Raise _ => false
  end.

(** The accumulator of [identify_fixed_alleles] while the clades of locus
    [l] are visited: [es] are the entries filed so far. *)
Definition filed (l : locus) (es : list fixed_entry) (base : fixed_map)
    : fixed_map :=
  match es with
  | [] => base
  | _ => base ++ [(l, es)]
  end.

(** The entries of a row of the fixed-alleles file: one per allele of each
    clade, in order. *)
Definition fixed_entries (str_float : float -> string) (cd : list fixed_entry)
    : list string :=
  flat_map
    (fun e : fixed_entry =>
       map (fun af : allele * float =>
              allele_entry str_float (fst e) (fst af) (snd af))
         (snd e))
    cd.

(** The entry of a clade in the unique-fixed-alleles file (lines 178-180):
    its allele of greatest frequency. *)
Definition unique_entry (str_float : float -> string) (e : fixed_entry)
    : outcome string :=
  and_then (of_result (py_max_key (snd e))) (fun fixed_allele =>
  and_then (subscript (snd e) fixed_allele) (fun f =>
  Returns (allele_entry str_float (fst e) fixed_allele f))).

(** The entries of a row of the private-alleles file. *)
Definition private_entries (str_float : float -> string)
    (cd : dict clade (dict allele private_info)) : list string :=
  flat_map
    (fun e : clade * dict allele private_info =>
       map (fun av : allele * private_info =>
              (fst e ++ space ++ fst av ++ space ++ str_float (freq (snd av))
               ++ space ++ str_float (perc_genotyped (snd av)))%string)
         (snd e))
    cd.

(** A dict of rows, one per item of [d]. *)
Definition rows_of {V : Type} (entries_of : V -> list string)
    (d : dict locus V) : grouped :=
  map (fun it => (fst it, entries_of (snd it))) d.

(** A printer of floats for the example data: [str] on [0.0], [1.0] and
    NaN, the values the rows of the example files need. *)
Definition str_of_float (x : float) : string :=
  if isnan x then "nan"%string
  else if eqb x zero then "0.0"%string
  else if eqb x one then "1.0"%string
  else "?"%string.

(* ================================================================= *)
(** ** Maximum and minimum of frequencies *)

(** The first float of the list is NaN. *)
Definition nan_first (xs : list float) : bool :=
  match xs with
  | x :: _ => isnan x
  | [] => false
  end.

(** [m] is a greatest float of [xs]: one of its elements, not NaN, that
    no element that is not NaN exceeds. *)
Definition greatest (xs : list float) (m : float) : Prop :=
  In m xs /\ isnan m = false /\
  forall x, In x xs -> isnan x = false -> leb x m = true.






(** Tables in which a frequency is NaN. *)
Module NanCases.

Local Open Scope string_scope.

(** A clade whose dict lists a NaN frequency before, or after, a
    frequency of [1.0]. *)
Definition nan_first_table : table :=
  [(("1", 700), [("A", (one, [("A", nan); ("T", one)]))])].

Definition nan_last_table : table :=
  [(("1", 700), [("A", (one, [("T", one); ("A", nan)]))])].



End NanCases.

(* ################################################################# *)
(** * Properties *)

(* ================================================================= *)
(** ** Keys and dicts *)

#[export] Instance string_KeyOk : KeyOk string.
Proof. constructor; exact String.eqb_eq. Qed.

Lemma locus_eqb_eq (a b : locus) : locus_eqb a b = true <-> a = b.
Proof.
  destruct a as [c p], b as [c' p']; unfold locus_eqb; simpl.
  rewrite andb_true_iff, String.eqb_eq, Z.eqb_eq.
  split; [intros [-> ->]; reflexivity | intros E; inversion E; auto].
Qed.

#[export] Instance locus_KeyOk : KeyOk locus.
Proof. constructor; exact locus_eqb_eq. Qed.

Section DictFacts.
Context {K : Type} `{KeyOk K}.

Lemma key_eqb_refl (k : K) : key_eqb k k = true.
Proof. apply key_eqb_eq; reflexivity. Qed.

Lemma key_eqb_neq (a b : K) : key_eqb a b = false <-> a <> b.
Proof.
  rewrite <- key_eqb_eq. destruct (key_eqb a b); split; congruence.
Qed.

Lemma key_eqb_case (a b : K) :
  (a = b /\ key_eqb a b = true) \/ (a <> b /\ key_eqb a b = false).
Proof.
  destruct (key_eqb a b) eqn:E; [left | right]; split; auto.
  - apply key_eqb_eq; exact E.
  - apply key_eqb_neq; exact E.
Qed.

Context {V : Type}.
Implicit Types (d : dict K V) (k : K) (v : V).

Lemma get_In d k v : get k d = Some v -> In (k, v) d.
Proof.
  induction d as [|[k' v'] d IH]; simpl; [discriminate|].
  destruct (key_eqb_case k k') as [[-> ->] | [_ ->]].
  - intros E; inversion E; auto.
  - auto.
Qed.

Lemma get_None d k : get k d = None <-> ~ In k (keys d).
Proof.
  induction d as [|[k' v'] d IH]; simpl; [tauto|].
  destruct (key_eqb_case k k') as [[-> ->] | [N ->]].
  - split; [discriminate | intros C; exfalso; apply C; auto].
  - rewrite IH. split; [intros A [B | B]; [congruence | auto] | tauto].
Qed.

Lemma In_get d k v : wf d -> In (k, v) d -> get k d = Some v.
Proof.
  unfold wf. induction d as [|[k' v'] d IH]; simpl; [tauto|].
  intros W [E | I]; inversion W as [|? ? N W']; subst.
  - inversion E; subst. rewrite key_eqb_refl. reflexivity.
  - destruct (key_eqb_case k k') as [[-> _] | [_ ->]]; [|auto].
    exfalso; apply N. change k' with (fst (k', v)). apply in_map; exact I.
Qed.

Lemma get_iff_In d k v : wf d -> (get k d = Some v <-> In (k, v) d).
Proof. intros W; split; [apply get_In | apply In_get; exact W]. Qed.

Lemma keys_set d k v :
  keys (set k v d) = if mem k d then keys d else keys d ++ [k].
Proof.
  unfold mem. induction d as [|[k' v'] d IH]; simpl; [reflexivity|].
  destruct (key_eqb_case k k') as [[-> ->] | [_ ->]]; simpl; [reflexivity|].
  rewrite IH. destruct (get k d); reflexivity.
Qed.

Lemma wf_set d k v : wf d -> wf (set k v d).
Proof.
  unfold wf. rewrite keys_set. unfold mem.
  destruct (get k d) eqn:G; [auto|].
  intros W. apply get_None in G.
  apply NoDup_rev in W. rewrite <- (rev_involutive (keys d ++ [k])).
  apply NoDup_rev. rewrite rev_app_distr; simpl. constructor; [|exact W].
  rewrite <- in_rev. exact G.
Qed.

Lemma get_set d k v k' :
  get k' (set k v d) = if key_eqb k' k then Some v else get k' d.
Proof.
  induction d as [|[k0 v0] d IH]; simpl.
  - reflexivity.
  - destruct (key_eqb_case k k0) as [[-> ->] | [N ->]]; simpl.
    + destruct (key_eqb k' k0); reflexivity.
    + rewrite IH. destruct (key_eqb_case k' k0) as [[-> ->] | [_ ->]]; [|reflexivity].
      apply not_eq_sym, key_eqb_neq in N. rewrite N. reflexivity.
Qed.

(** On a new key, [d[k] = v] appends. *)
Lemma set_new d k v : ~ In k (keys d) -> set k v d = d ++ [(k, v)].
Proof.
  induction d as [|[k0 v0] d IH]; simpl; [reflexivity|].
  intros N. destruct (key_eqb_case k k0) as [[-> _] | [_ ->]].
  - exfalso; apply N; auto.
  - rewrite IH; [reflexivity | tauto].
Qed.
End DictFacts.

Section AppendFacts.
Context {K X : Type} `{KeyOk K}.
Implicit Types (d : dict K (list X)) (k : K) (x : X).

Lemma keys_setdefault_append d k x :
  keys (setdefault_append k x d) = if mem k d then keys d else keys d ++ [k].
Proof.
  unfold mem. induction d as [|[k' xs] d IH]; simpl; [reflexivity|].
  destruct (key_eqb_case k k') as [[-> ->] | [_ ->]]; simpl; [reflexivity|].
  rewrite IH. destruct (get k d); reflexivity.
Qed.

Lemma wf_setdefault_append d k x : wf d -> wf (setdefault_append k x d).
Proof.
  unfold wf. rewrite keys_setdefault_append. unfold mem.
  destruct (get k d) eqn:G; [auto|].
  intros W. apply get_None in G.
  apply NoDup_rev in W. rewrite <- (rev_involutive (keys d ++ [k])).
  apply NoDup_rev. rewrite rev_app_distr; simpl. constructor; [|exact W].
  rewrite <- in_rev. exact G.
Qed.

Lemma get_setdefault_append d k x k' :
  get k' (setdefault_append k x d) =
  if key_eqb k' k
  then Some (match get k d with Some xs => xs ++ [x] | None => [x] end)
  else get k' d.
Proof.
  induction d as [|[k0 xs] d IH]; simpl.
  - reflexivity.
  - destruct (key_eqb_case k k0) as [[-> ->] | [N ->]]; simpl.
    + destruct (key_eqb k' k0); reflexivity.
    + rewrite IH. destruct (key_eqb_case k' k0) as [[-> ->] | [_ ->]]; [|reflexivity].
      apply not_eq_sym, key_eqb_neq in N. rewrite N. reflexivity.
Qed.

(** The lists of a dict built with [setdefault(k, []).append(x)] are
    never empty. *)
Lemma nonempty_setdefault_append d k x :
  Forall (fun it => snd it <> []) d ->
  Forall (fun it => snd it <> []) (setdefault_append k x d).
Proof.
  induction d as [|[k0 xs] d IH]; simpl; intros F.
  - constructor; [simpl; discriminate | constructor].
  - inversion F; subst. destruct (key_eqb k k0).
    + constructor; [simpl; destruct xs; discriminate | assumption].
    + constructor; auto.
Qed.
End AppendFacts.

Lemma entry_setdefault_append {K X : Type} `{KeyOk K}
    (d : dict K (list X)) (k k' : K) (x y : X) :
  entry (setdefault_append k x d) k' y <->
  entry d k' y \/ (k' = k /\ y = x).
Proof.
  unfold entry. rewrite get_setdefault_append.
  destruct (key_eqb_case k' k) as [[-> ->] | [N ->]].
  - destruct (get k d) as [xs|] eqn:G.
    + split.
      * intros (ys & E & I). inversion E; subst. apply in_app_or in I.
        destruct I as [I | [<- | []]]; [left; eauto | right; auto].
      * intros [(ys & E & I) | [_ ->]].
        -- inversion E; subst. eexists; split; [reflexivity|].
           apply in_or_app; auto.
        -- eexists; split; [reflexivity|]. apply in_or_app; simpl; auto.
    + split.
      * intros (ys & E & I). inversion E; subst.
        destruct I as [<- | []]. right; auto.
      * intros [(ys & E & _) | [_ ->]]; [discriminate|].
        eexists; split; [reflexivity | simpl; auto].
  - split; [auto | intros [A | [B _]]; [exact A | contradiction]].
Qed.

(* ================================================================= *)
(** ** identify_fixed_alleles *)

Section Fixed.
Variables miss_tolerance error_tolerance : float.

Lemma is_fixed_true pg afs :
  is_fixed miss_tolerance error_tolerance (pg, afs) = Ok true <->
  geb pg miss_tolerance = true /\
  exists m, py_max (values afs) = Ok m /\
            geb m (sub one error_tolerance) = true.
Proof.
  unfold is_fixed.
  destruct (geb pg miss_tolerance); [|split; [discriminate | intros [? _]; discriminate]].
  destruct (py_max (values afs)) as [m|e]; simpl.
  - split.
    + intros E; inversion E. split; [reflexivity | exists m; auto].
    + intros [_ (m' & E & G)]. inversion E; subst. rewrite G. reflexivity.
  - split; [discriminate | intros [_ (m' & E & _)]; discriminate].
Qed.

Lemma is_fixed_raise pg afs e :
  is_fixed miss_tolerance error_tolerance (pg, afs) = Raise e ->
  e = ValueError /\ geb pg miss_tolerance = true /\ afs = [].
Proof.
  unfold is_fixed.
  destruct (geb pg miss_tolerance); [|discriminate].
  destruct afs as [|it afs]; simpl; [|discriminate].
  intros E; inversion E; auto.
Qed.

(** The loop over the clades of one locus. *)
Lemma record_if_fixed_loop l cd : forall acc,
  match for_each (record_if_fixed miss_tolerance error_tolerance l) cd acc with
  | Ok acc' =>
      (forall l' y, entry acc' l' y <->
         entry acc l' y \/
         (l' = l /\
          exists c r, In (c, r) cd /\
                      is_fixed miss_tolerance error_tolerance r = Ok true /\
                                y = (c, snd r))) /\
      (wf acc -> wf acc') /\
      (Forall (fun it => snd it <> []) acc ->
       Forall (fun it => snd it <> []) acc')
  | Raise e => exists c r, In (c, r) cd /\ is_fixed miss_tolerance error_tolerance r = Raise e
  end.
Proof.
  induction cd as [|[c r] cd IH]; intros acc; simpl.
  - split; [|auto]. intros l' y; split; [auto|].
    intros [A | (_ & c & r & [] & _)]; exact A.
  - unfold record_if_fixed at 1.
    destruct (is_fixed miss_tolerance error_tolerance r) as [b|e] eqn:T; simpl.
    + specialize (IH (if b then setdefault_append l (c, snd r) acc else acc)).
      destruct (for_each _ cd _) as [acc'|e].
      * destruct IH as (IH1 & IH2 & IH3). split; [|split].
        -- intros l' y. rewrite IH1. destruct b.
           ++ rewrite entry_setdefault_append. split.
              ** intros [[A | [-> ->]] | (-> & c' & r' & I & B)]; auto.
                 --- right; split; [reflexivity|]. exists c, r; auto.
                 --- right; split; [reflexivity|]. exists c', r'; auto.
              ** intros [A | (-> & c' & r' & [E | I] & B & ->)]; auto.
                 --- inversion E; subst. left; right; auto.
                 --- right; split; [reflexivity|]. exists c', r'; auto.
           ++ split.
              ** intros [A | (-> & c' & r' & I & B)]; auto.
                 right; split; [reflexivity|]. exists c', r'; auto.
              ** intros [A | (-> & c' & r' & [E | I] & B & ->)]; auto.
                 --- inversion E; subst. congruence.
                 --- right; split; [reflexivity|]. exists c', r'; auto.
        -- intros W; apply IH2. destruct b; [apply wf_setdefault_append|]; exact W.
        -- intros F; apply IH3. destruct b; [apply nonempty_setdefault_append|]; exact F.
      * destruct IH as (c' & r' & I & B). exists c', r'; auto.
    + exists c, r; auto.
Qed.

(** The loop over the loci. *)
Lemma identify_fixed_loop (t : table) : forall acc,
  match for_each (record_fixed_at miss_tolerance error_tolerance) t acc with
  | Ok out =>
      (forall l y, entry out l y <->
         entry acc l y \/
         exists cd c r, In (l, cd) t /\ In (c, r) cd /\
                        is_fixed miss_tolerance error_tolerance r = Ok true /\ y = (c, snd r)) /\
      (wf acc -> wf out) /\
      (Forall (fun it => snd it <> []) acc ->
       Forall (fun it => snd it <> []) out)
  | Raise e =>
      exists l cd c r,
        In (l, cd) t /\ In (c, r) cd /\
        is_fixed miss_tolerance error_tolerance r = Raise e
  end.
Proof.
  induction t as [|[l cd] t IH]; intros acc; simpl.
  - split; [|auto]. intros l' y; split; [auto|].
    intros [A | (? & ? & ? & [] & _)]; exact A.
  - pose proof (record_if_fixed_loop l cd acc) as L.
    destruct (for_each (record_if_fixed miss_tolerance error_tolerance l) cd acc)
      as [acc1|e]; simpl.
    + destruct L as (L1 & L2 & L3). specialize (IH acc1).
      destruct (for_each (record_fixed_at _ _) t acc1) as [out|e].
      * destruct IH as (IH1 & IH2 & IH3). split; [|split; auto].
        intros l' y. rewrite IH1, L1. split.
        -- intros [[A | (-> & c & r & I & B)] | (cd' & c & r & I & J & B)]; auto.
           ++ right. exists cd, c, r; auto.
           ++ right. exists cd', c, r; auto.
        -- intros [A | (cd' & c & r & [E | I] & J & B)]; auto.
           ++ inversion E; subst. left; right; split; [reflexivity|].
              exists c, r; auto.
           ++ right. exists cd', c, r; auto.
      * destruct IH as (l' & cd' & c & r & I & J & B).
        exists l', cd', c, r; auto.
    + destruct L as (c & r & I & B). exists l, cd, c, r; auto.
Qed.

End Fixed.

(** [identify_fixed_alleles] either returns the fixed-allele map or raises
    the [ValueError] of [max] on an empty frequency dict. *)
Lemma identify_fixed_alleles_cases (t : table)
    (miss_tolerance error_tolerance : float) :
  match identify_fixed_alleles t miss_tolerance error_tolerance with
  | Ok out =>
      wf out /\
      forall l c afs,
        entry out l (c, afs) <->
        exists cd pg,
          In (l, cd) t /\ In (c, (pg, afs)) cd /\
          geb pg miss_tolerance = true /\
          exists m, py_max (values afs) = Ok m /\
                    geb m (sub one error_tolerance) = true
  | Raise e =>
      e = ValueError /\
      exists l cd c pg,
        In (l, cd) t /\ In (c, (pg, [])) cd /\ geb pg miss_tolerance = true
  end.
Proof.
  unfold identify_fixed_alleles.
  pose proof (identify_fixed_loop miss_tolerance error_tolerance t []) as L.
  destruct (for_each (record_fixed_at _ _) t []) as [out|e].
  - destruct L as (L1 & L2 & _). split; [apply L2; constructor|].
    intros l c afs. rewrite L1. split.
    + intros [(xs & E & _) | (cd & c' & [pg afs'] & I & J & B & E)];
        [discriminate|].
      inversion E; subst; simpl in *. apply is_fixed_true in B.
      exists cd, pg; auto.
    + intros (cd & pg & I & J & G & M). right.
      exists cd, c, (pg, afs). repeat split; auto.
      apply is_fixed_true; auto.
  - destruct L as (l & cd & c & [pg afs] & I & J & B).
    apply is_fixed_raise in B. destruct B as (-> & G & ->).
    split; [reflexivity|]. exists l, cd, c, pg; auto.
Qed.


(** The entries of a fixed-allele map have at least one allele. *)
Lemma identify_fixed_alleles_entries (t : table)
    (miss_tolerance error_tolerance : float) (out : fixed_map) :
  identify_fixed_alleles t miss_tolerance error_tolerance = Ok out ->
  wf out /\
  forall l cd c afs, In (l, cd) out -> In (c, afs) cd -> afs <> [].
Proof.
  intros E.
  pose proof (identify_fixed_alleles_cases t miss_tolerance error_tolerance) as C.
  rewrite E in C. destruct C as [W C]. split; [exact W|].
  intros l cd c afs I J.
  assert (En : entry out l (c, afs)).
  { exists cd. split; [apply In_get; assumption | exact J]. }
  apply C in En. destruct En as (_ & _ & _ & _ & _ & m & M & _).
  intros ->. discriminate.
Qed.

(* ================================================================= *)
(** ** Loops that assign [d[k] = w] for some of the items of a dict *)

Section CollectFacts.
Context {K V W : Type} `{KeyOk K}.
Variable f : K -> V -> option W.

Lemma get_collect (d : dict K V) : wf d -> forall acc k,
  get k (fold_left (collect f) d acc) =
  match get k d with
  | Some v => match f k v with Some w => Some w | None => get k acc end
  | None => get k acc
  end.
Proof.
  unfold wf. induction d as [|[k0 v0] d IH]; simpl; intros W0 acc k.
  - reflexivity.
  - inversion W0 as [|? ? N W1]; subst. rewrite (IH W1).
    assert (G : get k (collect f acc (k0, v0)) =
                if key_eqb k k0
                then match f k0 v0 with Some w => Some w | None => get k acc end
                else get k acc).
    { unfold collect; simpl. destruct (f k0 v0); [rewrite get_set|];
        destruct (key_eqb k k0); reflexivity. }
    rewrite G. destruct (key_eqb_case k k0) as [[-> ->] | [_ ->]].
    + apply get_None in N. rewrite N. reflexivity.
    + destruct (get k d) as [v|]; [destruct (f k v)|]; reflexivity.
Qed.

Lemma values_collect (d : dict K V) : forall acc w,
  In w (values (fold_left (collect f) d acc)) ->
  In w (values acc) \/ exists k v, In (k, v) d /\ f k v = Some w.
Proof.
  induction d as [|[k0 v0] d IH]; simpl; intros acc w I; [auto|].
  apply IH in I. destruct I as [I | (k & v & I & E)].
  - unfold collect in I; simpl in I. destruct (f k0 v0) as [w0|] eqn:E; [|auto].
    clear IH. induction acc as [|[k1 w1] acc IHa]; simpl in I.
    + destruct I as [<- | []]. right. exists k0, v0; auto.
    + destruct (key_eqb k0 k1); simpl in I.
      * destruct I as [<- | I]; [right; exists k0, v0; auto | left; simpl; auto].
      * destruct I as [<- | I]; [left; simpl; auto|].
        destruct (IHa I) as [A | A]; [left; simpl; auto | right; exact A].
  - right. exists k, v; auto.
Qed.
End CollectFacts.

Lemma fold_left_ext {A B : Type} (f g : A -> B -> A) (xs : list B) :
  (forall a x, In x xs -> f a x = g a x) ->
  forall a, fold_left f xs a = fold_left g xs a.
Proof.
  induction xs as [|x xs IH]; simpl; intros E a; [reflexivity|].
  rewrite E by auto. apply IH. intros; apply E; auto.
Qed.

(* ================================================================= *)
(** ** identify_private_alleles *)

Section Private.
Variable error_tolerance : float.

Lemma private_alleles_at_pos_collect cd :
  private_alleles_at_pos error_tolerance cd =
  fold_left (collect (private_of error_tolerance cd)) cd [].
Proof.
  unfold private_alleles_at_pos. apply fold_left_ext.
  intros acc [c r] _. unfold record_private, collect, private_of; simpl.
  destruct (private_alleles_set error_tolerance c r cd); reflexivity.
Qed.

Lemma identify_private_alleles_collect t :
  identify_private_alleles t error_tolerance =
  fold_left (collect (private_at error_tolerance)) t [].
Proof.
  unfold identify_private_alleles. apply fold_left_ext.
  intros acc [l cd] _. unfold record_private_at, collect, private_at; simpl.
  destruct (existsb missing_or_nan (values cd)); [reflexivity|].
  destruct (private_alleles_at_pos error_tolerance cd); reflexivity.
Qed.

Lemma private_of_nonempty cd c r ps : private_of error_tolerance cd c r = Some ps -> ps <> [].
Proof.
  unfold private_of.
  destruct (private_alleles_set error_tolerance c r cd); [discriminate|].
  intros E; inversion E; discriminate.
Qed.

Lemma private_at_some l cd at_pos :
  private_at error_tolerance l cd = Some at_pos <->
  existsb missing_or_nan (values cd) = false /\
  at_pos = private_alleles_at_pos error_tolerance cd /\ at_pos <> [].
Proof.
  unfold private_at.
  destruct (existsb missing_or_nan (values cd));
    [split; [discriminate | intros [? _]; discriminate]|].
  destruct (private_alleles_at_pos error_tolerance cd) as [|p ps].
  - split; [discriminate | intros (_ & -> & N); congruence].
  - split; [intros E; inversion E; repeat split; discriminate|].
    intros (_ & -> & _); reflexivity.
Qed.

(** Membership in [other_clades_alleles]. *)
Lemma In_other_clades_alleles c (cd : clade_data) a :
  In a (other_clades_alleles error_tolerance c cd) <->
  exists c' pg afs f,
    In (c', (pg, afs)) cd /\ c' <> c /\ In (a, f) afs /\
    gtb f error_tolerance = true.
Proof.
  unfold other_clades_alleles. rewrite in_flat_map. split.
  - intros ([c' [pg afs]] & I & J). cbn [fst snd] in J.
    destruct (key_eqb_case c' c) as [[-> E] | [N E]]; rewrite E in J;
      simpl in J; [contradiction|].
    unfold keys, above in J. apply in_map_iff in J.
    destruct J as ([a' f] & <- & J). apply filter_In in J.
    exists c', pg, afs, f; simpl in *; tauto.
  - intros (c' & pg & afs & f & I & N & J & G).
    exists (c', (pg, afs)); split; [exact I|]; cbn [fst snd].
    apply key_eqb_neq in N. rewrite N; simpl.
    unfold keys, above. apply in_map_iff. exists (a, f); split; [reflexivity|].
    apply filter_In; auto.
Qed.

Lemma existsb_eqb_In (a : string) (xs : list string) :
  existsb (String.eqb a) xs = true <-> In a xs.
Proof.
  rewrite existsb_exists. split.
  - intros (x & I & E). apply String.eqb_eq in E. subst; exact I.
  - intros I. exists a; split; [exact I | apply String.eqb_refl].
Qed.

Lemma wf_filter {V : Type} (p : string * V -> bool) (d : dict string V) :
  wf d -> wf (filter p d).
Proof.
  unfold wf, keys. induction d as [|[k v] d IH]; simpl; intros W; [constructor|].
  inversion W as [|? ? N W']; subst. destruct (p (k, v)); simpl; auto.
  constructor; auto. intros I. apply N. apply in_map_iff in I.
  destruct I as (x & E & I). apply filter_In in I. apply in_map_iff.
  exists x; tauto.
Qed.

(** The alleles [private_alleles_set] reports for a clade. *)
Lemma get_private_alleles_set c pg afs (cd : clade_data) a i :
  wf afs ->
  get a (private_alleles_set error_tolerance c (pg, afs) cd) = Some i <->
  get a afs = Some (freq i) /\ perc_genotyped i = pg /\
  gtb (freq i) error_tolerance = true /\
  ~ In a (other_clades_alleles error_tolerance c cd).
Proof.
  intros W. unfold private_alleles_set; simpl.
  set (p := fun it : allele * float =>
              negb (existsb (String.eqb (fst it))
                      (other_clades_alleles error_tolerance c cd))).
  set (g := fun it : allele * float =>
              (fst it, {| freq := snd it; perc_genotyped := pg |})).
  assert (Wm : wf (map g (filter p (above error_tolerance afs)))).
  { unfold wf, keys. rewrite map_map. simpl.
    apply (wf_filter p (wf_filter _ W)). }
  change (get a (map g (filter p (above error_tolerance afs))) = Some i <->
          get a afs = Some (freq i) /\ perc_genotyped i = pg /\
          gtb (freq i) error_tolerance = true /\
          ~ In a (other_clades_alleles error_tolerance c cd)).
  rewrite (get_iff_In _ _ Wm), (get_iff_In _ _ W), in_map_iff. split.
  - intros ([a' f] & E & I). unfold g in E; simpl in E. inversion E; subst; simpl.
    apply filter_In in I. destruct I as [I P]. unfold above in I.
    apply filter_In in I. destruct I as [I G]. simpl in *.
    repeat split; auto. unfold p in P; simpl in P.
    apply negb_true_iff in P. rewrite <- existsb_eqb_In. congruence.
  - intros (I & <- & G & N). exists (a, freq i); split.
    + unfold g; simpl. destruct i; reflexivity.
    + apply filter_In; split.
      * unfold above. apply filter_In; auto.
      * unfold p; simpl. apply negb_true_iff.
        destruct (existsb (String.eqb a) _) eqn:E; [|reflexivity].
        apply existsb_eqb_In in E. contradiction.
Qed.

End Private.

Lemma missing_or_nan_false (cd : clade_data) :
  existsb missing_or_nan (values cd) = false <-> all_genotyped_no_nan cd.
Proof.
  unfold all_genotyped_no_nan. split.
  - intros E c pg afs I.
    assert (M : missing_or_nan (pg, afs) = false).
    { destruct (missing_or_nan (pg, afs)) eqn:M; [|reflexivity].
      rewrite <- E. symmetry. apply existsb_exists. exists (pg, afs); split; [|exact M].
      unfold values. apply in_map_iff. exists (c, (pg, afs)); auto. }
    unfold missing_or_nan in M; simpl in M. apply orb_false_iff in M.
    destruct M as [M1 M2]. split; [exact M1|]. intros f J.
    destruct (isnan f) eqn:N; [|reflexivity]. rewrite <- M2. symmetry.
    apply existsb_exists. exists f; auto.
  - intros A. destruct (existsb missing_or_nan (values cd)) eqn:E; [|reflexivity].
    apply existsb_exists in E. destruct E as ([pg afs] & I & M).
    unfold values in I. apply in_map_iff in I. destruct I as ([c r] & E & I).
    simpl in E; subst r. destruct (A c pg afs I) as [A1 A2].
    unfold missing_or_nan in M; simpl in M. rewrite A1 in M; simpl in M.
    apply existsb_exists in M. destruct M as (f & J & N).
    rewrite (A2 f J) in N. discriminate.
Qed.

Lemma get_some_nonempty {K V : Type} `{Key K} (d : dict K V) k v :
  get k d = Some v -> d <> [].
Proof. destruct d; [discriminate | discriminate]. Qed.

(** C2. A locus at which some clade has [perc_genotyped == 0] or a NaN
    frequency is absent from the output of [identify_private_alleles].  The
    output reports allele [a] as private to clade [c] at locus [l], with
    frequency and genotyped fraction [i], if and only if no clade of [l]
    has [perc_genotyped == 0] or a NaN frequency, [i] holds the frequency
    of [a] in [c] and the genotyped fraction of [c], that frequency is
    [> error_tolerance], and no other clade of [l] has [a] with a frequency
    [> error_tolerance]. *)
Theorem identify_private_alleles_spec (t : table) (error_tolerance : float) :
  wf_table t ->
  (forall l cd c pg afs,
     get l t = Some cd -> In (c, (pg, afs)) cd ->
     eqb pg zero = true \/ (exists f, In f (values afs) /\ isnan f = true) ->
     get l (identify_private_alleles t error_tolerance) = None) /\
  (forall l c a i,
     reported (identify_private_alleles t error_tolerance) l c a i <->
     exists cd pg afs,
       get l t = Some cd /\ all_genotyped_no_nan cd /\
       get c cd = Some (pg, afs) /\
       get a afs = Some (freq i) /\ perc_genotyped i = pg /\
       gtb (freq i) error_tolerance = true /\
       forall c' pg' afs' f',
         c' <> c -> get c' cd = Some (pg', afs') -> get a afs' = Some f' ->
         gtb f' error_tolerance = false).
Proof.
  intros [Wt Wcd]. rewrite identify_private_alleles_collect.
  assert (G : forall l,
             get l (fold_left (collect (private_at error_tolerance)) t []) =
             match get l t with
             | Some cd => private_at error_tolerance l cd
             | None => None
             end).
  { intros l. rewrite (get_collect _ Wt). simpl.
    destruct (get l t) as [cd|]; [|reflexivity].
    destruct (private_at error_tolerance l cd); reflexivity. }
  split.
  - intros l cd c pg afs Gl I Bad. rewrite G, Gl.
    destruct (private_at error_tolerance l cd) as [at_pos|] eqn:P; [|reflexivity].
    apply private_at_some in P. destruct P as (C & _).
    apply missing_or_nan_false in C. destruct (C c pg afs I) as [C1 C2].
    destruct Bad as [B | (f & J & N)]; [congruence|].
    rewrite (C2 f J) in N. discriminate.
  - intros l c a i. unfold reported. split.
    + intros (at_pos & ps & Gl & Gc & Ga). rewrite G in Gl.
      destruct (get l t) as [cd|] eqn:Gt; [|discriminate].
      apply private_at_some in Gl. destruct Gl as (C & -> & _).
      apply missing_or_nan_false in C.
      destruct (Wcd l cd (get_In _ _ Gt)) as [Wc Wa].
      rewrite private_alleles_at_pos_collect, (get_collect _ Wc) in Gc.
      simpl in Gc. destruct (get c cd) as [[pg afs]|] eqn:Gcd; [|discriminate].
      assert (P : private_of error_tolerance cd c (pg, afs) = Some ps)
        by (destruct (private_of error_tolerance cd c (pg, afs)); congruence).
      unfold private_of in P.
      assert (E : ps = private_alleles_set error_tolerance c (pg, afs) cd).
      { destruct (private_alleles_set error_tolerance c (pg, afs) cd);
          [discriminate | congruence]. }
      subst ps. clear P Gc.
      pose proof (Wa c pg afs (get_In _ _ Gcd)) as Wafs.
      apply (@get_private_alleles_set error_tolerance c pg afs cd a i Wafs) in Ga.
      destruct Ga as (Ga & Ep & Gf & Not).
      exists cd, pg, afs.
      split; [reflexivity|]. split; [exact C|]. split; [exact Gcd|].
      split; [exact Ga|]. split; [exact Ep|]. split; [exact Gf|].
      intros c' pg' afs' f' N Gc' Ga'.
      destruct (gtb f' error_tolerance) eqn:Gt'; [|reflexivity].
      exfalso; apply Not. apply In_other_clades_alleles.
      exists c', pg', afs', f'.
      split; [apply get_In; exact Gc'|]. split; [exact N|].
      split; [apply get_In; exact Ga' | exact Gt'].
    + intros (cd & pg & afs & Gt & C & Gc & Ga & Ep & Gf & Others).
      destruct (Wcd l cd (get_In _ _ Gt)) as [Wc Wa].
      pose proof (Wa c pg afs (get_In _ _ Gc)) as Wafs.
      assert (Gs : get a (private_alleles_set error_tolerance c (pg, afs) cd)
                   = Some i).
      { apply (@get_private_alleles_set error_tolerance c pg afs cd a i Wafs).
        split; [exact Ga|]. split; [exact Ep|]. split; [exact Gf|].
        intros I. apply In_other_clades_alleles in I.
        destruct I as (c' & pg' & afs' & f' & I & N & J & Gf').
        rewrite (Others c' pg' afs' f' N) in Gf'; [discriminate| |].
        - apply In_get; assumption.
        - apply In_get; [exact (proj2 (Wcd l cd (get_In _ _ Gt)) c' pg' afs' I)
                        | exact J]. }
      assert (Gp : get c (private_alleles_at_pos error_tolerance cd) =
                   Some (private_alleles_set error_tolerance c (pg, afs) cd)).
      { rewrite private_alleles_at_pos_collect, (get_collect _ Wc), Gc. simpl.
        unfold private_of.
        destruct (private_alleles_set error_tolerance c (pg, afs) cd) eqn:E;
          [discriminate | reflexivity]. }
      exists (private_alleles_at_pos error_tolerance cd),
             (private_alleles_set error_tolerance c (pg, afs) cd).
      split; [|split; [exact Gp | exact Gs]].
      rewrite G, Gt. apply private_at_some.
      split; [apply missing_or_nan_false; exact C|].
      split; [reflexivity | eapply get_some_nonempty; exact Gp].
Qed.

(** C10. Every locus of the output of [identify_fixed_alleles] has a
    non-empty list of entries; every locus of the output of
    [identify_private_alleles] has a non-empty dict of clades, each with a
    non-empty dict of alleles. *)
Theorem classifier_outputs_nonempty (t : table)
    (miss_tolerance error_tolerance : float) :
  (forall out l es,
     identify_fixed_alleles t miss_tolerance error_tolerance = Ok out ->
     In (l, es) out -> es <> []) /\
  (forall l at_pos,
     In (l, at_pos) (identify_private_alleles t error_tolerance) ->
     at_pos <> [] /\ forall c ps, In (c, ps) at_pos -> ps <> []).
Proof.
  split.
  - intros out l es E I. unfold identify_fixed_alleles in E.
    pose proof (identify_fixed_loop miss_tolerance error_tolerance t []) as L.
    rewrite E in L. destruct L as (_ & _ & L).
    specialize (L (Forall_nil _)). rewrite Forall_forall in L.
    exact (L (l, es) I).
  - intros l at_pos I. rewrite identify_private_alleles_collect in I.
    assert (J : In at_pos (values (fold_left (collect (private_at error_tolerance)) t []))).
    { unfold values. apply in_map_iff. exists (l, at_pos); auto. }
    apply values_collect in J. destruct J as [[] | (l' & cd & _ & P)].
    apply private_at_some in P. destruct P as (_ & -> & N). split; [exact N|].
    intros c ps Ic. rewrite private_alleles_at_pos_collect in Ic.
    assert (J : In ps (values (fold_left (collect (private_of error_tolerance cd)) cd []))).
    { unfold values. apply in_map_iff. exists (c, ps); auto. }
    apply values_collect in J. destruct J as [[] | (c' & r & _ & P)].
    exact (private_of_nonempty _ _ _ _ P).
Qed.

(* ================================================================= *)
(** ** find_private_sites *)

Lemma find_private_sites_collect (t : table) : forall ps ums,
  fold_left record_sites t (ps, ums) =
  (fold_left (collect private_site_of) t ps,
   fold_left (collect uniquely_missing_of) t ums).
Proof.
  induction t as [|[l cd] t IH]; intros ps ums; simpl; [reflexivity|].
  rewrite IH. f_equal.
  - f_equal. unfold collect, private_site_of; simpl.
    destruct (genotyped_clades cd) as [|first [|second rest]]; try reflexivity.
    destruct (Nat.ltb 0 (List.length (missing_clades cd))); reflexivity.
  - f_equal. unfold collect, uniquely_missing_of; simpl.
    destruct (Nat.ltb 1 (List.length (genotyped_clades cd))
              && Nat.eqb (List.length (missing_clades cd)) 1)%bool; reflexivity.
Qed.

Lemma In_genotyped_clades (cd : clade_data) c pg :
  In (c, pg) (genotyped_clades cd) <->
  exists afs, In (c, (pg, afs)) cd /\ gtb pg zero = true.
Proof.
  unfold genotyped_clades. rewrite in_map_iff. split.
  - intros ([c' [pg' afs]] & E & I). simpl in E. inversion E; subst.
    apply filter_In in I. exists afs. exact I.
  - intros (afs & I & G). exists (c, (pg, afs)). split; [reflexivity|].
    apply filter_In; auto.
Qed.

Lemma In_missing_clades (cd : clade_data) c :
  In c (missing_clades cd) <->
  exists pg afs, In (c, (pg, afs)) cd /\ eqb pg zero = true.
Proof.
  unfold missing_clades. rewrite in_map_iff. split.
  - intros ([c' [pg afs]] & E & I). simpl in E; subst.
    apply filter_In in I. exists pg, afs. exact I.
  - intros (pg & afs & I & G). exists (c, (pg, afs)). split; [reflexivity|].
    apply filter_In; auto.
Qed.

(** C6. [find_private_sites] records a locus as a private site, with the
    name and genotyped fraction of a clade, if and only if exactly one
    clade of the locus is genotyped ([perc_genotyped > 0]), it is that
    clade, and at least one clade is missing ([perc_genotyped == 0]).  It
    records a locus as uniquely missing, with the dict of the genotyped
    clades and their genotyped fractions, if and only if more than one
    clade is genotyped and exactly one is missing.  No locus is in both
    outputs. *)
Theorem find_private_sites_spec (t : table) :
  wf_table t ->
  let private_sites := fst (find_private_sites t) in
  let uniquely_missing_sites := snd (find_private_sites t) in
  (forall l c pg,
     get l private_sites = Some (c, pg) <->
     exists cd,
       get l t = Some cd /\
       List.length (genotyped_clades cd) = 1%nat /\
       (List.length (missing_clades cd) >= 1)%nat /\
       In (c, pg) (genotyped_clades cd)) /\
  (forall l g,
     get l uniquely_missing_sites = Some g <->
     exists cd,
       get l t = Some cd /\
       (List.length (genotyped_clades cd) > 1)%nat /\
       List.length (missing_clades cd) = 1%nat /\
       g = genotyped_clades cd) /\
  (forall l, get l private_sites = None \/ get l uniquely_missing_sites = None) /\
  (forall cd c pg,
     In (c, pg) (genotyped_clades cd) <->
     exists afs, In (c, (pg, afs)) cd /\ gtb pg zero = true) /\
  (forall cd c,
     In c (missing_clades cd) <->
     exists pg afs, In (c, (pg, afs)) cd /\ eqb pg zero = true).
Proof.
  intros [Wt _]. unfold find_private_sites.
  rewrite find_private_sites_collect. cbn [fst snd].
  assert (P : forall l,
             get l (fold_left (collect private_site_of) t []) =
             match get l t with Some cd => private_site_of l cd | None => None end).
  { intros l. rewrite (get_collect _ Wt). simpl.
    destruct (get l t) as [cd|]; [|reflexivity].
    destruct (private_site_of l cd); reflexivity. }
  assert (U : forall l,
             get l (fold_left (collect uniquely_missing_of) t []) =
             match get l t with Some cd => uniquely_missing_of l cd | None => None end).
  { intros l. rewrite (get_collect _ Wt). simpl.
    destruct (get l t) as [cd|]; [|reflexivity].
    destruct (uniquely_missing_of l cd); reflexivity. }
  split; [|split; [|split; [|split]]].
  - intros l c pg. rewrite P. split.
    + destruct (get l t) as [cd|]; [|discriminate].
      unfold private_site_of.
      destruct (genotyped_clades cd) as [|first [|second rest]] eqn:G;
        try discriminate.
      destruct (Nat.ltb 0 (List.length (missing_clades cd))) eqn:M;
        [|discriminate].
      intros E; inversion E; subst. exists cd. rewrite G.
      apply Nat.ltb_lt in M. simpl. repeat split; auto.
    + intros (cd & -> & G & M & I). unfold private_site_of.
      destruct (genotyped_clades cd) as [|first [|second rest]];
        try discriminate.
      destruct I as [-> | []].
      assert (M' : Nat.ltb 0 (List.length (missing_clades cd)) = true)
        by (apply Nat.ltb_lt; lia).
      rewrite M'. reflexivity.
  - intros l g. rewrite U. split.
    + destruct (get l t) as [cd|]; [|discriminate].
      unfold uniquely_missing_of.
      destruct (Nat.ltb 1 (List.length (genotyped_clades cd))) eqn:G;
        [|discriminate].
      destruct (Nat.eqb (List.length (missing_clades cd)) 1) eqn:M;
        [|discriminate].
      simpl. intros E; inversion E; subst. exists cd.
      apply Nat.ltb_lt in G. apply Nat.eqb_eq in M. repeat split; auto.
    + intros (cd & -> & G & M & ->). unfold uniquely_missing_of.
      apply Nat.ltb_lt in G. apply Nat.eqb_eq in M. rewrite G, M. reflexivity.
  - intros l. rewrite P, U. destruct (get l t) as [cd|]; [|auto].
    unfold private_site_of, uniquely_missing_of.
    destruct (genotyped_clades cd) as [|first [|second rest]]; simpl; auto.
  - apply In_genotyped_clades.
  - apply In_missing_clades.
Qed.

(* ================================================================= *)
(** ** compute_divergence_scores *)

Lemma gather_spec (clade_freqs : list clade_record) :
  gather clade_freqs =
  (flat_map (fun r => keys (snd r)) clade_freqs,
   fold_left add (map fst clade_freqs) zero).
Proof.
  unfold gather.
  enough (G : forall ins tot,
             fold_left
               (fun '(inserted, total_genotyped) '(pg, afs) =>
                  (inserted ++ keys afs, add total_genotyped pg))
               clade_freqs (ins, tot) =
             (ins ++ flat_map (fun r => keys (snd r)) clade_freqs,
              fold_left add (map fst clade_freqs) tot))
    by (rewrite G; reflexivity).
  induction clade_freqs as [|[pg afs] rs IH]; intros ins tot; simpl.
  - rewrite app_nil_r. reflexivity.
  - rewrite IH, <- app_assoc. reflexivity.
Qed.

Lemma freq_in_get_default a r : get_default a (snd r) zero = freq_in a r.
Proof. reflexivity. Qed.

Lemma spread_ok (r : clade_record) (rs : list clade_record) (a : allele) :
  exists d, spread (r :: rs) a = Ok d.
Proof. unfold spread; simpl. eexists; reflexivity. Qed.

Lemma max_diff_of_spec (r : clade_record) (rs : list clade_record)
    (alleles : list allele) : forall acc,
  exists spreads,
    Forall2 (fun a d => spread (r :: rs) a = Ok d) alleles spreads /\
    for_each
      (fun max_diff a =>
         let freqs := map (fun r => get_default a (snd r) zero) (r :: rs) in
         hi <- py_max freqs ;;
         lo <- py_min freqs ;;
         Ok (add max_diff (sub hi lo)))
      alleles acc = Ok (fold_left add spreads acc).
Proof.
  induction alleles as [|a als IH]; intros acc.
  - exists []. split; [constructor | reflexivity].
  - destruct (spread_ok r rs a) as [d D].
    destruct (IH (add acc d)) as (ds & F & E).
    exists (d :: ds). split; [constructor; assumption|].
    cbn [for_each fold_left]. unfold spread in D.
    change (map (fun r0 => get_default a (snd r0) zero) (r :: rs))
      with (map (freq_in a) (r :: rs)).
    cbv zeta.
    destruct (py_max (map (freq_in a) (r :: rs))) as [hi|]; [|discriminate].
    destruct (py_min (map (freq_in a) (r :: rs))) as [lo|]; [|discriminate].
    simpl in D. inversion D; subst. simpl. exact E.
Qed.

Section Divergence.
Variable set_iter : list allele -> list allele.

Lemma max_diff_of_sum (cd : clade_data) :
  (List.length cd >= 1)%nat ->
  exists score,
    max_diff_of (values cd) (alleles_seen set_iter (values cd)) = Ok score /\
    sum_of_spreads (values cd) (alleles_seen set_iter (values cd)) score.
Proof.
  intros L. destruct cd as [|[c r] cd]; [simpl in L; lia|].
  destruct (max_diff_of_spec r (values cd)
              (alleles_seen set_iter (values ((c, r) :: cd))) zero)
    as (ds & F & E).
  exists (fold_left add ds zero). split.
  - exact E.
  - exists ds. split; [exact F | reflexivity].
Qed.

Lemma record_divergence_collect (acc : divergence_map) (it : locus * clade_data) :
  record_divergence set_iter acc it = Ok (collect (divergence_of set_iter) acc it).
Proof.
  destruct it as [l cd]. unfold record_divergence, collect, divergence_of.
  cbn [fst snd]. unfold values at 1 2. rewrite !length_map.
  destruct (Nat.ltb (List.length cd) 2) eqn:L; [reflexivity|].
  apply Nat.ltb_ge in L. rewrite gather_spec.
  destruct (max_diff_of_sum cd) as (score & E & _); [lia|].
  unfold alleles_seen, mean_genotyped, values in E |- *.
  rewrite E, !length_map. reflexivity.
Qed.

Lemma compute_divergence_scores_collect (t : table) : forall acc,
  for_each (record_divergence set_iter) t acc =
  Ok (fold_left (collect (divergence_of set_iter)) t acc).
Proof.
  induction t as [|it t IH]; intros acc; simpl; [reflexivity|].
  rewrite record_divergence_collect. simpl. apply IH.
Qed.

Lemma divergence_of_some l cd score avg :
  divergence_of set_iter l cd = Some (score, avg) <->
  (List.length cd >= 2)%nat /\
  sum_of_spreads (values cd) (alleles_seen set_iter (values cd)) score /\
  avg = mean_genotyped (values cd).
Proof.
  unfold divergence_of. destruct (Nat.ltb (List.length cd) 2) eqn:L.
  - apply Nat.ltb_lt in L. split; [discriminate | intros [? _]; lia].
  - apply Nat.ltb_ge in L.
    destruct (max_diff_of_sum cd) as (s & E & S); [lia|]. rewrite E.
    split.
    + intros Q; inversion Q; subst. auto.
    + intros (_ & (ds & F & ->) & ->). destruct S as (ds' & F' & ->).
      assert (ds = ds') as ->; [|reflexivity].
      clear - F F'. revert ds' F'.
      induction F as [|a d als ds D F IH]; intros ds' F';
        inversion F'; subst; [reflexivity|].
      f_equal; [congruence | auto].
Qed.

End Divergence.


(** A finite float minus itself is [0.0]. *)
Lemma sub_diag (x : float) : isfinite x = true -> sub x x = zero.
Proof.
  destruct x as [s|s| |s m e]; simpl; try discriminate; intros _.
  - destruct s; reflexivity.
  - unfold sub, SFsub. rewrite Z.sub_diag. reflexivity.
Qed.

Lemma freq_in_finite (a : allele) (r : clade_record) :
  (forall a' f, In (a', f) (snd r) -> isfinite f = true) ->
  isfinite (freq_in a r) = true.
Proof.
  intros F. unfold freq_in. destruct (get a (snd r)) as [f|] eqn:G.
  - apply get_In in G. exact (F a f G).
  - reflexivity.
Qed.

(** The spread of an allele across two clades that give it the same finite
    frequency. *)
Lemma spread_same (r1 r2 : clade_record) (a : allele) :
  freq_in a r1 = freq_in a r2 ->
  isfinite (freq_in a r1) = true ->
  spread [r1; r2] a = Ok zero.
Proof.
  intros E F. unfold spread; simpl. rewrite <- E.
  destruct (gtb (freq_in a r1) (freq_in a r1));
    destruct (ltb (freq_in a r1) (freq_in a r1));
    simpl; rewrite (sub_diag _ F); reflexivity.
Qed.

Lemma sum_of_zero_spreads (r1 r2 : clade_record) (alleles : list allele) score :
  (forall a, spread [r1; r2] a = Ok zero) ->
  sum_of_spreads [r1; r2] alleles score -> score = zero.
Proof.
  intros Z (ds & F & ->).
  assert (A : Forall (fun d => d = zero) ds).
  { clear - Z F. induction F as [|a d als ds D F IH]; constructor; [|exact IH].
    rewrite Z in D. congruence. }
  clear F. induction A as [|d ds -> A IH]; [reflexivity|].
  simpl. exact IH.
Qed.

(** C8, as amended.  At a locus with exactly two clades whose frequency
    dicts give every allele the same frequency, all frequencies finite
    (neither NaN nor an infinity), the divergence score is [0.0]. *)
Theorem divergence_identical_clades
    (set_iter : list allele -> list allele) (t : table) (l : locus)
    (c1 c2 : clade) (pg1 pg2 : float) (afs1 afs2 : allele_freqs) :
  wf t ->
  get l t = Some [(c1, (pg1, afs1)); (c2, (pg2, afs2))] ->
  (forall a, get a afs1 = get a afs2) ->
  (forall a f, In (a, f) afs1 -> isfinite f = true) ->
  exists out avg,
    compute_divergence_scores set_iter t = Ok out /\
    get l out = Some (zero, avg).
Proof.
  intros Wt G Same Fin. unfold compute_divergence_scores.
  rewrite compute_divergence_scores_collect.
  eexists; exists (mean_genotyped [(pg1, afs1); (pg2, afs2)]).
  split; [reflexivity|].
  rewrite (get_collect _ Wt), G. simpl.
  destruct (divergence_of set_iter l [(c1, (pg1, afs1)); (c2, (pg2, afs2))])
    as [[score avg]|] eqn:D.
  - apply divergence_of_some in D. destruct D as (_ & S & ->).
    simpl in S. apply sum_of_zero_spreads in S; [subst; reflexivity|].
    intros a. apply spread_same.
    + unfold freq_in; simpl. rewrite Same. reflexivity.
    + apply freq_in_finite. exact Fin.
  - exfalso. unfold divergence_of in D. simpl in D.
    destruct (max_diff_of_sum set_iter [(c1, (pg1, afs1)); (c2, (pg2, afs2))])
      as (s & E & _); [simpl; lia|].
    simpl in E. rewrite E in D. discriminate.
Qed.

(* ================================================================= *)
(** ** The order of floats *)

Module FloatOrder.

Lemma lex_compare_Lt a b : lex_compare a b = Lt <-> lt3 a b.
Proof.
  unfold lex_compare, lt3.
  destruct (Z.compare_spec (fst (fst a)) (fst (fst b)));
    destruct (Z.compare_spec (snd (fst a)) (snd (fst b)));
    destruct (Z.compare_spec (snd a) (snd b));
    split; intros; try discriminate; try reflexivity; lia.
Qed.

Lemma lex_compare_Gt a b : lex_compare a b = Gt <-> lt3 b a.
Proof.
  unfold lex_compare, lt3.
  destruct (Z.compare_spec (fst (fst a)) (fst (fst b)));
    destruct (Z.compare_spec (snd (fst a)) (snd (fst b)));
    destruct (Z.compare_spec (snd a) (snd b));
    split; intros; try discriminate; try reflexivity; lia.
Qed.

Lemma lex_compare_Eq a b : lex_compare a b = Eq <-> a = b.
Proof.
  destruct a as [[a1 a2] a3], b as [[b1 b2] b3]. unfold lex_compare; simpl.
  destruct (Z.compare_spec a1 b1); destruct (Z.compare_spec a2 b2);
    destruct (Z.compare_spec a3 b3);
    split; intros E; try discriminate; try reflexivity;
    try (inversion E; lia); subst; reflexivity.
Qed.

Lemma SFcompare_rank (x y : float) :
  isnan x = false -> isnan y = false ->
  SFcompare x y = Some (lex_compare (rank x) (rank y)).
Proof.
  destruct x as [sx|sx| |sx mx ex], y as [sy|sy| |sy my ey];
    simpl; try discriminate; intros _ _;
    try (destruct sx); try (destruct sy); try reflexivity;
    unfold lex_compare; simpl.
  rewrite Z.compare_opp, (Z.compare_antisym ex ey).
  destruct (ex ?= ey); reflexivity.
Qed.

Lemma ltb_nan_l x y : ltb x y = true -> isnan x = false.
Proof. destruct x; try reflexivity. discriminate. Qed.

Lemma ltb_nan_r x y : ltb x y = true -> isnan y = false.
Proof. destruct y; try reflexivity. destruct x; discriminate. Qed.

Lemma ltb_lt3 x y :
  ltb x y = true <->
  isnan x = false /\ isnan y = false /\ lt3 (rank x) (rank y).
Proof.
  split.
  - intros L. pose proof (ltb_nan_l _ _ L) as Nx.
    pose proof (ltb_nan_r _ _ L) as Ny. repeat split; auto.
    unfold ltb, SFltb in L. rewrite (SFcompare_rank _ _ Nx Ny) in L.
    apply lex_compare_Lt. destruct (lex_compare (rank x) (rank y));
      congruence.
  - intros (Nx & Ny & L). unfold ltb, SFltb.
    rewrite (SFcompare_rank _ _ Nx Ny).
    apply lex_compare_Lt in L. rewrite L. reflexivity.
Qed.

Lemma leb_lt3 x y :
  leb x y = true <->
  isnan x = false /\ isnan y = false /\ ~ lt3 (rank y) (rank x).
Proof.
  split.
  - intros L.
    assert (Nx : isnan x = false) by (destruct x; try reflexivity; discriminate).
    assert (Ny : isnan y = false)
      by (destruct y; try reflexivity; destruct x; discriminate).
    repeat split; auto.
    unfold leb, SFleb in L. rewrite (SFcompare_rank _ _ Nx Ny) in L.
    intros G. apply lex_compare_Gt in G. rewrite G in L. discriminate.
  - intros (Nx & Ny & L). unfold leb, SFleb.
    rewrite (SFcompare_rank _ _ Nx Ny).
    destruct (lex_compare (rank x) (rank y)) eqn:E; try reflexivity.
    exfalso; apply L. apply lex_compare_Gt. exact E.
Qed.

Lemma eqb_rank x y :
  eqb x y = true <-> isnan x = false /\ isnan y = false /\ rank x = rank y.
Proof.
  split.
  - intros L.
    assert (Nx : isnan x = false) by (destruct x; try reflexivity; discriminate).
    assert (Ny : isnan y = false)
      by (destruct y; try reflexivity; destruct x; discriminate).
    repeat split; auto.
    unfold eqb, SFeqb in L. rewrite (SFcompare_rank _ _ Nx Ny) in L.
    apply lex_compare_Eq. destruct (lex_compare (rank x) (rank y));
      congruence.
  - intros (Nx & Ny & L). unfold eqb, SFeqb.
    rewrite (SFcompare_rank _ _ Nx Ny).
    apply lex_compare_Eq in L. rewrite L. reflexivity.
Qed.

Ltac order :=
  repeat match goal with
         | H : ltb _ _ = true |- _ => apply ltb_lt3 in H; destruct H as (? & ? & H)
         | H : leb _ _ = true |- _ => apply leb_lt3 in H; destruct H as (? & ? & H)
         | H : eqb _ _ = true |- _ => apply eqb_rank in H; destruct H as (? & ? & H)
         end;
  unfold lt3 in *.

Lemma ltb_trans x y z : ltb x y = true -> ltb y z = true -> ltb x z = true.
Proof.
  intros A B. order. apply ltb_lt3. repeat split; auto. unfold lt3. lia.
Qed.

Lemma leb_ltb_trans x y z : leb x y = true -> ltb y z = true -> ltb x z = true.
Proof.
  intros A B. order. apply ltb_lt3. repeat split; auto. unfold lt3. lia.
Qed.

Lemma ltb_leb_trans x y z : ltb x y = true -> leb y z = true -> ltb x z = true.
Proof.
  intros A B. order. apply ltb_lt3. repeat split; auto. unfold lt3. lia.
Qed.

Lemma leb_trans x y z : leb x y = true -> leb y z = true -> leb x z = true.
Proof.
  intros A B. order. apply leb_lt3. repeat split; auto. unfold lt3. lia.
Qed.

Lemma ltb_leb x y : ltb x y = true -> leb x y = true.
Proof.
  intros A. order. apply leb_lt3. repeat split; auto. unfold lt3. lia.
Qed.

(** Floats that are not NaN are totally ordered. *)
Lemma not_ltb_leb x y :
  isnan x = false -> isnan y = false -> ltb x y = false -> leb y x = true.
Proof.
  intros Nx Ny L. apply leb_lt3. repeat split; auto.
  intros G. rewrite (proj2 (ltb_lt3 x y)) in L; [discriminate | auto].
Qed.

Lemma ltb_not_eqb x y k : ltb x y = true -> eqb x k = true -> eqb y k = false.
Proof.
  intros A B. destruct (eqb y k) eqn:C; [|reflexivity].
  order. rewrite B, C in A. lia.
Qed.

Lemma ltb_not_eqb_r x y k : ltb x y = true -> eqb y k = true -> eqb x k = false.
Proof.
  intros A B. destruct (eqb x k) eqn:C; [|reflexivity].
  order. rewrite B, C in A. lia.
Qed.

End FloatOrder.

(* ================================================================= *)
(** ** [max] and [min] of a list of floats *)

Lemma leb_refl (x : float) : isnan x = false -> leb x x = true.
Proof.
  intros N. apply FloatOrder.leb_lt3. split; [exact N|]. split; [exact N|].
  unfold lt3. lia.
Qed.

Lemma leb_not_nan (x y : float) :
  leb x y = true -> isnan x = false /\ isnan y = false.
Proof.
  intros L. apply FloatOrder.leb_lt3 in L. destruct L as (Nx & Ny & _). auto.
Qed.

Lemma fold_max_spec (rest : list float) : forall cur,
  isnan cur = false ->
  let m := fold_left (fun cur y => if gtb y cur then y else cur) rest cur in
  (m = cur \/ In m rest) /\ isnan m = false /\ leb cur m = true /\
  forall x, In x rest -> isnan x = false -> leb x m = true.
Proof.
  induction rest as [|y rest IH]; intros cur N; cbn [fold_left]; cbv zeta.
  - split; [left; reflexivity|]. split; [exact N|].
    split; [apply leb_refl; exact N | intros x []].
  - destruct (gtb y cur) eqn:G; unfold gtb in G.
    + pose proof (FloatOrder.ltb_nan_r _ _ G) as Ny.
      destruct (IH y Ny) as (I & Nm & L & A). cbv zeta in *.
      split; [destruct I as [-> | I]; right; [left; reflexivity | right; exact I]|].
      split; [exact Nm|]. split.
      * eapply FloatOrder.leb_trans; [apply FloatOrder.ltb_leb; exact G | exact L].
      * intros x [<- | J] Nx; [exact L | apply A; assumption].
    + destruct (IH cur N) as (I & Nm & L & A). cbv zeta in *.
      split; [destruct I as [-> | I]; [left; reflexivity | right; right; exact I]|].
      split; [exact Nm|]. split; [exact L|].
      intros x [<- | J] Nx; [|apply A; assumption].
      eapply FloatOrder.leb_trans; [|exact L].
      apply FloatOrder.not_ltb_leb; assumption.
Qed.

Lemma fold_max_nan (rest : list float) (cur : float) :
  isnan cur = true ->
  fold_left (fun cur y => if gtb y cur then y else cur) rest cur = cur.
Proof.
  intros N. induction rest as [|y rest IH]; cbn [fold_left]; [reflexivity|].
  destruct (gtb y cur) eqn:G; [|exact IH].
  unfold gtb in G. apply FloatOrder.ltb_nan_l in G. congruence.
Qed.


(** [max(xs)] of a list that does not begin with NaN is a greatest float
    of the list; a NaN at the head is returned as the maximum. *)
Lemma py_max_greatest (xs : list float) (m : float) :
  py_max xs = Ok m -> nan_first xs = false -> greatest xs m.
Proof.
  destruct xs as [|x rest]; [discriminate|]. cbn [py_max nan_first].
  intros E N. inversion E as [Em]; clear E.
  destruct (fold_max_spec rest x N) as (I & Nm & L & A). cbv zeta in *.
  split; [destruct I as [-> | I]; [left; reflexivity | right; exact I]|].
  split; [exact Nm|].
  intros y [<- | J] Ny; [exact L | apply A; assumption].
Qed.

Lemma py_max_nan_first (xs : list float) (m : float) :
  py_max xs = Ok m -> nan_first xs = true -> isnan m = true.
Proof.
  destruct xs as [|x rest]; [discriminate|]. cbn [py_max nan_first].
  intros E N. inversion E. rewrite fold_max_nan by exact N. exact N.
Qed.


(** The maximum of the frequencies is [>= k] exactly when some frequency
    is; [max] of a list that does not begin with NaN decides it. *)
Lemma py_max_geb (xs : list float) (k : float) :
  nan_first xs = false -> xs <> [] ->
  exists m,
    py_max xs = Ok m /\
    (geb m k = true <-> exists f, In f xs /\ geb f k = true).
Proof.
  intros N Ne. destruct (py_max xs) as [m|e] eqn:E;
    [|destruct xs; [destruct Ne; reflexivity | discriminate]].
  exists m. split; [reflexivity|].
  destruct (py_max_greatest _ E N) as (I & Nm & A). split.
  - intros G. exists m. auto.
  - intros (f & J & G). unfold geb in *.
    destruct (leb_not_nan _ _ G) as [_ Nf].
    eapply FloatOrder.leb_trans; [exact G | apply A; assumption].
Qed.

Lemma greatest_geb (xs : list float) (k : float) :
  nan_first xs = false ->
  (exists m, greatest xs m /\ geb m k = true) <->
  (exists f, In f xs /\ geb f k = true).
Proof.
  intros N. split.
  - intros (m & (I & _) & G). exists m. auto.
  - intros (f & J & G).
    assert (Ne : xs <> []) by (intros ->; destruct J).
    destruct (py_max_geb k N Ne) as (m & E & Q).
    exists m. split; [apply py_max_greatest; assumption|].
    apply Q. exists f. auto.
Qed.

(* ================================================================= *)
(** ** identify_fixed_alleles: the entries *)

(** C1, as amended.  On a table in which every clade record with
    [perc_genotyped >= miss_tolerance] has at least one allele,
    [identify_fixed_alleles] returns; its output has each locus once, and
    files the entry [(clade, allele_freqs)] under a locus if and only if
    the table has, at that locus, a record [(perc_genotyped, allele_freqs)]
    of that clade with [perc_genotyped >= miss_tolerance], whose first
    frequency is not NaN and whose maximum allele frequency, a frequency of
    the record that no frequency of it exceeds, is
    [>= 1.0 - error_tolerance]; the latter holds exactly when some allele
    frequency of the record is [>= 1.0 - error_tolerance].  The entry
    carries the whole frequency dict of the record. *)
Theorem identify_fixed_alleles_spec (t : table)
    (miss_tolerance error_tolerance : float) :
  (forall l cd c pg afs,
     In (l, cd) t -> In (c, (pg, afs)) cd ->
     geb pg miss_tolerance = true -> afs <> []) ->
  exists out,
    identify_fixed_alleles t miss_tolerance error_tolerance = Ok out /\
    wf out /\
    (forall l c afs,
       entry out l (c, afs) <->
       exists cd pg,
         In (l, cd) t /\ In (c, (pg, afs)) cd /\
         geb pg miss_tolerance = true /\
         nan_first (values afs) = false /\
         exists m, greatest (values afs) m /\
                   geb m (sub one error_tolerance) = true) /\
    (forall afs : allele_freqs,
       nan_first (values afs) = false ->
       ((exists m, greatest (values afs) m /\
                   geb m (sub one error_tolerance) = true) <->
        (exists f, In f (values afs) /\
                   geb f (sub one error_tolerance) = true))).
Proof.
  intros N.
  pose proof (identify_fixed_alleles_cases t miss_tolerance error_tolerance) as C.
  destruct (identify_fixed_alleles t miss_tolerance error_tolerance) as [out|e].
  - exists out. split; [reflexivity|]. destruct C as [W C].
    split; [exact W|]. split; [|intros afs; apply greatest_geb].
    intros l c afs. rewrite C. split.
    + intros (cd & pg & I & J & G & m & M & Gm).
      exists cd, pg. split; [exact I|]. split; [exact J|]. split; [exact G|].
      assert (Nf : nan_first (values afs) = false).
      { destruct (nan_first (values afs)) eqn:F; [|reflexivity].
        pose proof (py_max_nan_first _ M F) as Nm. unfold geb in Gm.
        destruct (leb_not_nan _ _ Gm) as [_ Nm']. congruence. }
      split; [exact Nf|]. exists m. split; [|exact Gm].
      apply py_max_greatest; assumption.
    + intros (cd & pg & I & J & G & Nf & m & M & Gm).
      exists cd, pg. split; [exact I|]. split; [exact J|]. split; [exact G|].
      assert (Ne : values afs <> []).
      { destruct M as [Im _]. intros Q. rewrite Q in Im. destruct Im. }
      destruct (py_max_geb (sub one error_tolerance) Nf Ne) as (m' & E & Q).
      exists m'. split; [exact E|]. apply Q. exists m.
      split; [exact (proj1 M) | exact Gm].
  - destruct C as (_ & l & cd & c & pg & I & J & G).
    exfalso. exact (N l cd c pg [] I J G eq_refl).
Qed.

(* ================================================================= *)
(** ** compute_divergence_scores: the entries *)






(* ================================================================= *)
(** ** find_unique_fixed_alleles *)

Section CollectRFacts.
Context {K V W : Type} `{KeyOk K}.
Variable f : K -> V -> result (option W).

Lemma for_each_collect_r (d : dict K V) : forall acc,
  match for_each (collect_r f) d acc with
  | Ok out =>
      out = fold_left (collect (chosen f)) d acc /\
      forall k v, In (k, v) d -> exists o, f k v = Ok o
  | Raise e => exists k v, In (k, v) d /\ f k v = Raise e
  end.
Proof.
  induction d as [|[k v] d IH]; intros acc; simpl.
  - split; [reflexivity | intros ? ? []].
  - unfold collect_r at 1; simpl. destruct (f k v) as [o|e] eqn:E; simpl.
    + specialize (IH (match o with Some w => set k w acc | None => acc end)).
      destruct (for_each (collect_r f) d _) as [out|e].
      * destruct IH as [-> A]. split.
        -- f_equal. unfold collect, chosen; simpl. rewrite E. reflexivity.
        -- intros k' v' [Q | I]; [inversion Q; subst; eauto | eauto].
      * destruct IH as (k' & v' & I & R). exists k', v'; auto.
    + exists k, v; auto.
Qed.
End CollectRFacts.

Lemma length_nodup_le (xs : list allele) :
  (List.length (nodup string_dec xs) <= List.length xs)%nat.
Proof.
  induction xs as [|x xs IH]; simpl; [lia|].
  destruct (in_dec string_dec x xs); simpl; lia.
Qed.

(** [len(set(xs)) == len(xs)] says that the elements of [xs] are pairwise
    distinct. *)
Lemma count_distinct_NoDup (xs : list allele) :
  count_distinct xs = List.length xs <-> NoDup xs.
Proof.
  unfold count_distinct. split.
  - induction xs as [|x xs IH]; simpl; intros E; [constructor|].
    destruct (in_dec string_dec x xs) as [I | N]; simpl in E.
    + pose proof (length_nodup_le xs). lia.
    + constructor; [exact N | apply IH; lia].
  - intros N. rewrite (nodup_fixed_point string_dec N). reflexivity.
Qed.

(** [max(afs, key=afs.get)] returns a key whose frequency is greater than
    every earlier frequency that is not NaN, and that no later frequency
    is greater than. *)
Lemma py_max_key_first (afs : allele_freqs) (a : allele) :
  py_max_key afs = Ok a ->
  exists before f after,
    afs = before ++ (a, f) :: after /\
    (forall x, In x before -> gtb f (snd x) = true \/ isnan (snd x) = true) /\
    (forall x, In x after -> gtb (snd x) f = false).
Proof.
  destruct afs as [|first rest]; simpl; [discriminate|].
  intros E. inversion E as [E']; clear E.
  set (step := fun cur it : allele * float =>
                 if gtb (snd it) (snd cur) then it else cur) in *.
  enough (G : forall rest before cur after,
             (forall x, In x before ->
                gtb (snd cur) (snd x) = true \/ isnan (snd x) = true) ->
             (forall x, In x after -> gtb (snd x) (snd cur) = false) ->
             exists before' after',
               before ++ cur :: after ++ rest =
               before' ++ fold_left step rest cur :: after' /\
               (forall x, In x before' ->
                  gtb (snd (fold_left step rest cur)) (snd x) = true \/
                  isnan (snd x) = true) /\
               (forall x, In x after' ->
                  gtb (snd x) (snd (fold_left step rest cur)) = false)).
  { destruct (G rest [] first []) as (b & a' & Q & B & A);
      [intros ? [] | intros ? [] |].
    simpl in Q. exists b, (snd (fold_left step rest first)), a'.
    rewrite E'. rewrite Q. split; [|split; assumption].
    f_equal. f_equal. rewrite <- E'. destruct (fold_left step rest first);
      reflexivity. }
  clear. induction rest as [|y rest IH]; intros before cur after B A.
  - exists before, after. rewrite app_nil_r. auto.
  - simpl. unfold step at 2 4 6. destruct (gtb (snd y) (snd cur)) eqn:Y.
    + destruct (IH (before ++ cur :: after) y []) as (b & a' & Q & B' & A').
      * intros x I. apply in_app_or in I. unfold gtb in *.
        destruct I as [I | [<- | I]].
        -- destruct (B x I) as [L | N]; [left | right; exact N].
           exact (FloatOrder.ltb_trans _ _ _ L Y).
        -- left; exact Y.
        -- destruct (isnan (snd x)) eqn:N; [right; reflexivity | left].
           apply FloatOrder.leb_ltb_trans with (y := snd cur); [|exact Y].
           apply FloatOrder.not_ltb_leb; [|exact N|exact (A x I)].
           exact (FloatOrder.ltb_nan_l _ _ Y).
      * intros ? [].
      * exists b, a'. split; [|split; assumption].
        rewrite <- Q. simpl. rewrite <- app_assoc. reflexivity.
    + destruct (IH before cur (after ++ [y])) as (b & a' & Q & B' & A').
      * exact B.
      * intros x I. apply in_app_or in I.
        destruct I as [I | [<- | []]]; [exact (A x I) | exact Y].
      * exists b, a'. split; [|split; assumption].
        rewrite <- Q. rewrite <- app_assoc. reflexivity.
Qed.

Lemma py_max_key_raise afs e :
  py_max_key afs = Raise e -> afs = [] /\ e = ValueError.
Proof. destruct afs; simpl; [intros E; inversion E; auto | discriminate]. Qed.

Lemma fixed_alleles_per_clade_collect (cd : list fixed_entry) :
  fixed_alleles_per_clade cd = for_each (collect_r fixed_allele_of) cd [].
Proof.
  unfold fixed_alleles_per_clade.
  enough (G : forall acc, for_each record_fixed_allele cd acc =
                          for_each (collect_r fixed_allele_of) cd acc)
    by apply G.
  induction cd as [|[c afs] cd IH]; intros acc; simpl; [reflexivity|].
  unfold collect_r at 1, fixed_allele_of; simpl.
  destruct (py_max_key afs); simpl; [apply IH | reflexivity].
Qed.

Lemma fixed_alleles_per_clade_raise cd e :
  fixed_alleles_per_clade cd = Raise e ->
  e = ValueError /\ exists c, In (c, []) cd.
Proof.
  rewrite fixed_alleles_per_clade_collect. intros E.
  pose proof (for_each_collect_r fixed_allele_of cd []) as L.
  rewrite E in L. destruct L as (c & afs & I & R).
  unfold fixed_allele_of in R.
  destruct (py_max_key afs) eqn:M; [discriminate|].
  inversion R; subst. apply py_max_key_raise in M. destruct M as [-> ->].
  split; [reflexivity | exists c; exact I].
Qed.

(** The fixed allele recorded for each clade. *)
Lemma fixed_alleles_per_clade_get cd per_clade :
  fixed_alleles_per_clade cd = Ok per_clade ->
  NoDup (keys cd) ->
  forall c a,
    get c per_clade = Some a <->
    exists afs, In (c, afs) cd /\ py_max_key afs = Ok a.
Proof.
  rewrite fixed_alleles_per_clade_collect. intros E N c a.
  pose proof (for_each_collect_r fixed_allele_of cd []) as L.
  rewrite E in L. destruct L as [-> A].
  rewrite (get_collect _ N). simpl. unfold chosen, fixed_allele_of.
  destruct (get c cd) as [afs|] eqn:G.
  - destruct (A c afs (get_In _ _ G)) as (o & O).
    unfold fixed_allele_of in O.
    destruct (py_max_key afs) as [a'|] eqn:M; [|discriminate]. simpl.
    split.
    + intros Q; inversion Q; subst. exists afs. split; [apply get_In|]; auto.
    + intros (afs' & I & M'). apply (In_get _ _ N) in I.
      rewrite G in I. inversion I; subst. congruence.
  - split; [discriminate|]. intros (afs & I & _).
    apply (In_get _ _ N) in I. congruence.
Qed.

Lemma record_unique_collect acc it :
  record_unique acc it = collect_r unique_of acc it.
Proof.
  destruct it as [l cd]. unfold record_unique, collect_r, unique_of; simpl.
  destruct (fixed_alleles_per_clade cd) as [pc|]; simpl; [|reflexivity].
  destruct (Nat.eqb (List.length cd) 1); simpl; [reflexivity|].
  destruct (Nat.eqb (count_distinct (values pc)) (List.length pc)); reflexivity.
Qed.

Lemma find_unique_fixed_alleles_collect fm :
  find_unique_fixed_alleles fm = for_each (collect_r unique_of) fm [].
Proof.
  unfold find_unique_fixed_alleles.
  enough (G : forall acc, for_each record_unique fm acc =
                          for_each (collect_r unique_of) fm acc) by apply G.
  induction fm as [|it fm IH]; intros acc; simpl; [reflexivity|].
  rewrite record_unique_collect.
  destruct (collect_r unique_of acc it); simpl; [apply IH | reflexivity].
Qed.

(** The test of lines 60-65. *)
Lemma unique_of_some l cd cd' :
  unique_of l cd = Ok (Some cd') <->
  cd' = cd /\
  exists per_clade,
    fixed_alleles_per_clade cd = Ok per_clade /\
    (List.length cd = 1%nat \/ NoDup (values per_clade)).
Proof.
  unfold unique_of.
  destruct (fixed_alleles_per_clade cd) as [pc|e]; simpl.
  - assert (L : List.length pc = List.length (values pc))
      by (unfold values; rewrite length_map; reflexivity).
    rewrite L. split.
    + destruct (Nat.eqb (List.length cd) 1) eqn:E1; simpl.
      * intros Q; inversion Q; subst. split; [reflexivity|].
        exists pc. split; [reflexivity|]. left. apply Nat.eqb_eq; exact E1.
      * destruct (Nat.eqb (count_distinct (values pc)) _) eqn:E2;
          [|discriminate].
        intros Q; inversion Q; subst. split; [reflexivity|].
        exists pc. split; [reflexivity|]. right.
        apply count_distinct_NoDup. apply Nat.eqb_eq; exact E2.
    + intros (-> & pc' & Q & D). inversion Q; subst pc'.
      destruct D as [D | D].
      * apply Nat.eqb_eq in D. rewrite D. reflexivity.
      * apply count_distinct_NoDup, Nat.eqb_eq in D. rewrite D.
        rewrite orb_true_r. reflexivity.
  - split; [discriminate | intros (_ & pc & Q & _); discriminate].
Qed.

(** [find_unique_fixed_alleles] either returns the loci that pass the test
    of lines 60-65 or raises the [ValueError] of [max] on an empty
    frequency dict. *)
Lemma find_unique_fixed_alleles_cases (fm : fixed_map) :
  wf fm ->
  match find_unique_fixed_alleles fm with
  | Ok out =>
      forall l cd,
        get l out = Some cd <->
        get l fm = Some cd /\
        exists per_clade,
          fixed_alleles_per_clade cd = Ok per_clade /\
          (List.length cd = 1%nat \/ NoDup (values per_clade))
  | Raise e =>
      e = ValueError /\ exists l cd c, In (l, cd) fm /\ In (c, []) cd
  end.
Proof.
  intros W.
  rewrite find_unique_fixed_alleles_collect.
  pose proof (for_each_collect_r unique_of fm []) as L.
  destruct (for_each (collect_r unique_of) fm []) as [out|e].
  - destruct L as [-> A]. intros l cd. rewrite (get_collect _ W). simpl.
    destruct (get l fm) as [cd0|] eqn:G.
    + destruct (A l cd0 (get_In _ _ G)) as (o & O).
      unfold chosen. rewrite O. split.
      * intros E.
        assert (Q : unique_of l cd0 = Ok (Some cd))
          by (destruct o; congruence).
        apply unique_of_some in Q. destruct Q as (-> & Q). auto.
      * intros (E & Q). inversion E; subst cd0.
        assert (Q' : unique_of l cd = Ok (Some cd))
          by (apply unique_of_some; auto).
        rewrite Q' in O. inversion O; subst. reflexivity.
    + split; [discriminate | intros [E _]; discriminate].
  - destruct L as (l & cd & I & R). unfold unique_of in R.
    destruct (fixed_alleles_per_clade cd) as [pc|e'] eqn:F; [discriminate|].
    simpl in R. inversion R; subst e'.
    apply fixed_alleles_per_clade_raise in F. destruct F as (-> & c & J).
    split; [reflexivity | exists l, cd, c; auto].
Qed.

(** C3. On a fixed-allele map (each locus once, every entry with at least
    one allele, as [identify_fixed_alleles] builds it),
    [find_unique_fixed_alleles] returns, and keeps a locus, with its list
    of entries unchanged, if and only if the list has exactly one entry or
    the fixed alleles recorded for its clades are pairwise distinct; every
    other locus is absent from the output.  The fixed allele recorded for a
    clade is the key [max(afs, key=afs.get)] of its frequency dict: a key
    whose frequency is greater than every earlier frequency and that no
    later frequency is greater than (a comparison with NaN being false). *)
Theorem find_unique_fixed_alleles_spec (fm : fixed_map) :
  wf fm -> has_alleles fm ->
  exists out,
    find_unique_fixed_alleles fm = Ok out /\
    (forall l cd,
       get l out = Some cd <->
       get l fm = Some cd /\
       exists per_clade,
         fixed_alleles_per_clade cd = Ok per_clade /\
         (List.length cd = 1%nat \/ NoDup (values per_clade))) /\
    (forall cd per_clade,
       fixed_alleles_per_clade cd = Ok per_clade ->
       NoDup (keys cd) ->
       forall c a,
         get c per_clade = Some a <->
         exists afs, In (c, afs) cd /\ py_max_key afs = Ok a) /\
    (forall afs a,
       py_max_key afs = Ok a ->
       exists before f after,
         afs = before ++ (a, f) :: after /\
         (forall x, In x before ->
            gtb f (snd x) = true \/ isnan (snd x) = true) /\
         (forall x, In x after -> gtb (snd x) f = false)).
Proof.
  intros W N. pose proof (find_unique_fixed_alleles_cases W) as C.
  destruct (find_unique_fixed_alleles fm) as [out|e].
  - exists out. split; [reflexivity|]. split; [exact C|].
    split; [exact fixed_alleles_per_clade_get | exact py_max_key_first].
  - destruct C as (_ & l & cd & c & I & J).
    exfalso. exact (N l cd c [] I J eq_refl).
Qed.

(* ================================================================= *)
(** ** write_most_divergent_loci *)

Section SortFacts.
Context {A : Type}.
Variable key : A -> float.

Lemma insert_right_perm x sorted : Permutation (insert_right key x sorted) (x :: sorted).
Proof.
  induction sorted as [|y rest IH]; simpl; [reflexivity|].
  destruct (ltb (key x) (key y)); [reflexivity|].
  rewrite IH. apply perm_swap.
Qed.

Lemma insert_right_sorted x sorted :
  isnan (key x) = false -> keys_not_nan key sorted ->
  StronglySorted (key_le key) sorted ->
  StronglySorted (key_le key) (insert_right key x sorted).
Proof.
  intros Nx. induction sorted as [|y rest IH]; simpl; intros N S.
  - constructor; constructor.
  - inversion S as [|? ? S' F]; subst.
    destruct (ltb (key x) (key y)) eqn:L.
    + constructor; [exact S|]. constructor.
      * apply FloatOrder.ltb_leb; exact L.
      * rewrite Forall_forall in F |- *. intros z I.
        apply FloatOrder.ltb_leb.
        exact (FloatOrder.ltb_leb_trans _ _ _ L (F z I)).
    + constructor.
      * apply IH; [intros e I; apply N; simpl; auto | exact S'].
      * rewrite Forall_forall in F |- *. intros z I.
        apply (Permutation_in _ (insert_right_perm x rest)) in I.
        destruct I as [<- | I]; [|exact (F z I)].
        apply FloatOrder.not_ltb_leb; [exact Nx | apply N; simpl; auto | exact L].
Qed.

(** Insertion puts [x] after the elements with an equal key. *)
Lemma insert_right_with_key x sorted k :
  StronglySorted (key_le key) sorted ->
  with_key key k (insert_right key x sorted) = with_key key k (sorted ++ [x]).
Proof.
  unfold with_key. induction sorted as [|y rest IH]; simpl; intros S;
    [reflexivity|].
  inversion S as [|? ? S' F]; subst.
  destruct (ltb (key x) (key y)) eqn:L.
  - simpl. rewrite filter_app. simpl.
    destruct (eqb (key x) k) eqn:Ex; [|rewrite app_nil_r; reflexivity].
    rewrite (FloatOrder.ltb_not_eqb _ _ _ L Ex).
    assert (E : filter (fun e => eqb (key e) k) rest = []).
    { rewrite Forall_forall in F. clear - F L Ex.
      induction rest as [|z rest IH]; simpl; [reflexivity|].
      rewrite (FloatOrder.ltb_not_eqb (key x) (key z) k); [|  |exact Ex].
      - apply IH. intros w I. apply F; simpl; auto.
      - apply FloatOrder.ltb_leb_trans with (y := key y); [exact L|].
        apply F; simpl; auto. }
    rewrite E. reflexivity.
  - simpl. rewrite (IH S'). reflexivity.
Qed.

Lemma stable_sort_loop xs : forall sorted,
  keys_not_nan key (sorted ++ xs) ->
  StronglySorted (key_le key) sorted ->
  let out := fold_left (fun sorted x => insert_right key x sorted) xs sorted in
  Permutation out (sorted ++ xs) /\
  StronglySorted (key_le key) out /\
  forall k, with_key key k out = with_key key k (sorted ++ xs).
Proof.
  induction xs as [|x xs IH]; intros sorted N S; simpl.
  - rewrite app_nil_r. auto.
  - assert (N' : keys_not_nan key (insert_right key x sorted ++ xs)).
    { intros e I. apply N. apply in_app_or in I. apply in_or_app.
      destruct I as [I | I]; [|right; simpl; auto].
      apply (Permutation_in _ (insert_right_perm x sorted)) in I.
      destruct I as [<- | I]; [right; simpl; auto | left; exact I]. }
    assert (S' : StronglySorted (key_le key) (insert_right key x sorted)).
    { apply insert_right_sorted; [| |exact S].
      - apply N. apply in_or_app; right; simpl; auto.
      - intros e I. apply N. apply in_or_app; auto. }
    destruct (IH _ N' S') as (P & Q & R). split; [|split].
    + rewrite P, insert_right_perm. apply Permutation_middle.
    + exact Q.
    + intros k. rewrite R. unfold with_key in *. rewrite !filter_app.
      fold (with_key key k (insert_right key x sorted)).
      rewrite (insert_right_with_key x k S). unfold with_key.
      rewrite filter_app, <- app_assoc.
      change (x :: xs) with ([x] ++ xs). rewrite (filter_app _ [x] xs).
      reflexivity.
Qed.

Lemma StronglySorted_rev (R : A -> A -> Prop) (xs : list A) :
  StronglySorted R xs -> StronglySorted (fun a b => R b a) (rev xs).
Proof.
  induction 1 as [|x xs S IH F]; simpl; [constructor|].
  enough (G : forall ys, StronglySorted (fun a b => R b a) ys ->
                         Forall (fun y => R x y) ys ->
                         StronglySorted (fun a b => R b a) (ys ++ [x])).
  { apply G; [exact IH|]. rewrite Forall_forall in F |- *.
    intros y I. apply F. apply in_rev; exact I. }
  clear. induction ys as [|y ys IH]; simpl; intros S F.
  - constructor; constructor.
  - inversion S; inversion F; subst. constructor; [auto|].
    apply Forall_app; split; [assumption | constructor; auto].
Qed.

(** [sorted(xs, key=key, reverse=True)] on keys that are not NaN:
    a permutation, in descending order of keys, elements with equal keys
    in their original order. *)
Lemma py_sorted_reverse_spec xs :
  keys_not_nan key xs ->
  Permutation (py_sorted_reverse key xs) xs /\
  StronglySorted (key_ge key) (py_sorted_reverse key xs) /\
  forall k, with_key key k (py_sorted_reverse key xs) = with_key key k xs.
Proof.
  intros N. unfold py_sorted_reverse, stable_sort.
  destruct (@stable_sort_loop (rev xs) []) as (P & Q & R).
  - intros e I. apply N. apply in_rev. exact I.
  - constructor.
  - simpl in *. split; [|split].
    + rewrite <- Permutation_rev, P, <- Permutation_rev. reflexivity.
    + apply StronglySorted_rev in Q. exact Q.
    + intros k. unfold with_key in *. rewrite filter_rev, R, filter_rev.
      apply rev_involutive.
Qed.

Lemma py_slice_to_nonneg n (xs : list A) :
  0 <= n ->
  py_slice_to n xs = firstn (Z.to_nat n) xs /\
  Z.of_nat (List.length (py_slice_to n xs)) = Z.min n (Z.of_nat (List.length xs)).
Proof.
  intros Pn. unfold py_slice_to.
  destruct (n <? 0) eqn:E; [apply Z.ltb_lt in E; lia|].
  split; [reflexivity|]. rewrite length_firstn. lia.
Qed.
End SortFacts.

(** C5, as amended.  For [num_div_loci >= 0] and a rounding that yields no
    NaN on the scores kept, [write_most_divergent_loci] keeps the entries
    whose score is not NaN, in the order of the table; sorts them in
    descending order of the score rounded to 6 decimal places, entries with
    equal rounded scores staying in the order of the table; and writes the
    first [num_div_loci] of them, that is,
    [min(num_div_loci, number of kept entries)] entries. *)
Theorem write_most_divergent_loci_spec (round6 : float -> float)
    (divergence_scores : divergence_map) (num_div_loci : Z) :
  0 <= num_div_loci ->
  keys_not_nan (sort_key round6) (filtered_scores divergence_scores) ->
  let kept := filtered_scores divergence_scores in
  let sorted := py_sorted_reverse (sort_key round6) kept in
  let written := write_most_divergent_loci round6 divergence_scores num_div_loci in
  kept = filter (fun item => negb (isnan (fst (snd item)))) divergence_scores /\
  Permutation sorted kept /\
  StronglySorted (key_ge (sort_key round6)) sorted /\
  (forall k, with_key (sort_key round6) k sorted = with_key (sort_key round6) k kept) /\
  written = firstn (Z.to_nat num_div_loci) sorted /\
  Z.of_nat (List.length written) = Z.min num_div_loci (Z.of_nat (List.length kept)).
Proof.
  intros Pn N kept sorted written.
  destruct (py_sorted_reverse_spec N) as (P & S & R).
  destruct (py_slice_to_nonneg sorted Pn) as (F & L).
  split; [reflexivity|]. split; [exact P|]. split; [exact S|].
  split; [exact R|]. split; [exact F|].
  unfold written, write_most_divergent_loci. fold kept. fold sorted.
  rewrite L. f_equal. f_equal. exact (Permutation_length P).
Qed.

(* ================================================================= *)
(** ** The instance of [round(x, 6)] yields no NaN *)

Lemma iter_pos_invariant {A : Type} (P : A -> Prop) (f : A -> A) :
  (forall x, P x -> P (f x)) ->
  forall n x, P x -> P (iter_pos f n x).
Proof.
  intros F. induction n as [n IH | n IH |]; intros x Px; simpl; auto.
Qed.

Lemma shr_1_nonneg (mrs : shr_record) : 0 <= shr_m mrs -> 0 <= shr_m (shr_1 mrs).
Proof.
  destruct mrs as [m r s]; simpl.
  destruct m as [|p|p]; [| |lia]; try destruct p; simpl; lia.
Qed.

Lemma shr_fexp_nonneg (m e : Z) (l : location) :
  0 <= m -> 0 <= shr_m (fst (shr_fexp prec emax m e l)).
Proof.
  intros M. unfold shr_fexp, shr.
  assert (R : 0 <= shr_m (shr_record_of_loc m l))
    by (destruct l as [|[| |]]; exact M).
  destruct (fexp prec emax (Zdigits2 m + e) - e) as [|p|p]; simpl;
    [exact R | | exact R].
  apply (iter_pos_invariant (fun mrs => 0 <= shr_m mrs)); [|exact R].
  exact shr_1_nonneg.
Qed.

Lemma round_nearest_even_nonneg (m : Z) (l : location) :
  0 <= m -> 0 <= round_nearest_even m l.
Proof.
  intros M. unfold round_nearest_even.
  destruct l as [|[| |]]; try destruct (Z.even m); lia.
Qed.

(** Rounding a mantissa that is not negative yields a float. *)
Lemma binary_round_aux_not_nan (s : bool) (m e : Z) (l : location) :
  0 <= m -> isnan (binary_round_aux prec emax s m e l) = false.
Proof.
  intros M. unfold binary_round_aux.
  pose proof (shr_fexp_nonneg e l M) as A.
  destruct (shr_fexp prec emax m e l) as [mrs' e']. simpl in A.
  pose proof (shr_fexp_nonneg e' loc_Exact
                (round_nearest_even_nonneg (loc_of_shr_record mrs') A)) as B.
  destruct (shr_fexp prec emax _ e' loc_Exact) as [mrs'' e'']. simpl in B.
  destruct (shr_m mrs'') as [|p|p]; [reflexivity | | lia].
  destruct (e'' <=? emax - prec); reflexivity.
Qed.

Lemma div_finite_not_nan (s1 s2 : bool) (m1 m2 : positive) (e1 e2 : Z) :
  isnan (div (S754_finite s1 m1 e1) (S754_finite s2 m2 e2)) = false.
Proof.
  unfold div, SFdiv, SFdiv_core_binary.
  set (m' := match _ - _ - _ with Z0 => _ | Zpos _ => _ | Zneg _ => _ end).
  assert (M : 0 <= m').
  { unfold m'. destruct (_ - _ - _) as [|p|p]; [lia | | lia].
    apply Z.shiftl_nonneg. lia. }
  pose proof (Z_div_mod m' (Zpos m2) ltac:(lia)) as D.
  destruct (Z.div_eucl m' (Zpos m2)) as [q r].
  apply binary_round_aux_not_nan. destruct D as [D R]. nia.
Qed.

Lemma round6_not_nan (x : float) :
  isnan x = false -> isnan (Runtime.round6 x) = false.
Proof.
  destruct x as [s|s| |s m e]; simpl; try reflexivity; [discriminate|].
  intros _. destruct (0 <=? e); [reflexivity|].
  destruct (Runtime.round_half_even_div _ _); try reflexivity.
  apply div_finite_not_nan.
Qed.

(** With the instance of [round(x, 6)], the sort keys of the kept scores
    are not NaN, whatever the table. *)
Lemma round6_keys_not_nan (divergence_scores : divergence_map) :
  keys_not_nan (sort_key Runtime.round6) (filtered_scores divergence_scores).
Proof.
  intros e I. unfold filtered_scores in I. apply filter_In in I.
  destruct I as [_ N]. apply negb_true_iff in N.
  unfold sort_key. apply round6_not_nan. exact N.
Qed.

(* ================================================================= *)
(** ** process_files *)

Create HintDb builtin.

Lemma raises_builtin_Ok {A : Type} (a : A) : raises_builtin (Ok a).
Proof. intros e E; discriminate. Qed.

Lemma raises_builtin_bind {A B : Type} (r : result A) (k : A -> result B) :
  raises_builtin r -> (forall a, raises_builtin (k a)) ->
  raises_builtin (bind r k).
Proof.
  intros R K e. destruct r as [a|e']; simpl.
  - apply K.
  - intros E; inversion E; subst. apply R; reflexivity.
Qed.

Lemma raises_builtin_for_each {A S : Type} (body : S -> A -> result S) xs :
  (forall s x, raises_builtin (body s x)) ->
  forall s, raises_builtin (for_each body xs s).
Proof.
  intros B. induction xs as [|x xs IH]; intros s; simpl.
  - apply raises_builtin_Ok.
  - apply raises_builtin_bind; [apply B | exact IH].
Qed.

Lemma raises_builtin_index_of x xs : raises_builtin (index_of x xs).
Proof.
  induction xs as [|y xs IH]; simpl.
  - intros e E; inversion E; discriminate.
  - destruct (String.eqb x y); [apply raises_builtin_Ok|].
    apply raises_builtin_bind; [exact IH | intros; apply raises_builtin_Ok].
Qed.

Lemma raises_builtin_item {A : Type} (xs : list A) i : raises_builtin (item xs i).
Proof.
  unfold item. destruct (nth_error xs i); intros e E; inversion E; discriminate.
Qed.

Lemma raises_builtin_int_div_2 n : raises_builtin (int_div_2 n).
Proof.
  unfold int_div_2. destruct (isfinite _); intros e E; inversion E; discriminate.
Qed.

Lemma raises_builtin_float_div_int a n : raises_builtin (float_div_int a n).
Proof.
  unfold float_div_int. destruct (isfinite _); [destruct (Z.eqb n 0)|];
    intros e E; inversion E; discriminate.
Qed.

#[export] Hint Resolve raises_builtin_Ok raises_builtin_index_of
  raises_builtin_item raises_builtin_int_div_2 raises_builtin_float_div_int
  : builtin.

Section ParsingFacts.
Variable py_int : string -> option Z.
Variable py_float : string -> option float.

Lemma raises_builtin_parse_int s : raises_builtin (parse_int py_int s).
Proof.
  unfold parse_int. destruct (py_int s); intros e E; inversion E; discriminate.
Qed.

Lemma raises_builtin_parse_float s : raises_builtin (parse_float py_float s).
Proof.
  unfold parse_float. destruct (py_float s); intros e E; inversion E;
    discriminate.
Qed.

Ltac builtin :=
  repeat first
    [ apply raises_builtin_bind; [|intros]
    | apply raises_builtin_for_each; intros
    | apply raises_builtin_parse_int
    | apply raises_builtin_parse_float
    | solve [auto with builtin] ].

Lemma raises_builtin_read_allele_freqs header line n :
  raises_builtin (read_allele_freqs py_float header line n).
Proof.
  unfold read_allele_freqs. builtin.
  destruct (PyStr.split ":" a0) as [|a1 [|f [|? ?]]];
    try (intros e E; inversion E; discriminate).
  builtin.
Qed.

Lemma raises_builtin_process_line header cn n t raw :
  raises_builtin (process_line py_int py_float header cn n t raw).
Proof.
  unfold process_line, column. cbv zeta.
  repeat first
    [ apply raises_builtin_read_allele_freqs
    | apply raises_builtin_bind; [|intros]
    | apply raises_builtin_parse_int
    | solve [auto with builtin] ].
Qed.

Lemma raises_builtin_process_file t input :
  raises_builtin (process_file py_int py_float t input).
Proof.
  destruct input as [file n]. unfold process_file.
  apply raises_builtin_bind; [auto with builtin | intros first].
  apply raises_builtin_for_each. intros; apply raises_builtin_process_line.
Qed.

(** With a zero count, a data row always raises. *)
Lemma process_line_zero header cn t raw :
  exists e, process_line py_int py_float header cn 0 t raw = Raise e.
Proof.
  unfold process_line. cbv zeta.
  repeat match goal with
         | |- exists e, bind ?r _ = Raise e =>
             destruct r; simpl; [|eexists; reflexivity]
         end.
  eexists; reflexivity.
Qed.

(** A data row that is processed with some count raises
    [ZeroDivisionError] with a zero count. *)
Lemma process_line_zero_division header cn n t raw t' :
  process_line py_int py_float header cn n t raw = Ok t' ->
  n <> 0 /\
  process_line py_int py_float header cn 0 t raw = Raise ZeroDivisionError.
Proof.
  unfold process_line. cbv zeta.
  do 6 match goal with
       | |- bind ?r _ = Ok _ -> _ => destruct r; simpl; [|discriminate]
       end.
  unfold float_div_int. destruct (isfinite (float_of_int n)); [|discriminate].
  destruct (Z.eqb n 0) eqn:E; [discriminate|]. intros _.
  split; [apply Z.eqb_neq; exact E | reflexivity].
Qed.

Lemma for_each_raises {A S : Type} (body : S -> A -> result S) xs x :
  In x xs -> (forall s, exists e, body s x = Raise e) ->
  forall s, exists e, for_each body xs s = Raise e.
Proof.
  intros I R. induction xs as [|y xs IH]; [destruct I|]. intros s; simpl.
  destruct I as [-> | I].
  - destruct (R s) as [e E]. rewrite E. simpl. eexists; reflexivity.
  - destruct (body s y) as [s'|e]; simpl; [apply IH; exact I|].
    eexists; reflexivity.
Qed.

(** A file with a zero count and a data row makes the run fail. *)
Lemma process_file_zero t file :
  (2 <= List.length (lines file))%nat ->
  exists e, process_file py_int py_float t (file, 0) = Raise e.
Proof.
  intros L. unfold process_file.
  destruct (lines file) as [|first [|row rows]]; simpl in L; try lia.
  simpl. destruct (process_line_zero
                     (PyStr.split "009" (PyStr.strip first))
                     (clade_name (path file)) t row) as [e E].
  rewrite E. simpl. eexists; reflexivity.
Qed.

(** An allele-count field that [int] rejects raises [ValueError]. *)
Lemma process_line_bad_count header cn n t raw chrom pos_field pos field :
  let line := PyStr.split "009" (PyStr.strip raw) in
  column header line "CHROM" = Ok chrom ->
  column header line "POS" = Ok pos_field -> py_int pos_field = Some pos ->
  column header line "N_ALLELES" = Ok field -> py_int field = None ->
  process_line py_int py_float header cn n t raw = Raise ValueError.
Proof.
  intros line C P Pi N Ni. unfold process_line. fold line.
  rewrite C, P, N. simpl. unfold parse_int. rewrite Pi, Ni. reflexivity.
Qed.

(** A frequency that [float] rejects, in one of the first [N_ALLELES]
    frequency fields, raises [ValueError]. *)
Lemma read_allele_freqs_bad_freq header line n first j field a f :
  index_of "{ALLELE:FREQ}" header = Ok first ->
  (j < Z.to_nat n)%nat ->
  nth_error line (first + j) = Some field ->
  PyStr.split ":" field = [a; f] -> py_float f = None ->
  read_allele_freqs py_float header line n = Raise ValueError.
Proof.
  intros I J Nth Sp Pf. unfold read_allele_freqs. rewrite I. simpl.
  generalize (@nil (allele * float)).
  assert (G : forall k start (acc : allele_freqs),
             (start <= j < start + k)%nat ->
             for_each
               (fun afs j0 =>
                  field0 <- item line (first + j0)%nat ;;
                  match PyStr.split ":" field0 with
                  | [a0; f0] => x <- parse_float py_float f0 ;; Ok (set a0 x afs)
                  | _ => Raise ValueError
                  end)
               (seq start k) acc = Raise ValueError).
  { induction k as [|k IH]; intros start acc B; [lia|]. simpl.
    destruct (Nat.eq_dec start j) as [-> | Ne].
    - unfold item. rewrite Nth. simpl. rewrite Sp.
      unfold parse_float. rewrite Pf. reflexivity.
    - assert (Lt : (first + start < first + j)%nat) by lia.
      assert (Some' : nth_error line (first + start) <> None).
      { apply nth_error_Some. apply Nat.lt_trans with (first + j)%nat;
          [exact Lt|]. apply nth_error_Some. congruence. }
      unfold item at 1.
      destruct (nth_error line (first + start)) as [cell|]; [|congruence].
      simpl.
      destruct (PyStr.split ":" cell) as [|a1 [|f1 [|? ?]]]; try reflexivity.
      unfold parse_float at 1. destruct (py_float f1); [|reflexivity].
      simpl. apply IH. lia. }
  intros acc. apply G. lia.
Qed.

End ParsingFacts.

(** C7, as amended.  [process_files] never fails with
    [MalformedRecordError]: its failures are Python's built-in exceptions.
    A file whose expected individual count is zero and that has a data row
    makes the run fail; a data row that is processed with a non-zero count
    raises [ZeroDivisionError], from the division itself, with a zero
    count.  An allele-count field that [int] rejects and a frequency that
    [float] rejects raise [ValueError]. *)
Theorem process_files_errors (py_int : string -> option Z)
    (py_float : string -> option float) :
  (forall file_list,
     raises_builtin (process_files py_int py_float file_list)) /\
  (forall file_list file,
     In (file, 0) file_list -> (2 <= List.length (lines file))%nat ->
     exists e, process_files py_int py_float file_list = Raise e /\
               e <> MalformedRecordError) /\
  (forall header cn n t raw t',
     process_line py_int py_float header cn n t raw = Ok t' ->
     n <> 0 /\
     process_line py_int py_float header cn 0 t raw = Raise ZeroDivisionError) /\
  (forall header cn n t raw chrom pos_field pos field,
     let line := PyStr.split "009" (PyStr.strip raw) in
     column header line "CHROM" = Ok chrom ->
     column header line "POS" = Ok pos_field -> py_int pos_field = Some pos ->
     column header line "N_ALLELES" = Ok field -> py_int field = None ->
     process_line py_int py_float header cn n t raw = Raise ValueError) /\
  (forall header line n first j field a f,
     index_of "{ALLELE:FREQ}" header = Ok first ->
     (j < Z.to_nat n)%nat ->
     nth_error line (first + j) = Some field ->
     PyStr.split ":" field = [a; f] -> py_float f = None ->
     read_allele_freqs py_float header line n = Raise ValueError).
Proof.
  assert (B : forall file_list,
             raises_builtin (process_files py_int py_float file_list)).
  { intros fl. unfold process_files. apply raises_builtin_for_each.
    intros; apply raises_builtin_process_file. }
  split; [exact B|]. split; [|split; [|split]].
  - intros fl file I L.
    destruct (@for_each_raises _ _ (process_file py_int py_float) fl (file, 0) I
                (fun t => @process_file_zero py_int py_float t file L) [])
      as [e E].
    exists e. split; [exact E | exact (B fl e E)].
  - apply process_line_zero_division.
  - apply process_line_bad_count.
  - apply read_allele_freqs_bad_freq.
Qed.

(* ================================================================= *)
(** ** main *)

(** C9. A run that completes writes the uniquely-missing-sites file if and
    only if more than two input files (one per clade) were supplied; it
    writes the five other files in every case, and no further file. *)
Theorem main_outputs (py_int : string -> option Z)
    (py_float : string -> option float)
    (set_iter : list allele -> list allele) (round6 : float -> float)
    (file_list : list (frq_file * Z)) (miss_tolerance error_tolerance : float)
    (num_div_loci : Z) (out_name : string) (outs : list output) :
  main py_int py_float set_iter round6 file_list miss_tolerance
    error_tolerance num_div_loci = Ok outs ->
  ((exists m, In (UniquelyMissingSites m) outs) <->
   (2 < List.length file_list)%nat) /\
  map (output_name out_name) outs =
  [ (out_name ++ "_most_divergent_loci.txt")%string;
    (out_name ++ "_fixed_alleles.txt")%string;
    (out_name ++ "_unique_fixed_alleles.txt")%string;
    (out_name ++ "_private_alleles.txt")%string;
    (out_name ++ "_private_sites.txt")%string ]
  ++ (if Nat.ltb 2 (List.length file_list)
      then [(out_name ++ "_uniquely_missing_sites.txt")%string]
      else []).
Proof.
  unfold main.
  destruct (process_files py_int py_float file_list) as [t|]; simpl;
    [|discriminate].
  destruct (identify_fixed_alleles t miss_tolerance error_tolerance) as [fx|];
    simpl; [|discriminate].
  destruct (find_unique_fixed_alleles fx) as [ux|]; simpl; [|discriminate].
  destruct (find_private_sites t) as [ps ums].
  destruct (compute_divergence_scores set_iter t) as [ds|]; simpl;
    [|discriminate].
  intros E; inversion E; subst outs; clear E.
  destruct (Nat.ltb 2 (List.length file_list)) eqn:L; simpl.
  - apply Nat.ltb_lt in L. split; [|reflexivity].
    split; [intros _; exact L | intros _; exists ums; intuition].
  - apply Nat.ltb_ge in L. split; [|reflexivity].
    split; [|lia].
    intros (m & [Q | [Q | [Q | [Q | [Q | []]]]]]); discriminate.
Qed.

(* ================================================================= *)
(** ** The properties on the example data *)

Lemma distinctb_NoDup {K : Type} `{KeyOk K} (ks : list K) :
  distinctb ks = true -> NoDup ks.
Proof.
  induction ks as [|k ks IH]; simpl; [constructor|].
  rewrite andb_true_iff, negb_true_iff. intros [N D].
  constructor; [|apply IH; exact D].
  intros I.
  assert (E : existsb (key_eqb k) ks = true)
    by (apply existsb_exists; exists k; split; [exact I | apply key_eqb_refl]).
  congruence.
Qed.

Lemma wf_tableb_wf_table (t : table) : wf_tableb t = true -> wf_table t.
Proof.
  unfold wf_tableb, wf_table. rewrite andb_true_iff, forallb_forall.
  intros [D F]. split; [apply distinctb_NoDup; exact D|].
  intros l cd I. specialize (F (l, cd) I). simpl in F.
  rewrite andb_true_iff, forallb_forall in F. destruct F as [Dc Fc].
  split; [apply distinctb_NoDup; exact Dc|].
  intros c pg af J. apply distinctb_NoDup. exact (Fc (c, (pg, af)) J).
Qed.

Lemma example_table_wf : wf_table Example.all_alleles.
Proof. apply wf_tableb_wf_table. reflexivity. Qed.

(** On the example table, allele [T] is private to clade [B] at the first
    site, and the second site, where clade [C] is missing, is skipped. *)
Lemma identify_private_alleles_spec_witness :
  wf_table Example.all_alleles /\
  get ("1"%string, 200)
    (identify_private_alleles Example.all_alleles zero) = None /\
  reported (identify_private_alleles Example.all_alleles zero)
    ("1"%string, 100) "B"%string "T"%string
    {| freq := one; perc_genotyped := one |}.
Proof.
  pose proof (@identify_private_alleles_spec Example.all_alleles zero
                example_table_wf) as [S R].
  split; [exact example_table_wf|]. split.
  - eapply (S ("1"%string, 200) _ "C"%string zero
              [("A"%string, nan); ("T"%string, nan)]).
    + reflexivity.
    + simpl. auto.
    + left. reflexivity.
  - apply R. eexists _, one, _. split; [reflexivity|].
    split; [apply missing_or_nan_false; reflexivity|].
    split; [reflexivity|]. split; [reflexivity|]. split; [reflexivity|].
    split; [reflexivity|].
    intros c' pg' afs' f' N Gc Ga. simpl in Gc.
    destruct (String.eqb c' "A") eqn:EA.
    + inversion Gc; subst. simpl in Ga. inversion Ga; subst. reflexivity.
    + destruct (String.eqb c' "B") eqn:EB.
      * apply String.eqb_eq in EB. contradiction.
      * destruct (String.eqb c' "C"); [|discriminate].
        inversion Gc; subst. simpl in Ga. inversion Ga; subst. reflexivity.
Defined.

(** On the fixed alleles of the example table, the only locus has three
    fixed clades, two of them with the same fixed allele, and is dropped. *)
Lemma find_unique_fixed_alleles_spec_witness :
  wf Example.fixed_alleles /\ has_alleles Example.fixed_alleles /\
  exists out,
    find_unique_fixed_alleles Example.fixed_alleles = Ok out /\
    get ("1"%string, 100) out = None.
Proof.
  destruct (@identify_fixed_alleles_entries Example.all_alleles one zero
              Example.fixed_alleles eq_refl) as [W N].
  split; [exact W|]. split; [exact N|].
  destruct (@find_unique_fixed_alleles_spec Example.fixed_alleles W N)
    as (out & E & S & _).
  exists out. split; [exact E|].
  destruct (get ("1"%string, 100) out) as [cd|] eqn:G; [|reflexivity].
  exfalso. apply S in G. destruct G as (G & per_clade & F & D).
  vm_compute in G. inversion G; subst cd; clear G.
  vm_compute in F. inversion F; subst per_clade; clear F.
  destruct D as [D | D]; [discriminate|].
  inversion D as [|? ? NI _]; subst. apply NI. simpl; auto.
Defined.




(** Of the four example scores that are not NaN, three are written for
    [num_div_loci = 3]: the largest first, then the two that round to
    [1.0], in the order of the table. *)
Lemma write_most_divergent_loci_spec_witness :
  0 <= 3 /\
  keys_not_nan (sort_key Runtime.round6) (filtered_scores Example.scores) /\
  Z.of_nat (List.length
              (write_most_divergent_loci Runtime.round6 Example.scores 3)) = 3 /\
  map fst (write_most_divergent_loci Runtime.round6 Example.scores 3) =
  [("1"%string, 2); ("1"%string, 1); ("1"%string, 4)].
Proof.
  split; [lia|]. split; [exact (round6_keys_not_nan Example.scores)|].
  destruct (@write_most_divergent_loci_spec Runtime.round6 Example.scores 3
              ltac:(lia) (round6_keys_not_nan Example.scores))
    as (_ & _ & _ & _ & W & L).
  split.
  - rewrite L. reflexivity.
  - rewrite W. reflexivity.
Defined.

(** C5, as stated, fails for a negative [num_div_loci]: [xs[:-1]] drops
    the last entry, so three of the four kept entries are written, not
    [min(-1, 4)]. *)
Lemma write_most_divergent_loci_negative :
  Z.of_nat (List.length
              (write_most_divergent_loci Runtime.round6 Example.scores (-1)))
  <> Z.min (-1) (Z.of_nat (List.length (filtered_scores Example.scores))).
Proof. vm_compute. discriminate. Qed.

(** On the example table, the second site, genotyped in clades [A] and [B]
    and missing in clade [C], is uniquely missing, and not a private
    site. *)
Lemma find_private_sites_spec_witness :
  wf_table Example.all_alleles /\
  get ("1"%string, 200) (snd (find_private_sites Example.all_alleles)) =
    Some [("A"%string, one); ("B"%string, Example.flt "0.8")] /\
  get ("1"%string, 200) (fst (find_private_sites Example.all_alleles)) = None.
Proof.
  split; [exact example_table_wf|].
  destruct (@find_private_sites_spec Example.all_alleles example_table_wf)
    as (_ & U & D & _).
  assert (G : get ("1"%string, 200)
                (snd (find_private_sites Example.all_alleles)) =
              Some [("A"%string, one); ("B"%string, Example.flt "0.8")]).
  { apply U. eexists. split; [reflexivity|].
    split; [simpl; lia|]. split; reflexivity. }
  split; [exact G|].
  destruct (D ("1"%string, 200)) as [N | N]; [exact N|].
  discriminate (eq_trans (eq_sym G) N).
Defined.

(** C7, as stated, fails: with a zero expected individual count the run
    fails with [ZeroDivisionError], which the division raises, not with
    [MalformedRecordError]. *)
Lemma process_files_zero_count :
  Example.process [(Example.file_A, 0)] = Raise ZeroDivisionError /\
  Example.process [(Example.file_A, 0)] <> Raise MalformedRecordError.
Proof. split; [reflexivity | discriminate]. Qed.

(** Two clades with the same finite frequencies have a score of [0.0]. *)
Lemma divergence_identical_clades_witness :
  wf Example.both_same /\
  exists out avg,
    compute_divergence_scores Runtime.set_order Example.both_same = Ok out /\
    get ("1"%string, 400) out = Some (zero, avg).
Proof.
  assert (W : wf Example.both_same) by (apply distinctb_NoDup; reflexivity).
  split; [exact W|].
  apply (@divergence_identical_clades Runtime.set_order Example.both_same
           ("1"%string, 400) "A"%string "B"%string one one
           [("A"%string, Example.flt "0.3"); ("T"%string, Example.flt "0.7")]
           [("A"%string, Example.flt "0.3"); ("T"%string, Example.flt "0.7")]
           W eq_refl (fun a => eq_refl)).
  intros a f [E | [E | []]]; inversion E; reflexivity.
Defined.

(** C8, as stated, fails: two clades without data at a site have identical
    frequency dicts of NaN, and the score of the site is NaN, which is not
    [== 0]; so is the score of two clades with the same infinite
    frequency. *)
Lemma divergence_identical_nan :
  get ("1"%string, 300) Example.both_missing =
    Some [("A"%string, (zero, [("A"%string, nan); ("T"%string, nan)]));
          ("B"%string, (zero, [("A"%string, nan); ("T"%string, nan)]))] /\
  ~ (exists out score avg,
       compute_divergence_scores Runtime.set_order Example.both_missing = Ok out /\
       get ("1"%string, 300) out = Some (score, avg) /\
       eqb score zero = true) /\
  get ("1"%string, 600) Example.both_infinite =
    Some [("A"%string, (one, [("A"%string, S754_infinity false)]));
          ("B"%string, (one, [("A"%string, S754_infinity false)]))] /\
  ~ (exists out score avg,
       compute_divergence_scores Runtime.set_order Example.both_infinite = Ok out /\
       get ("1"%string, 600) out = Some (score, avg) /\
       eqb score zero = true).
Proof.
  split; [reflexivity|]. split; [|split; [reflexivity|]].
  - intros (out & score & avg & E & G & Z).
    vm_compute in E. inversion E; subst out; clear E.
    vm_compute in G. inversion G; subst score avg; clear G.
    discriminate.
  - intros (out & score & avg & E & G & Z).
    vm_compute in E. inversion E; subst out; clear E.
    vm_compute in G. inversion G; subst score avg; clear G.
    discriminate.
Qed.

(** The run on the three example files writes six files, the run on two of
    them five. *)
Lemma main_outputs_witness :
  Example.run Example.files = Ok Example.outputs_of_three /\
  (exists m, In (UniquelyMissingSites m) Example.outputs_of_three) /\
  Example.run [(Example.file_A, 5); (Example.file_B, 5)] =
    Ok Example.outputs_of_two /\
  ~ (exists m, In (UniquelyMissingSites m) Example.outputs_of_two).
Proof.
  assert (H3 : Example.run Example.files = Ok Example.outputs_of_three)
    by (vm_compute; reflexivity).
  assert (H2 : Example.run [(Example.file_A, 5); (Example.file_B, 5)] =
               Ok Example.outputs_of_two)
    by (vm_compute; reflexivity).
  split; [exact H3|]. split; [|split; [exact H2|]].
  - apply (proj1 (@main_outputs Runtime.int_of_digits Runtime.float_of_decimal
                    Runtime.set_order Runtime.round6 Example.files one zero
                    200 "out"%string Example.outputs_of_three H3)).
    simpl. lia.
  - intros M.
    apply (proj1 (@main_outputs Runtime.int_of_digits Runtime.float_of_decimal
                    Runtime.set_order Runtime.round6
                    [(Example.file_A, 5); (Example.file_B, 5)] one zero
                    200 "out"%string Example.outputs_of_two H2)) in M.
    simpl in M. lia.
Defined.

(** On the example table every locus of both outputs has entries. *)
Lemma classifier_outputs_nonempty_witness :
  identify_fixed_alleles Example.all_alleles one zero = Ok Example.fixed_alleles /\
  (forall l es, In (l, es) Example.fixed_alleles -> es <> []) /\
  (forall l at_pos,
     In (l, at_pos) (identify_private_alleles Example.all_alleles zero) ->
     at_pos <> []).
Proof.
  assert (H : identify_fixed_alleles Example.all_alleles one zero =
              Ok Example.fixed_alleles) by reflexivity.
  destruct (@classifier_outputs_nonempty Example.all_alleles one zero) as [F P].
  split; [exact H|]. split.
  - intros l es I. exact (F Example.fixed_alleles l es H I).
  - intros l at_pos I. exact (proj1 (P l at_pos I)).
Defined.

(** On the example table, clade [B] is fixed at the first site, and its
    entry carries both frequencies. *)
Lemma identify_fixed_alleles_spec_witness :
  (forall l cd c pg afs,
     In (l, cd) Example.all_alleles -> In (c, (pg, afs)) cd ->
     geb pg one = true -> afs <> []) /\
  exists out,
    identify_fixed_alleles Example.all_alleles one zero = Ok out /\
    entry out ("1"%string, 100)
      ("B"%string, [("A"%string, zero); ("T"%string, one)]).
Proof.
  assert (N : forall l cd c pg afs,
             In (l, cd) Example.all_alleles -> In (c, (pg, afs)) cd ->
             geb pg one = true -> afs <> []).
  { intros l cd c pg afs I J _.
    repeat (destruct I as [I | I];
            [inversion I; subst; clear I;
             repeat (destruct J as [J | J]; [inversion J; discriminate|]);
             destruct J|]).
    destruct I. }
  split; [exact N|].
  destruct (@identify_fixed_alleles_spec Example.all_alleles one zero N)
    as (out & E & _ & S & _).
  exists out. split; [exact E|]. apply S.
  eexists _, one. split; [left; reflexivity|].
  split; [right; left; reflexivity|]. split; [reflexivity|].
  split; [reflexivity|].
  exists one. split; [|reflexivity].
  split; [right; left; reflexivity|]. split; [reflexivity|].
  intros x [<- | [<- | []]] _; reflexivity.
Defined.

(** C1, as stated, fails on a table with a genotyped clade that has no
    allele ([N_ALLELES = 0]): clade [A] of the site qualifies, but [max]
    raises on the empty dict of clade [B] and there is no output.  It
    fails as well on a record whose first frequency is NaN: [max] compares
    with [>], which is false on NaN, and returns the NaN, so the record is
    not fixed although its greatest frequency is [1.0]; with the same
    frequencies in the other order it is fixed. *)
Lemma identify_fixed_alleles_no_allele :
  get ("1"%string, 500) Example.no_allele =
    Some [("A"%string, (one, [("A"%string, one)])); ("B"%string, (one, []))] /\
  geb one one = true /\
  py_max (values [("A"%string, one)]) = Ok one /\
  geb one (sub one zero) = true /\
  identify_fixed_alleles Example.no_allele one zero = Raise ValueError /\
  greatest (values [("A"%string, nan); ("T"%string, one)]) one /\
  identify_fixed_alleles NanCases.nan_first_table one zero = Ok [] /\
  identify_fixed_alleles NanCases.nan_last_table one zero =
    Ok [(("1"%string, 700),
         [("A"%string, [("T"%string, one); ("A"%string, nan)])])].
Proof.
  do 5 (split; [reflexivity|]). split; [|split; reflexivity].
  split; [right; left; reflexivity|]. split; [reflexivity|].
  intros x [<- | [<- | []]] N; [discriminate N | reflexivity].
Qed.

(* ################################################################# *)
(** * Further properties *)

(* ================================================================= *)
(** ** process_files: the table it builds *)

Lemma for_each_invariant {A S : Type} (P : S -> Prop) (body : S -> A -> result S)
    (xs : list A) :
  (forall s x s', In x xs -> P s -> body s x = Ok s' -> P s') ->
  forall s s', P s -> for_each body xs s = Ok s' -> P s'.
Proof.
  induction xs as [|x xs IH]; simpl; intros B s s' Ps E.
  - inversion E; subst; exact Ps.
  - destruct (body s x) as [s1|e] eqn:E1; simpl in E; [|discriminate].
    apply (IH (fun s0 y s2 I => B s0 y s2 (or_intror I)) s1 s');
      [|exact E].
    exact (B s x s1 (or_introl eq_refl) Ps E1).
Qed.

Lemma In_set {K V : Type} `{KeyOk K} (d : dict K V) k v k' v' :
  In (k', v') (set k v d) -> (k' = k /\ v' = v) \/ In (k', v') d.
Proof.
  induction d as [|[k0 v0] d IH]; simpl.
  - intros [E | []]. inversion E; auto.
  - destruct (key_eqb_case k k0) as [[-> ->] | [_ ->]]; simpl.
    + intros [E | I]; [inversion E; auto | auto].
    + intros [E | I]; [auto|]. destruct (IH I); auto.
Qed.

Lemma wf_table_nil : wf_table [].
Proof. split; [constructor | intros l cd []]. Qed.

(** Storing a record with a well-formed frequency dict keeps the table
    well formed. *)
Lemma wf_table_setdefault_set (t : table) l c pg afs :
  wf_table t -> wf afs -> wf_table (setdefault_set l c (pg, afs) t).
Proof.
  intros [Wt Wc] Wa. unfold setdefault_set.
  match goal with
  | |- context [match ?g with Some _ => _ | None => _ end] =>
      destruct g as [inner|] eqn:G
  end.
  - split; [apply wf_set; exact Wt|].
    intros l' cd I. apply In_set in I.
    destruct I as [[-> ->] | I]; [|exact (Wc l' cd I)].
    destruct (Wc l inner (get_In _ _ G)) as [Wi Wr].
    split; [apply wf_set; exact Wi|].
    intros c' pg' af' J. apply In_set in J.
    destruct J as [[-> E] | J];
      [inversion E; subst; exact Wa | exact (Wr c' pg' af' J)].
  - split; [apply wf_set; exact Wt|].
    intros l' cd I. apply In_set in I.
    destruct I as [[-> ->] | I]; [|exact (Wc l' cd I)].
    split; [repeat constructor; simpl; tauto|].
    intros c' pg' af' [E | []]. inversion E; subst; exact Wa.
Qed.

Section TableFacts.
Variable py_int : string -> option Z.
Variable py_float : string -> option float.

Lemma read_allele_freqs_wf header line n afs :
  read_allele_freqs py_float header line n = Ok afs -> wf afs.
Proof.
  unfold read_allele_freqs.
  destruct (index_of "{ALLELE:FREQ}" header) as [first|]; simpl; [|discriminate].
  apply (for_each_invariant (fun afs : allele_freqs => wf afs)); [|constructor].
  intros s j s' _ Ws E.
  destruct (item line (first + j)) as [field|]; simpl in E; [|discriminate].
  destruct (PyStr.split ":" field) as [|a [|f [|? ?]]]; try discriminate.
  destruct (parse_float py_float f) as [x|]; simpl in E; [|discriminate].
  inversion E; subst. apply wf_set. exact Ws.
Qed.

Lemma process_line_wf header cn n t raw t' :
  wf_table t ->
  process_line py_int py_float header cn n t raw = Ok t' -> wf_table t'.
Proof.
  intros W. unfold process_line. cbv zeta.
  do 5 match goal with
       | |- bind ?r _ = Ok _ -> _ => destruct r; simpl; [|discriminate]
       end.
  destruct (read_allele_freqs py_float header _ _) as [afs|] eqn:R; simpl;
    [|discriminate].
  destruct (float_div_int _ n) as [pg|]; simpl; [|discriminate].
  intros E; inversion E; subst.
  apply wf_table_setdefault_set; [exact W | eapply read_allele_freqs_wf; exact R].
Qed.

Lemma process_file_wf t input t' :
  wf_table t -> process_file py_int py_float t input = Ok t' -> wf_table t'.
Proof.
  destruct input as [file n]. unfold process_file. intros W.
  destruct (item (lines file) 0) as [first|]; simpl; [|discriminate].
  apply (for_each_invariant wf_table); [|exact W].
  intros s raw s' _ Ws E. eapply process_line_wf; eassumption.
Qed.

End TableFacts.

Lemma process_files_wf (py_int : string -> option Z)
    (py_float : string -> option float) (file_list : list (frq_file * Z))
    (t : table) :
  process_files py_int py_float file_list = Ok t -> wf_table t.
Proof.
  unfold process_files.
  apply (for_each_invariant wf_table); [|exact wf_table_nil].
  intros s input s' _ Ws E. eapply process_file_wf; eassumption.
Qed.

(** X1. Every table [process_files] returns is a table of dicts: each
    locus once, each clade once per locus, each allele once per record. *)
Theorem process_files_wf_table (py_int : string -> option Z)
    (py_float : string -> option float) (file_list : list (frq_file * Z))
    (t : table) :
  process_files py_int py_float file_list = Ok t -> wf_table t.
Proof.
  unfold process_files.
  apply (for_each_invariant wf_table); [|exact wf_table_nil].
  intros s input s' _ Ws E. eapply process_file_wf; eassumption.
Qed.

Lemma process_files_wf_table_witness :
  Example.process Example.files = Ok Example.all_alleles /\
  wf_table Example.all_alleles.
Proof.
  assert (E : Example.process Example.files = Ok Example.all_alleles)
    by (vm_compute; reflexivity).
  split; [exact E|].
  exact (@process_files_wf_table Runtime.int_of_digits Runtime.float_of_decimal
           Example.files Example.all_alleles E).
Defined.

Lemma record_at_setdefault_set (t : table) l c r l' c' :
  record_at (setdefault_set l c r t) l' c' =
  if (key_eqb l' l && key_eqb c' c)%bool then Some r else record_at t l' c'.
Proof.
  unfold record_at, setdefault_set.
  match goal with
  | |- context [match ?g with Some inner => set _ (set _ _ inner) _ | None => _ end] =>
      destruct g as [inner|] eqn:G
  end.
  - rewrite get_set. destruct (key_eqb_case l' l) as [[-> ->] | [_ ->]];
      cbn [andb]; [|reflexivity].
    rewrite get_set.
    match goal with
    | |- context [match ?g with Some cd => _ | None => _ end] =>
        let G' := fresh in assert (G' : g = Some inner) by exact G; rewrite G'
    end.
    reflexivity.
  - rewrite get_set. destruct (key_eqb_case l' l) as [[-> ->] | [_ ->]];
      cbn [andb]; [|reflexivity].
    match goal with
    | |- context [match ?g with Some cd => _ | None => _ end] =>
        let G' := fresh in assert (G' : g = None) by exact G; rewrite G'
    end.
    cbn [get fst snd]. destruct (key_eqb c' c); reflexivity.
Qed.

Lemma process_line_stores (py_int : string -> option Z)
    (py_float : string -> option float) (header : list string) (cn : clade)
    (n : Z) (t : table) (raw : string) (t' : table) :
  process_line py_int py_float header cn n t raw = Ok t' ->
  let line := PyStr.split "009" (PyStr.strip raw) in
  exists chrom pos nchr afs,
    column header line "CHROM" = Ok chrom /\
    bind (column header line "POS") (parse_int py_int) = Ok pos /\
    bind (column header line "N_CHR") (parse_int py_int) = Ok nchr /\
    n <> 0 /\
    forall l c,
      record_at t' l c =
      if (key_eqb l (chrom, pos) && key_eqb c cn)%bool
      then Some (div (of_scaled nchr (-1)) (float_of_int n), afs)
      else record_at t l c.
Proof.
  unfold process_line. cbv zeta.
  destruct (column header _ "CHROM") as [chrom|]; simpl; [|discriminate].
  destruct (bind (column header _ "POS") _) as [pos|] eqn:P; simpl;
    [|discriminate].
  destruct (bind (column header _ "N_ALLELES") _) as [na|]; simpl;
    [|discriminate].
  destruct (bind (column header _ "N_CHR") _) as [nchr|] eqn:C; simpl;
    [|discriminate].
  unfold int_div_2. destruct (isfinite (of_scaled nchr (-1))); simpl;
    [|discriminate].
  destruct (read_allele_freqs py_float header _ na) as [afs|]; simpl;
    [|discriminate].
  unfold float_div_int. destruct (isfinite (float_of_int n)); simpl;
    [|discriminate].
  destruct (Z.eqb n 0) eqn:N; simpl; [discriminate|].
  intros E; inversion E; subst t'; clear E.
  exists chrom, pos, nchr, afs.
  split; [reflexivity|]. split; [reflexivity|]. split; [reflexivity|].
  split; [apply Z.eqb_neq; exact N|].
  intros l c. apply record_at_setdefault_set.
Qed.

(** X2. A data row that is processed stores, for its clade at its locus
    [(CHROM, POS)], the record whose genotyped fraction is
    [(N_CHR / 2) / n_indv], in the place of the record the table had there,
    if any; every other record of the table stays as it was. *)
Theorem process_line_record (py_int : string -> option Z)
    (py_float : string -> option float) (header : list string) (cn : clade)
    (n : Z) (t : table) (raw : string) (t' : table) :
  process_line py_int py_float header cn n t raw = Ok t' ->
  let line := PyStr.split "009" (PyStr.strip raw) in
  exists chrom pos nchr afs,
    column header line "CHROM" = Ok chrom /\
    bind (column header line "POS") (parse_int py_int) = Ok pos /\
    bind (column header line "N_CHR") (parse_int py_int) = Ok nchr /\
    n <> 0 /\
    forall l c,
      record_at t' l c =
      if (key_eqb l (chrom, pos) && key_eqb c cn)%bool
      then Some (div (of_scaled nchr (-1)) (float_of_int n), afs)
      else record_at t l c.
Proof.
  unfold process_line. cbv zeta.
  destruct (column header _ "CHROM") as [chrom|]; simpl; [|discriminate].
  destruct (bind (column header _ "POS") _) as [pos|] eqn:P; simpl;
    [|discriminate].
  destruct (bind (column header _ "N_ALLELES") _) as [na|]; simpl;
    [|discriminate].
  destruct (bind (column header _ "N_CHR") _) as [nchr|] eqn:C; simpl;
    [|discriminate].
  unfold int_div_2. destruct (isfinite (of_scaled nchr (-1))); simpl;
    [|discriminate].
  destruct (read_allele_freqs py_float header _ na) as [afs|]; simpl;
    [|discriminate].
  unfold float_div_int. destruct (isfinite (float_of_int n)); simpl;
    [|discriminate].
  destruct (Z.eqb n 0) eqn:N; simpl; [discriminate|].
  intros E; inversion E; subst t'; clear E.
  exists chrom, pos, nchr, afs.
  split; [reflexivity|]. split; [reflexivity|]. split; [reflexivity|].
  split; [apply Z.eqb_neq; exact N|].
  intros l c. apply record_at_setdefault_set.
Qed.

Lemma process_line_record_witness :
  exists t',
    process_line Runtime.int_of_digits Runtime.float_of_decimal
      (PyStr.split "009" (PyStr.strip Example.header)) "B"%string 5
      Example.both_same
      (Example.row ["1"; "400"; "1"; "8"; "T:1"]%string) = Ok t' /\
    record_at t' ("1"%string, 400) "B"%string =
      Some (Example.flt "0.8", [("T"%string, one)]) /\
    record_at t' ("1"%string, 400) "A"%string =
      record_at Example.both_same ("1"%string, 400) "A"%string.
Proof.
  destruct (process_line Runtime.int_of_digits Runtime.float_of_decimal
              (PyStr.split "009" (PyStr.strip Example.header)) "B"%string 5
              Example.both_same
              (Example.row ["1"; "400"; "1"; "8"; "T:1"]%string))
    as [t'|e] eqn:E; [|vm_compute in E; discriminate].
  exists t'. split; [reflexivity|].
  pose proof (process_line_record _ _ _ _ _ _ _ E) as R.
  cbv zeta in R. destruct R as (chrom & pos & nchr & afs & C & P & N & _ & R).
  vm_compute in C. inversion C; subst chrom; clear C.
  vm_compute in P. inversion P; subst pos; clear P.
  vm_compute in N. inversion N; subst nchr; clear N.
  split.
  - rewrite R. simpl. f_equal. f_equal.
    pose proof (R ("1"%string, 400) "B"%string) as RB. simpl in RB.
    vm_compute in E. inversion E; subst t'. vm_compute in RB.
    inversion RB. reflexivity.
  - rewrite R. reflexivity.
Defined.

Lemma index_of_not_In x xs : ~ In x xs -> index_of x xs = Raise ValueError.
Proof.
  induction xs as [|y xs IH]; simpl; intros N; [reflexivity|].
  destruct (String.eqb_spec x y) as [->|_]; [destruct N; left; reflexivity|].
  rewrite IH; [reflexivity | intros I; apply N; right; exact I].
Qed.

Lemma for_each_app {A S : Type} (body : S -> A -> result S) xs ys : forall s,
  for_each body (xs ++ ys) s = bind (for_each body xs s) (for_each body ys).
Proof.
  induction xs as [|x xs IH]; intros s; simpl; [reflexivity|].
  destruct (body s x) as [s1|e]; simpl; [apply IH | reflexivity].
Qed.

Section HeaderFacts.

Variable py_int : string -> option Z.
Variable py_float : string -> option float.

Lemma process_line_without_column header cn n t raw name :
  In name required_columns -> ~ In name header ->
  exists e, process_line py_int py_float header cn n t raw = Raise e /\
            (name = "CHROM"%string -> e = ValueError).
Proof.
  intros I N. apply index_of_not_In in N.
  unfold process_line, read_allele_freqs, column. cbv zeta.
  unfold required_columns in I. simpl in I.
  destruct I as [<- | [<- | [<- | [<- | [<- | []]]]]]; rewrite N;
    repeat match goal with
           | |- exists e, Raise ?x = Raise e /\ _ =>
               exists x; split; [reflexivity | intros; reflexivity]
           | |- exists e, bind (Raise ?x) _ = Raise e /\ _ =>
               exists x; split; [reflexivity | intros; try reflexivity; discriminate]
           | |- exists e, bind (bind (Raise ?x) _) _ = Raise e /\ _ =>
               exists x; split; [reflexivity | intros; try reflexivity; discriminate]
           | |- exists e, bind ?r _ = Raise e /\ _ =>
               destruct r; simpl;
               [| eexists; split; [reflexivity | intros; discriminate]]
           end.
Qed.

End HeaderFacts.

(** X3. A data row read under a header that lacks one of the columns
    [CHROM], [POS], [N_ALLELES], [N_CHR] and [{ALLELE:FREQ}] is never
    stored: the row raises, and with [CHROM] lacking the exception is the
    [ValueError] of [header.index]. *)
Theorem process_line_missing_column (py_int : string -> option Z)
    (py_float : string -> option float) (header : list string) (cn : clade)
    (n : Z) (t : table) (raw name : string) :
  In name required_columns -> ~ In name header ->
  exists e, process_line py_int py_float header cn n t raw = Raise e /\
            (name = "CHROM"%string -> e = ValueError).
Proof.
  intros I N. apply index_of_not_In in N.
  unfold process_line, read_allele_freqs, column. cbv zeta.
  unfold required_columns in I. simpl in I.
  destruct I as [<- | [<- | [<- | [<- | [<- | []]]]]]; rewrite N;
    repeat match goal with
           | |- exists e, Raise ?x = Raise e /\ _ =>
               exists x; split; [reflexivity | intros; reflexivity]
           | |- exists e, bind (Raise ?x) _ = Raise e /\ _ =>
               exists x; split; [reflexivity | intros; try reflexivity; discriminate]
           | |- exists e, bind (bind (Raise ?x) _) _ = Raise e /\ _ =>
               exists x; split; [reflexivity | intros; try reflexivity; discriminate]
           | |- exists e, bind ?r _ = Raise e /\ _ =>
               destruct r; simpl;
               [| eexists; split; [reflexivity | intros; discriminate]]
           end.
Qed.

(** X4. [process_files] returns no table when a listed file with at least
    one data row has a header line that lacks one of the five columns. *)
Theorem process_files_missing_column (py_int : string -> option Z)
    (py_float : string -> option float) (file_list : list (frq_file * Z))
    (file : frq_file) (n : Z) (first row : string) (rows : list string)
    (name : string) :
  In (file, n) file_list ->
  lines file = first :: row :: rows ->
  In name required_columns ->
  ~ In name (PyStr.split "009" (PyStr.strip first)) ->
  exists e, process_files py_int py_float file_list = Raise e.
Proof.
  intros I L R N. unfold process_files.
  apply (@for_each_raises _ _ (process_file py_int py_float) file_list (file, n) I).
  intros s. unfold process_file. rewrite L. simpl.
  destruct (@process_line_without_column py_int py_float
              (PyStr.split "009" (PyStr.strip first))
              (clade_name (path file)) n s row name R N) as (e & E & _).
  rewrite E. simpl. exists e; reflexivity.
Qed.

Ltac not_in_list :=
  vm_compute;
  let H := fresh in
  intros H; repeat (destruct H as [H|H]; [discriminate H|]); exact H.

Lemma process_line_missing_column_witness :
  exists e,
    process_line Runtime.int_of_digits Runtime.float_of_decimal
      (PyStr.split "009" (PyStr.strip Cases.header_freq2)) "D"%string 5 []
      (Example.row ["1"; "100"; "2"; "10"; "1"; "0"]%string) = Raise e /\
    ("{ALLELE:FREQ}"%string = "CHROM"%string -> e = ValueError).
Proof.
  apply process_line_missing_column.
  - vm_compute. tauto.
  - not_in_list.
Defined.

Lemma process_files_missing_column_witness :
  exists e,
    Example.process [(Example.file_A, 5); (Cases.file_freq2, 5)] = Raise e.
Proof.
  apply (@process_files_missing_column Runtime.int_of_digits
           Runtime.float_of_decimal
           [(Example.file_A, 5); (Cases.file_freq2, 5)] Cases.file_freq2 5
           Cases.header_freq2
           (Example.row ["1"; "100"; "2"; "10"; "1"; "0"]%string) []
           "{ALLELE:FREQ}"%string).
  - right; left; reflexivity.
  - reflexivity.
  - vm_compute. tauto.
  - not_in_list.
Defined.

(** X5. A listed file that holds a header line and no data row adds
    nothing: the result, table or exception, is that of the list without
    the file, whatever its header and its number of individuals. *)
Theorem process_files_header_only (py_int : string -> option Z)
    (py_float : string -> option float) (before after : list (frq_file * Z))
    (file : frq_file) (n : Z) (first : string) :
  lines file = [first] ->
  process_files py_int py_float (before ++ (file, n) :: after) =
  process_files py_int py_float (before ++ after).
Proof.
  intros L. unfold process_files. rewrite !for_each_app.
  destruct (for_each (process_file py_int py_float) before []) as [t|e];
    simpl; [|reflexivity].
  rewrite L. reflexivity.
Qed.

Lemma process_files_header_only_witness :
  Example.process [(Example.file_A, 5); (Cases.file_header_only, 0);
                   (Example.file_B, 5)] =
  Example.process [(Example.file_A, 5); (Example.file_B, 5)].
Proof.
  apply (@process_files_header_only Runtime.int_of_digits
           Runtime.float_of_decimal [(Example.file_A, 5)]
           [(Example.file_B, 5)] Cases.file_header_only 0 Cases.header_freq2).
  reflexivity.
Defined.

(** X6. A listed file without any line makes [process_files] raise
    [IndexError] as soon as the files before it are read. *)
Theorem process_files_empty_file (py_int : string -> option Z)
    (py_float : string -> option float) (before after : list (frq_file * Z))
    (file : frq_file) (n : Z) (t : table) :
  lines file = [] ->
  process_files py_int py_float before = Ok t ->
  process_files py_int py_float (before ++ (file, n) :: after) =
  Raise IndexError.
Proof.
  intros L B. unfold process_files in *. rewrite for_each_app, B. simpl.
  rewrite L. reflexivity.
Qed.

Lemma process_files_empty_file_witness :
  Example.process [(Example.file_A, 5); (Cases.file_empty, 5);
                   (Example.file_B, 5)] = Raise IndexError.
Proof.
  destruct (Example.process [(Example.file_A, 5)]) as [t|e] eqn:E;
    [|vm_compute in E; discriminate].
  apply (@process_files_empty_file Runtime.int_of_digits
           Runtime.float_of_decimal [(Example.file_A, 5)]
           [(Example.file_B, 5)] Cases.file_empty 5 t).
  - reflexivity.
  - exact E.
Defined.

Lemma split_not_nil sep s : PyStr.split sep s <> [].
Proof.
  destruct s as [|c s]; simpl; [discriminate|].
  destruct (Ascii.eqb c sep); [discriminate|].
  destruct (PyStr.split sep s); discriminate.
Qed.

Lemma split_without sep s : has_char sep s = false -> PyStr.split sep s = [s].
Proof.
  induction s as [|c s IH]; simpl; [reflexivity|].
  rewrite Ascii.eqb_sym. destruct (Ascii.eqb c sep); simpl; [discriminate|].
  intros Hs. rewrite (IH Hs). reflexivity.
Qed.

Lemma split_last_field sep s name :
  has_char sep name = false ->
  PyStr.split sep (s ++ String sep name) = PyStr.split sep s ++ [name].
Proof.
  intros Hn. induction s as [|c s IH]; simpl.
  - rewrite Ascii.eqb_refl, (@split_without sep name Hn). reflexivity.
  - destruct (Ascii.eqb c sep); [rewrite IH; reflexivity|].
    rewrite IH. pose proof (split_not_nil sep s) as Ne.
    destruct (PyStr.split sep s) as [|w ws]; [destruct Ne; reflexivity|].
    reflexivity.
Qed.

Lemma has_char_app c s1 s2 :
  has_char c (s1 ++ s2) = (has_char c s1 || has_char c s2)%bool.
Proof.
  induction s1 as [|c1 s1 IH]; simpl; [reflexivity|].
  rewrite IH, orb_assoc. reflexivity.
Qed.

Lemma remove_frq_extension name :
  has_char "." name = false -> PyStr.remove ".frq" (name ++ ".frq") = name.
Proof.
  unfold PyStr.remove. induction name as [|c name IH]; [reflexivity|].
  cbn [has_char]. intros Hc. apply orb_false_iff in Hc. destruct Hc as [Hc Hn].
  change ((String c name ++ ".frq")%string)
    with (String c (name ++ ".frq")%string).
  cbn [PyStr.remove_from String.prefix].
  destruct (ascii_dec "." c) as [E|E].
  - subst c. rewrite Ascii.eqb_refl in Hc. discriminate.
  - rewrite (IH Hn). reflexivity.
Qed.

(** X7. The clade of a file is the base name of its path without the
    extension: for a base name that holds no slash and no dot,
    [dir/name.frq] and [name.frq] both give [name], so that two files of
    the same base name in different directories are one clade. *)
Theorem clade_name_base (dir name : string) :
  has_char "/" name = false -> has_char "." name = false ->
  clade_name (dir ++ "/" ++ name ++ ".frq") = name /\
  clade_name (name ++ ".frq") = name.
Proof.
  intros Hs Hd. unfold clade_name.
  assert (Hf : has_char "/" (name ++ ".frq") = false).
  { rewrite has_char_app, Hs. reflexivity. }
  split.
  - change (dir ++ "/" ++ name ++ ".frq")%string
      with (dir ++ String "/" (name ++ ".frq"))%string.
    rewrite (@split_last_field "/" dir _ Hf), last_last.
    apply remove_frq_extension; exact Hd.
  - rewrite (@split_without "/" _ Hf). simpl last.
    apply remove_frq_extension; exact Hd.
Qed.

Lemma clade_name_base_witness :
  clade_name "run1/data/north.frq" = "north"%string /\
  clade_name "north.frq" = "north"%string.
Proof.
  apply (@clade_name_base "run1/data" "north"); reflexivity.
Defined.

Lemma cell_of_functional py_float line first j a x a' x' :
  cell_of py_float line first j a x -> cell_of py_float line first j a' x' ->
  a = a' /\ x = x'.
Proof.
  intros (fd & f & N & S & F) (fd' & f' & N' & S' & F').
  rewrite N in N'. inversion N'; subst fd'. rewrite S in S'.
  inversion S'; subst a' f'. rewrite F in F'. inversion F'; auto.
Qed.

Lemma read_cells py_float line first k : forall afs,
  for_each
    (fun (afs : allele_freqs) j =>
       field <- item line (first + j)%nat ;;
       match PyStr.split ":" field with
       | [a; f] => x <- parse_float py_float f ;; Ok (set a x afs)
       | _ => Raise ValueError
       end)
    (seq 0 k) [] = Ok afs ->
  (forall j, (j < k)%nat -> exists a x, cell_of py_float line first j a x) /\
  (forall a x,
     get a afs = Some x <->
     exists j, (j < k)%nat /\ cell_of py_float line first j a x /\
               forall j' x', (j < j' < k)%nat ->
                             ~ cell_of py_float line first j' a x').
Proof.
  induction k as [|k IH]; intros afs.
  - simpl. intros E; inversion E; subst afs. split; [intros j L; lia|].
    intros a x; split; [discriminate | intros (j & L & _); lia].
  - rewrite seq_S, for_each_app. simpl.
    match goal with
    | |- bind ?r _ = _ -> _ => destruct r as [s|e] eqn:Es
    end; simpl; [|discriminate].
    destruct (IH s eq_refl) as [All Get].
    unfold item. destruct (nth_error line (first + k)) as [field|] eqn:N;
      simpl; [|discriminate].
    destruct (PyStr.split ":" field) as [|a0 [|f [|? ?]]] eqn:Sp;
      try discriminate.
    unfold parse_float. destruct (py_float f) as [x0|] eqn:F; simpl;
      [|discriminate].
    intros E; inversion E; subst afs; clear E.
    assert (C0 : cell_of py_float line first k a0 x0).
    { exists field, f. auto. }
    split.
    + intros j L. destruct (Nat.eq_dec j k) as [->|Nk].
      * exists a0, x0; exact C0.
      * apply All; lia.
    + intros a x. rewrite get_set.
      destruct (key_eqb_case a a0) as [[-> ->] | [Na ->]]; split.
      * intros E; inversion E; subst x. exists k.
        split; [lia|]. split; [exact C0 | intros; lia].
      * intros (j & L & C & Later).
        destruct (Nat.eq_dec j k) as [->|Nk].
        -- destruct (cell_of_functional C C0) as [_ ->]. reflexivity.
        -- exfalso. apply (Later k x0); [lia | exact C0].
      * intros G. apply Get in G. destruct G as (j & L & C & Later).
        exists j. split; [lia|]. split; [exact C|].
        intros j' x' L' C'. destruct (Nat.eq_dec j' k) as [->|Nk].
        -- destruct (cell_of_functional C' C0) as [Ea _]. contradiction.
        -- apply (Later j' x'); [lia | exact C'].
      * intros (j & L & C & Later).
        destruct (Nat.eq_dec j k) as [->|Nk].
        -- destruct (cell_of_functional C C0) as [Ea _]. contradiction.
        -- apply Get. exists j. split; [lia|]. split; [exact C|].
           intros j' x' L'. apply Later; lia.
Qed.

(** X8. The frequency dict read from a row: every one of the first
    [N_ALLELES] cells from the [{ALLELE:FREQ}] column on reads as
    [allele:frequency], and an allele has the frequency of the last of
    these cells that names it. *)
Theorem read_allele_freqs_cells (py_float : string -> option float)
    (header line : list string) (n : Z) (afs : allele_freqs) :
  read_allele_freqs py_float header line n = Ok afs ->
  exists first,
    index_of "{ALLELE:FREQ}" header = Ok first /\
    (forall j, (j < Z.to_nat n)%nat ->
               exists a x, cell_of py_float line first j a x) /\
    (forall a x,
       get a afs = Some x <->
       exists j, (j < Z.to_nat n)%nat /\ cell_of py_float line first j a x /\
                 forall j' x', (j < j' < Z.to_nat n)%nat ->
                               ~ cell_of py_float line first j' a x').
Proof.
  unfold read_allele_freqs.
  destruct (index_of "{ALLELE:FREQ}" header) as [first|]; simpl;
    [|discriminate].
  intros E. exists first. split; [reflexivity|].
  apply read_cells; exact E.
Qed.

Lemma read_allele_freqs_cells_witness :
  exists afs,
    read_allele_freqs Runtime.float_of_decimal
      ["CHROM"; "POS"; "N_ALLELES"; "N_CHR"; "{ALLELE:FREQ}"]%string
      ["1"; "100"; "3"; "10"; "A:0.5"; "T:0.25"; "A:0.25"]%string 3 = Ok afs /\
    get "A"%string afs = Some (Example.flt "0.25").
Proof.
  destruct (read_allele_freqs Runtime.float_of_decimal
      ["CHROM"; "POS"; "N_ALLELES"; "N_CHR"; "{ALLELE:FREQ}"]%string
      ["1"; "100"; "3"; "10"; "A:0.5"; "T:0.25"; "A:0.25"]%string 3)
    as [afs|e] eqn:E; [|vm_compute in E; discriminate].
  exists afs. split; [reflexivity|].
  destruct (read_allele_freqs_cells _ _ _ _ E) as (first & F & _ & G).
  vm_compute in F. inversion F; subst first; clear F.
  apply G. exists 2%nat. split; [vm_compute; lia|].
  split.
  - exists "A:0.25"%string, "0.25"%string.
    split; [reflexivity|]. split; reflexivity.
  - intros j' x' L. vm_compute in L. lia.
Defined.

Section CladeFacts.

Variable py_int : string -> option Z.
Variable py_float : string -> option float.

Lemma process_files_records (file_list : list (frq_file * Z)) (t : table) :
  process_files py_int py_float file_list = Ok t ->
  forall l c r, record_at t l c = Some r -> In c (clade_names file_list).
Proof.
  unfold process_files.
  apply (for_each_invariant
           (fun t : table => forall l c r, record_at t l c = Some r ->
                                           In c (clade_names file_list))).
  - intros s [file n] s' I Ps. unfold process_file.
    destruct (item (lines file) 0) as [first|]; simpl; [|discriminate].
    apply (for_each_invariant
             (fun t : table => forall l c r, record_at t l c = Some r ->
                                             In c (clade_names file_list)));
      [|exact Ps].
    intros u raw u' _ Pu E l c r R.
    destruct (process_line_stores _ _ _ _ _ _ _ E)
      as (chrom & pos & nchr & afs & _ & _ & _ & _ & G).
    rewrite G in R.
    destruct (key_eqb l (chrom, pos)); cbn [andb] in R; [|exact (Pu l c r R)].
    destruct (key_eqb_case c (clade_name (path file))) as [[-> _] | [_ Ec]].
    + unfold clade_names. apply in_map_iff. exists (file, n). auto.
    + rewrite Ec in R. exact (Pu l c r R).
  - intros l c r R. discriminate R.
Qed.

Lemma process_files_clade_count (file_list : list (frq_file * Z)) (t : table)
    l cd :
  process_files py_int py_float file_list = Ok t ->
  In (l, cd) t ->
  incl (keys cd) (clade_names file_list) /\
  (List.length cd <= List.length file_list)%nat.
Proof.
  intros E I. pose proof (process_files_wf _ _ _ E) as [Wt Wc].
  destruct (Wc l cd I) as [Wcd _].
  assert (Inc : incl (keys cd) (clade_names file_list)).
  { intros c J. unfold keys in J. apply in_map_iff in J.
    destruct J as ([c' r] & <- & J). simpl.
    apply (@process_files_records file_list t E l c' r).
    unfold record_at.
    assert (G : get l t = Some cd) by (apply In_get; assumption).
    match goal with
    | |- match ?g with Some _ => _ | None => _ end = _ =>
        replace g with (Some cd) by (symmetry; exact G)
    end.
    apply In_get; assumption. }
  split; [exact Inc|].
  pose proof (NoDup_incl_length Wcd Inc) as L.
  unfold keys, clade_names in L. rewrite !length_map in L. exact L.
Qed.

End CladeFacts.

Lemma genotyped_missing_length (cd : clade_data) :
  (List.length (genotyped_clades cd) + List.length (missing_clades cd)
   <= List.length cd)%nat.
Proof.
  unfold genotyped_clades, missing_clades. rewrite !length_map.
  induction cd as [|[c [pg afs]] cd IH]; simpl; [lia|].
  destruct (gtb pg zero) eqn:G.
  - assert (E : eqb pg zero = false).
    { apply (@FloatOrder.ltb_not_eqb zero pg zero); [exact G | reflexivity]. }
    rewrite E. simpl. lia.
  - destruct (eqb pg zero); simpl; lia.
Qed.

(** X9. The clades of a locus of the table come from the listed files:
    each is the clade name of a file, and a locus has at most as many
    clades as files are listed. *)
Theorem process_files_clades (py_int : string -> option Z)
    (py_float : string -> option float) (file_list : list (frq_file * Z))
    (t : table) (l : locus) (cd : clade_data) :
  process_files py_int py_float file_list = Ok t ->
  In (l, cd) t ->
  incl (keys cd) (clade_names file_list) /\
  (List.length cd <= List.length file_list)%nat.
Proof.
  intros E I. pose proof (process_files_wf _ _ _ E) as [Wt Wc].
  destruct (Wc l cd I) as [Wcd _].
  assert (Inc : incl (keys cd) (clade_names file_list)).
  { intros c J. unfold keys in J. apply in_map_iff in J.
    destruct J as ([c' r] & <- & J). simpl.
    apply (@process_files_records py_int py_float file_list t E l c' r).
    unfold record_at.
    assert (G : get l t = Some cd) by (apply In_get; assumption).
    match goal with
    | |- match ?g with Some _ => _ | None => _ end = _ =>
        replace g with (Some cd) by (symmetry; exact G)
    end.
    apply In_get; assumption. }
  split; [exact Inc|].
  pose proof (NoDup_incl_length Wcd Inc) as L.
  unfold keys, clade_names in L. rewrite !length_map in L. exact L.
Qed.

Lemma process_files_clades_witness :
  incl (keys [("A"%string, (one, [("A"%string, one); ("T"%string, zero)]));
              ("B"%string, (one, [("A"%string, zero); ("T"%string, one)]))])
    (clade_names [(Example.file_A, 5); (Example.file_B, 5)]) /\
  (2 <= 2)%nat.
Proof.
  destruct (Example.process [(Example.file_A, 5); (Example.file_B, 5)])
    as [t|e] eqn:E; [|vm_compute in E; discriminate].
  refine (@process_files_clades Runtime.int_of_digits Runtime.float_of_decimal
            [(Example.file_A, 5); (Example.file_B, 5)] t ("1"%string, 100)
            [("A"%string, (one, [("A"%string, one); ("T"%string, zero)]));
             ("B"%string, (one, [("A"%string, zero); ("T"%string, one)]))]
            E _).
  vm_compute in E. inversion E. left. reflexivity.
Defined.

(** X10. With at most two listed files no locus is uniquely missing: the
    dict that [main] writes only for more than two files is empty
    otherwise. *)
Theorem two_files_no_uniquely_missing (py_int : string -> option Z)
    (py_float : string -> option float) (file_list : list (frq_file * Z))
    (t : table) :
  (List.length file_list <= 2)%nat ->
  process_files py_int py_float file_list = Ok t ->
  snd (find_private_sites t) = [].
Proof.
  intros L E. unfold find_private_sites.
  rewrite find_private_sites_collect. simpl.
  destruct (fold_left (collect uniquely_missing_of) t []) as [|[l g] rest] eqn:F;
    [reflexivity|].
  exfalso.
  assert (J : In g (values (fold_left (collect uniquely_missing_of) t []))).
  { rewrite F. left; reflexivity. }
  apply values_collect in J. destruct J as [[] | (l' & cd & I & U)].
  destruct (process_files_clade_count _ _ _ _ _ E I) as [_ Len].
  unfold uniquely_missing_of in U.
  destruct (Nat.ltb 1 (List.length (genotyped_clades cd))) eqn:G1;
    simpl in U; [|discriminate].
  destruct (Nat.eqb (List.length (missing_clades cd)) 1) eqn:M1;
    [|discriminate].
  apply Nat.ltb_lt in G1. apply Nat.eqb_eq in M1.
  pose proof (genotyped_missing_length cd). lia.
Qed.

Lemma two_files_no_uniquely_missing_witness :
  exists t,
    Example.process [(Example.file_A, 5); (Example.file_C, 5)] = Ok t /\
    snd (find_private_sites t) = [].
Proof.
  destruct (Example.process [(Example.file_A, 5); (Example.file_C, 5)])
    as [t|e] eqn:E; [|vm_compute in E; discriminate].
  exists t. split; [reflexivity|].
  apply (@two_files_no_uniquely_missing Runtime.int_of_digits
           Runtime.float_of_decimal
           [(Example.file_A, 5); (Example.file_C, 5)] t); [simpl; lia | exact E].
Defined.

Section SelectedFacts.
Context {K V W : Type} `{KeyOk K}.
Variable f : K -> V -> option W.

Lemma fold_collect_selected (d : dict K V) : forall acc,
  wf d -> (forall k, In k (keys acc) -> ~ In k (keys d)) ->
  fold_left (collect f) d acc = acc ++ selected f d.
Proof.
  induction d as [|[k v] d IH]; intros acc Wd Dis; simpl.
  - rewrite app_nil_r. reflexivity.
  - unfold wf in Wd. simpl in Wd. inversion Wd as [|? ? Nk Wd']; subst.
    unfold collect at 2. simpl.
    destruct (f k v) as [w|].
    + rewrite set_new.
      * rewrite IH; [rewrite <- app_assoc; reflexivity | exact Wd' |].
        intros k' I. unfold keys in I. rewrite map_app in I.
        apply in_app_or in I. destruct I as [I | [<- | []]].
        -- intros J. apply (Dis k' I). right; exact J.
        -- exact Nk.
      * intros I. apply (Dis k I). left; reflexivity.
    + rewrite IH; [reflexivity | exact Wd' |].
      intros k' I J. apply (Dis k' I). right; exact J.
Qed.

Lemma fold_collect_selected_nil (d : dict K V) :
  wf d -> fold_left (collect f) d [] = selected f d.
Proof.
  intros Wd. rewrite fold_collect_selected; [reflexivity | exact Wd |].
  intros k [].
Qed.

End SelectedFacts.

Lemma selected_filter {K V : Type} (f : K -> V -> option V)
    (p : K * V -> bool) (d : dict K V) :
  (forall k v, f k v = if p (k, v) then Some v else None) ->
  selected f d = filter p d.
Proof.
  intros E. induction d as [|[k v] d IH]; simpl; [reflexivity|].
  rewrite E. destruct (p (k, v)); simpl; rewrite IH; reflexivity.
Qed.

Lemma classifiers_table_order (set_iter : list allele -> list allele)
    (t : table) (error_tolerance : float) :
  wf t ->
  identify_private_alleles t error_tolerance =
    selected (private_at error_tolerance) t /\
  find_private_sites t =
    (selected private_site_of t, selected uniquely_missing_of t) /\
  compute_divergence_scores set_iter t =
    Ok (selected (divergence_of set_iter) t).
Proof.
  intros Wt. split; [|split].
  - rewrite identify_private_alleles_collect.
    apply fold_collect_selected_nil; exact Wt.
  - unfold find_private_sites. rewrite find_private_sites_collect.
    rewrite !fold_collect_selected_nil by exact Wt. reflexivity.
  - unfold compute_divergence_scores.
    rewrite compute_divergence_scores_collect.
    rewrite fold_collect_selected_nil by exact Wt. reflexivity.
Qed.

(** X11. The outputs of [identify_private_alleles], [find_private_sites]
    and [compute_divergence_scores] list their loci in the order of the
    table, each with what the loop body assigns to it; no locus is
    assigned twice, and [compute_divergence_scores] never raises. *)
Theorem classifiers_in_table_order (set_iter : list allele -> list allele)
    (t : table) (error_tolerance : float) :
  wf t ->
  identify_private_alleles t error_tolerance =
    selected (private_at error_tolerance) t /\
  find_private_sites t =
    (selected private_site_of t, selected uniquely_missing_of t) /\
  compute_divergence_scores set_iter t =
    Ok (selected (divergence_of set_iter) t).
Proof.
  intros Wt. split; [|split].
  - rewrite identify_private_alleles_collect.
    apply fold_collect_selected_nil; exact Wt.
  - unfold find_private_sites. rewrite find_private_sites_collect.
    rewrite !fold_collect_selected_nil by exact Wt. reflexivity.
  - unfold compute_divergence_scores.
    rewrite compute_divergence_scores_collect.
    rewrite fold_collect_selected_nil by exact Wt. reflexivity.
Qed.

Lemma classifiers_in_table_order_witness :
  identify_private_alleles Example.all_alleles zero =
    selected (private_at zero) Example.all_alleles /\
  find_private_sites Example.all_alleles =
    (selected private_site_of Example.all_alleles,
     selected uniquely_missing_of Example.all_alleles) /\
  compute_divergence_scores Runtime.set_order Example.all_alleles =
    Ok (selected (divergence_of Runtime.set_order) Example.all_alleles).
Proof.
  apply classifiers_in_table_order. exact (proj1 example_table_wf).
Defined.

Section AppendOrder.
Context {K X : Type} `{KeyOk K}.

Lemma setdefault_append_new (l : K) (x : X) (d : dict K (list X)) :
  ~ In l (keys d) -> setdefault_append l x d = d ++ [(l, [x])].
Proof.
  induction d as [|[k xs] d IH]; simpl; intros N; [reflexivity|].
  destruct (key_eqb_case l k) as [[-> _] | [_ ->]].
  - destruct N; left; reflexivity.
  - rewrite IH; [reflexivity | intros I; apply N; right; exact I].
Qed.

Lemma setdefault_append_last (l : K) (x : X) es (d : dict K (list X)) :
  ~ In l (keys d) ->
  setdefault_append l x (d ++ [(l, es)]) = d ++ [(l, es ++ [x])].
Proof.
  induction d as [|[k xs] d IH]; simpl; intros N.
  - rewrite key_eqb_refl. reflexivity.
  - destruct (key_eqb_case l k) as [[-> _] | [_ ->]].
    + destruct N; left; reflexivity.
    + rewrite IH; [reflexivity | intros I; apply N; right; exact I].
Qed.

End AppendOrder.

Section FixedOrder.

Variables miss_tolerance error_tolerance : float.

Lemma setdefault_append_filed l x es base :
  ~ In l (keys base) ->
  setdefault_append l x (filed l es base) = filed l (es ++ [x]) base.
Proof.
  intros N. unfold filed. destruct es as [|e es]; simpl.
  - apply setdefault_append_new; exact N.
  - rewrite setdefault_append_last by exact N. reflexivity.
Qed.

Lemma record_if_fixed_filed l base (cd : clade_data) : forall es acc,
  ~ In l (keys base) ->
  for_each (record_if_fixed miss_tolerance error_tolerance l) cd
    (filed l es base) = Ok acc ->
  acc = filed l (es ++ fixed_entries_of miss_tolerance error_tolerance cd) base.
Proof.
  induction cd as [|[c r] cd IH]; intros es acc N; simpl.
  - rewrite app_nil_r. intros E; inversion E; reflexivity.
  - destruct (is_fixed miss_tolerance error_tolerance r) as [[|]|e];
      simpl; [| |discriminate].
    + rewrite setdefault_append_filed by exact N. intros E.
      rewrite (IH _ _ N E), <- app_assoc. reflexivity.
    + intros E. rewrite (IH _ _ N E). reflexivity.
Qed.

Lemma identify_fixed_selected (t : table) : forall acc out,
  wf t -> (forall k, In k (keys acc) -> ~ In k (keys t)) ->
  for_each (record_fixed_at miss_tolerance error_tolerance) t acc = Ok out ->
  out = acc ++ selected (fixed_at miss_tolerance error_tolerance) t.
Proof.
  induction t as [|[l cd] t IH]; intros acc out Wt Dis; simpl.
  - rewrite app_nil_r. intros E; inversion E; reflexivity.
  - unfold wf in Wt. simpl in Wt. inversion Wt as [|? ? Nl Wt']; subst.
    assert (N : ~ In l (keys acc)).
    { intros I. apply (Dis l I). left; reflexivity. }
    destruct (for_each (record_if_fixed miss_tolerance error_tolerance l) cd acc)
      as [acc1|e] eqn:E1; simpl; [|discriminate].
    apply (@record_if_fixed_filed l acc cd [] acc1 N) in E1. simpl in E1.
    intros E. apply IH in E; [|exact Wt'|].
    + subst out acc1. unfold fixed_at, filed.
      destruct (fixed_entries_of miss_tolerance error_tolerance cd);
        [reflexivity | rewrite <- app_assoc; reflexivity].
    + subst acc1. unfold filed. intros k I.
      destruct (fixed_entries_of miss_tolerance error_tolerance cd).
      * intros J. apply (Dis k I). right; exact J.
      * unfold keys in I. rewrite map_app in I. apply in_app_or in I.
        destruct I as [I | [<- | []]]; [|exact Nl].
        intros J. apply (Dis k I). right; exact J.
Qed.

End FixedOrder.

(** X12. The output of [identify_fixed_alleles], when it returns, lists in
    the order of the table the loci that have a clade passing the test,
    each with the entries of its passing clades in the order of the
    clades. *)
Theorem identify_fixed_alleles_in_table_order (t : table)
    (miss_tolerance error_tolerance : float) (out : fixed_map) :
  wf t ->
  identify_fixed_alleles t miss_tolerance error_tolerance = Ok out ->
  out = selected (fixed_at miss_tolerance error_tolerance) t.
Proof.
  intros Wt E. unfold identify_fixed_alleles in E.
  apply identify_fixed_selected in E; [exact E | exact Wt | intros k []].
Qed.

Lemma identify_fixed_alleles_in_table_order_witness :
  Example.fixed_alleles = selected (fixed_at one zero) Example.all_alleles.
Proof.
  apply identify_fixed_alleles_in_table_order.
  - exact (proj1 example_table_wf).
  - vm_compute. reflexivity.
Defined.

Lemma find_unique_filter (fm out : fixed_map) :
  wf fm -> find_unique_fixed_alleles fm = Ok out ->
  out = filter (fun it => is_unique (snd it)) fm.
Proof.
  intros W E. rewrite find_unique_fixed_alleles_collect in E.
  pose proof (for_each_collect_r unique_of fm []) as L. rewrite E in L.
  destruct L as [-> _]. rewrite fold_collect_selected_nil by exact W.
  apply selected_filter. intros l cd. unfold chosen, unique_of, is_unique.
  simpl. destruct (fixed_alleles_per_clade cd); reflexivity.
Qed.

(** X13. The output of [find_unique_fixed_alleles], when it returns, is
    its input without the loci that fail the test of lines 60-65: the loci
    kept are in the order of the input and keep their entries. *)
Theorem find_unique_fixed_alleles_filter (fm out : fixed_map) :
  wf fm -> find_unique_fixed_alleles fm = Ok out ->
  out = filter (fun it => is_unique (snd it)) fm.
Proof.
  intros W E. rewrite find_unique_fixed_alleles_collect in E.
  pose proof (for_each_collect_r unique_of fm []) as L. rewrite E in L.
  destruct L as [-> _]. rewrite fold_collect_selected_nil by exact W.
  apply selected_filter. intros l cd. unfold chosen, unique_of, is_unique.
  simpl. destruct (fixed_alleles_per_clade cd); reflexivity.
Qed.

Lemma find_unique_fixed_alleles_filter_witness :
  exists out,
    find_unique_fixed_alleles Example.fixed_alleles = Ok out /\
    out = filter (fun it => is_unique (snd it)) Example.fixed_alleles.
Proof.
  destruct (find_unique_fixed_alleles Example.fixed_alleles) as [out|e] eqn:E;
    [|vm_compute in E; discriminate].
  exists out. split; [reflexivity|].
  apply find_unique_fixed_alleles_filter; [|exact E].
  apply distinctb_NoDup. reflexivity.
Defined.

(** X14. [find_unique_fixed_alleles] does not raise on a map that
    [identify_fixed_alleles] returned, and keeps a part of it. *)
Theorem unique_of_identified (t : table)
    (miss_tolerance error_tolerance : float) (fm : fixed_map) :
  identify_fixed_alleles t miss_tolerance error_tolerance = Ok fm ->
  exists out,
    find_unique_fixed_alleles fm = Ok out /\
    out = filter (fun it => is_unique (snd it)) fm.
Proof.
  intros E. apply identify_fixed_alleles_entries in E. destruct E as [W Ne].
  pose proof (find_unique_fixed_alleles_cases W) as C.
  destruct (find_unique_fixed_alleles fm) as [out|e] eqn:F.
  - exists out. split; [reflexivity | apply find_unique_filter; assumption].
  - destruct C as (_ & l & cd & c & I & J). destruct (Ne l cd c [] I J).
    reflexivity.
Qed.

Lemma unique_of_identified_witness :
  exists out,
    find_unique_fixed_alleles Example.fixed_alleles = Ok out /\
    out = filter (fun it => is_unique (snd it)) Example.fixed_alleles.
Proof.
  apply (@unique_of_identified Example.all_alleles one zero).
  vm_compute. reflexivity.
Defined.

Lemma reported_private (t : table) (error_tolerance : float) l c a i :
  wf_table t ->
  reported (identify_private_alleles t error_tolerance) l c a i ->
  exists cd pg afs,
    get l t = Some cd /\ all_genotyped_no_nan cd /\
    get c cd = Some (pg, afs) /\
    get a afs = Some (freq i) /\ perc_genotyped i = pg /\
    gtb (freq i) error_tolerance = true /\
    ~ In a (other_clades_alleles error_tolerance c cd).
Proof.
  intros [Wt Wcd]. rewrite identify_private_alleles_collect.
  intros (at_pos & ps & Gl & Gc & Ga).
  rewrite (get_collect _ Wt) in Gl. simpl in Gl.
  destruct (get l t) as [cd|] eqn:Gt; [|discriminate].
  assert (P0 : private_at error_tolerance l cd = Some at_pos)
    by (destruct (private_at error_tolerance l cd); congruence).
  clear Gl. apply private_at_some in P0. destruct P0 as (C & -> & _).
  apply missing_or_nan_false in C.
  destruct (Wcd l cd (get_In _ _ Gt)) as [Wc Wa].
  rewrite private_alleles_at_pos_collect, (get_collect _ Wc) in Gc.
  simpl in Gc. destruct (get c cd) as [[pg afs]|] eqn:Gcd; [|discriminate].
  assert (P : private_of error_tolerance cd c (pg, afs) = Some ps)
    by (destruct (private_of error_tolerance cd c (pg, afs)); congruence).
  unfold private_of in P.
  assert (E : ps = private_alleles_set error_tolerance c (pg, afs) cd).
  { destruct (private_alleles_set error_tolerance c (pg, afs) cd);
      [discriminate | congruence]. }
  subst ps. clear P Gc.
  pose proof (Wa c pg afs (get_In _ _ Gcd)) as Wafs.
  apply (@get_private_alleles_set error_tolerance c pg afs cd a i Wafs) in Ga.
  destruct Ga as (Ga & Ep & Gf & Not).
  exists cd, pg, afs. auto 10.
Qed.

(** X15. At a locus an allele is reported as private to at most one
    clade. *)
Theorem private_to_one_clade (t : table) (error_tolerance : float)
    (l : locus) (c c' : clade) (a : allele) (i i' : private_info) :
  wf_table t ->
  reported (identify_private_alleles t error_tolerance) l c a i ->
  reported (identify_private_alleles t error_tolerance) l c' a i' ->
  c = c'.
Proof.
  intros W R R'.
  destruct (@reported_private _ _ _ _ _ _ W R)
    as (cd & pg & afs & Gt & _ & Gc & Ga & _ & Gf & Not).
  destruct (@reported_private _ _ _ _ _ _ W R')
    as (cd' & pg' & afs' & Gt' & _ & Gc' & Ga' & _ & Gf' & _).
  assert (Ecd : cd' = cd) by congruence. subst cd'.
  destruct (string_dec c c') as [E|N]; [exact E|].
  exfalso. apply Not. apply In_other_clades_alleles.
  exists c', pg', afs', (freq i').
  split; [apply get_In; exact Gc'|]. split; [congruence|].
  split; [apply get_In; exact Ga' | exact Gf'].
Qed.

Lemma private_to_one_clade_witness :
  wf_table Example.all_alleles /\
  reported (identify_private_alleles Example.all_alleles zero)
    ("1"%string, 100) "B"%string "T"%string
    {| freq := one; perc_genotyped := one |} /\
  "B"%string = "B"%string.
Proof.
  assert (R : reported (identify_private_alleles Example.all_alleles zero)
                ("1"%string, 100) "B"%string "T"%string
                {| freq := one; perc_genotyped := one |}).
  { eexists _, _. split; [vm_compute; reflexivity|].
    split; [vm_compute; reflexivity | vm_compute; reflexivity]. }
  split; [exact example_table_wf|]. split; [exact R|].
  exact (@private_to_one_clade Example.all_alleles zero ("1"%string, 100)
           "B"%string "B"%string "T"%string _ _ example_table_wf R R).
Defined.

Lemma missing_clade_skipped (cd : clade_data) :
  missing_clades cd <> [] -> existsb missing_or_nan (values cd) = true.
Proof.
  unfold missing_clades, values. induction cd as [|[c [pg afs]] cd IH]; simpl.
  - intros N; destruct N; reflexivity.
  - unfold missing_or_nan at 1. simpl. destruct (eqb pg zero); simpl.
    + reflexivity.
    + intros N. rewrite (IH N). apply orb_true_r.
Qed.

(** X16. A locus that [find_private_sites] reports, as a private site or
    as a uniquely missing site, has no private allele in the output of
    [identify_private_alleles]: a clade with [perc_genotyped == 0] makes
    the latter skip the locus. *)
Theorem private_sites_without_private_alleles (t : table)
    (error_tolerance : float) (l : locus) :
  wf t ->
  get l (fst (find_private_sites t)) <> None \/
  get l (snd (find_private_sites t)) <> None ->
  get l (identify_private_alleles t error_tolerance) = None.
Proof.
  intros Wt. unfold find_private_sites.
  rewrite find_private_sites_collect, identify_private_alleles_collect.
  simpl. rewrite !(get_collect _ Wt). simpl.
  destruct (get l t) as [cd|]; [|intros [N|N]; destruct N; reflexivity].
  intros Rep.
  assert (M : missing_clades cd <> []).
  { destruct Rep as [N|N].
    - unfold private_site_of in N.
      destruct (genotyped_clades cd) as [|first [|? ?]];
        try (destruct N; reflexivity).
      destruct (missing_clades cd); [destruct N; reflexivity | discriminate].
    - unfold uniquely_missing_of in N.
      destruct (missing_clades cd); [|discriminate].
      rewrite andb_false_r in N. destruct N; reflexivity. }
  unfold private_at. rewrite (missing_clade_skipped _ M). reflexivity.
Qed.

Lemma private_sites_without_private_alleles_witness :
  get ("1"%string, 200) (identify_private_alleles Example.all_alleles zero)
  = None.
Proof.
  apply private_sites_without_private_alleles.
  - exact (proj1 example_table_wf).
  - right. vm_compute. discriminate.
Defined.

Lemma for_each_ok_In {A S : Type} (body : S -> A -> result S) xs x :
  In x xs -> forall s s', for_each body xs s = Ok s' ->
  exists s1 s2, body s1 x = Ok s2.
Proof.
  intros I. induction xs as [|y xs IH]; [destruct I|]. intros s s'; simpl.
  destruct (body s y) as [s1|e] eqn:B; simpl; [|discriminate].
  destruct I as [-> | I].
  - intros _. exists s, s1. exact B.
  - apply IH; exact I.
Qed.

Lemma identify_fixed_alleles_ok (t : table) (miss_tolerance error_tolerance : float)
    (out : fixed_map) l cd c pg :
  identify_fixed_alleles t miss_tolerance error_tolerance = Ok out ->
  In (l, cd) t -> In (c, (pg, [])) cd -> geb pg miss_tolerance = false.
Proof.
  unfold identify_fixed_alleles. intros E I J.
  destruct (for_each_ok_In _ _ _ I _ E) as (s1 & s2 & B). simpl in B.
  destruct (for_each_ok_In _ _ _ J _ B) as (s3 & s4 & B'). simpl in B'.
  destruct (geb pg miss_tolerance); [discriminate | reflexivity].
Qed.

(** X17. Raising [miss_tolerance] only removes fixed alleles: when
    [identify_fixed_alleles] returns for a tolerance, it returns for every
    greater tolerance, with entries that are entries of the former
    result. *)
Theorem identify_fixed_alleles_monotone (t : table)
    (miss_tolerance miss_tolerance' error_tolerance : float)
    (out : fixed_map) :
  leb miss_tolerance miss_tolerance' = true ->
  identify_fixed_alleles t miss_tolerance error_tolerance = Ok out ->
  exists out',
    identify_fixed_alleles t miss_tolerance' error_tolerance = Ok out' /\
    forall l x, entry out' l x -> entry out l x.
Proof.
  intros L E.
  assert (G : forall pg, geb pg miss_tolerance' = true ->
                         geb pg miss_tolerance = true).
  { intros pg H. unfold geb in *. eapply FloatOrder.leb_trans; eassumption. }
  pose proof (identify_fixed_alleles_cases t miss_tolerance' error_tolerance) as C'.
  destruct (identify_fixed_alleles t miss_tolerance' error_tolerance)
    as [out'|e].
  - exists out'. split; [reflexivity|]. intros l [c afs] En.
    pose proof (identify_fixed_alleles_cases t miss_tolerance error_tolerance) as C.
    rewrite E in C. destruct C as [_ C]. destruct C' as [_ C'].
    apply C. apply C' in En.
    destruct En as (cd & pg & I & J & Gp & M). exists cd, pg. auto.
  - exfalso. destruct C' as (_ & l & cd & c & pg & I & J & Gp).
    pose proof (G pg Gp) as Gm.
    rewrite (@identify_fixed_alleles_ok t miss_tolerance error_tolerance out
               l cd c pg E I J) in Gm.
    discriminate Gm.
Qed.

Lemma identify_fixed_alleles_monotone_witness :
  exists out',
    identify_fixed_alleles Example.all_alleles one zero = Ok out' /\
    forall l x, entry out' l x ->
                entry (selected (fixed_at (Example.flt "0.5") zero)
                         Example.all_alleles) l x.
Proof.
  apply (@identify_fixed_alleles_monotone Example.all_alleles
           (Example.flt "0.5") one zero).
  - vm_compute. reflexivity.
  - vm_compute. reflexivity.
Defined.

Section SortPerm.
Context {A : Type}.
Variable key : A -> float.

Lemma stable_sort_perm (xs : list A) : forall sorted,
  Permutation (fold_left (fun sorted x => insert_right key x sorted) xs sorted)
              (sorted ++ xs).
Proof.
  induction xs as [|x xs IH]; intros sorted; simpl.
  - rewrite app_nil_r. apply Permutation_refl.
  - eapply Permutation_trans; [apply IH|].
    eapply Permutation_trans;
      [apply Permutation_app_tail; apply insert_right_perm|].
    simpl. apply Permutation_middle.
Qed.

Lemma py_sorted_reverse_perm (xs : list A) :
  Permutation (py_sorted_reverse key xs) xs.
Proof.
  unfold py_sorted_reverse, stable_sort.
  eapply Permutation_trans; [apply Permutation_sym, Permutation_rev|].
  eapply Permutation_trans; [apply stable_sort_perm|]. simpl.
  apply Permutation_sym, Permutation_rev.
Qed.

Lemma py_slice_to_prefix (n : Z) (xs : list A) :
  exists rest, xs = py_slice_to n xs ++ rest.
Proof.
  unfold py_slice_to. destruct (n <? 0).
  - eexists. symmetry. apply firstn_skipn.
  - eexists. symmetry. apply firstn_skipn.
Qed.

Lemma py_slice_to_length (n : Z) (xs : list A) :
  Z.of_nat (List.length (py_slice_to n xs)) =
  if n <? 0 then Z.max 0 (Z.of_nat (List.length xs) + n)
  else Z.min n (Z.of_nat (List.length xs)).
Proof.
  unfold py_slice_to. destruct (Z.ltb_spec n 0); rewrite length_firstn; lia.
Qed.

End SortPerm.

(** X18. Whatever the number of loci asked for and whatever [round]
    returns, the rows [write_most_divergent_loci] writes are the first
    rows of the sorted list, each one an item of the scores whose score is
    not NaN; a negative number [n] leaves out the last [-n] rows. *)
Theorem write_most_divergent_loci_rows (round6 : float -> float)
    (divergence_scores : divergence_map) (num_div_loci : Z) :
  let kept := filtered_scores divergence_scores in
  let sorted := py_sorted_reverse (sort_key round6) kept in
  let written := write_most_divergent_loci round6 divergence_scores num_div_loci in
  (exists rest, sorted = written ++ rest) /\
  (forall row, In row written ->
               In row divergence_scores /\ isnan (fst (snd row)) = false) /\
  Z.of_nat (List.length written) =
    if num_div_loci <? 0
    then Z.max 0 (Z.of_nat (List.length kept) + num_div_loci)
    else Z.min num_div_loci (Z.of_nat (List.length kept)).
Proof.
  cbv zeta. unfold write_most_divergent_loci.
  pose proof (py_sorted_reverse_perm (sort_key round6)
                (filtered_scores divergence_scores)) as P.
  split; [apply py_slice_to_prefix|]. split.
  - intros row I.
    destruct (py_slice_to_prefix num_div_loci
                (py_sorted_reverse (sort_key round6)
                   (filtered_scores divergence_scores))) as [rest E].
    assert (J : In row (filtered_scores divergence_scores)).
    { apply (Permutation_in _ P). rewrite E. apply in_or_app. left; exact I. }
    unfold filtered_scores in J. apply filter_In in J. destruct J as [J N].
    split; [exact J|]. apply negb_true_iff in N. exact N.
  - rewrite py_slice_to_length, (Permutation_length P). reflexivity.
Qed.

(** X19. A run fails only where [process_files] or
    [identify_fixed_alleles] fails, the latter with [ValueError]; when
    both return the run completes, and hands to the writers the results of
    the classifiers on the table. *)
Theorem main_cases (py_int : string -> option Z)
    (py_float : string -> option float)
    (set_iter : list allele -> list allele) (round6 : float -> float)
    (file_list : list (frq_file * Z)) (miss_tolerance error_tolerance : float)
    (num_div_loci : Z) :
  match process_files py_int py_float file_list with
  | Raise e =>
      main py_int py_float set_iter round6 file_list miss_tolerance
        error_tolerance num_div_loci = Raise e
  | Ok t =>
      match identify_fixed_alleles t miss_tolerance error_tolerance with
      | Raise e =>
          e = ValueError /\
          main py_int py_float set_iter round6 file_list miss_tolerance
            error_tolerance num_div_loci = Raise ValueError
      | Ok fixed =>
          exists unique scores,
            find_unique_fixed_alleles fixed = Ok unique /\
            compute_divergence_scores set_iter t = Ok scores /\
            main py_int py_float set_iter round6 file_list miss_tolerance
              error_tolerance num_div_loci =
            Ok ([ MostDivergentLoci
                    (write_most_divergent_loci round6 scores num_div_loci);
                  FixedAlleles fixed;
                  UniqueFixedAlleles unique;
                  PrivateAlleles (identify_private_alleles t error_tolerance);
                  PrivateSites (fst (find_private_sites t)) ]
                ++ (if Nat.ltb 2 (List.length file_list)
                    then [UniquelyMissingSites (snd (find_private_sites t))]
                    else []))
      end
  end.
Proof.
  unfold main.
  destruct (process_files py_int py_float file_list) as [t|e]; simpl;
    [|reflexivity].
  pose proof (identify_fixed_alleles_cases t miss_tolerance error_tolerance) as C.
  destruct (identify_fixed_alleles t miss_tolerance error_tolerance)
    as [fixed|e] eqn:F; simpl.
  - pose proof F as F'. apply identify_fixed_alleles_entries in F'.
    destruct F' as [W Ne].
    pose proof (find_unique_fixed_alleles_cases W) as U.
    destruct (find_unique_fixed_alleles fixed) as [unique|e]; simpl.
    + exists unique, (fold_left (collect (divergence_of set_iter)) t []).
      split; [reflexivity|].
      unfold compute_divergence_scores.
      rewrite compute_divergence_scores_collect. split; [reflexivity|].
      destruct (find_private_sites t) as [ps ums]. reflexivity.
    + exfalso. destruct U as (_ & l & cd & c & I & J).
      destruct (Ne l cd c [] I J). reflexivity.
  - destruct C as [-> _]. split; reflexivity.
Qed.

Lemma Forall2_In_left {A B : Type} (R : A -> B -> Prop) xs ys x :
  Forall2 R xs ys -> In x xs -> exists y, In y ys /\ R x y.
Proof.
  induction 1 as [|a b xs ys Rab F IH]; intros I; [destruct I|].
  destruct I as [<- | I].
  - exists b. split; [left; reflexivity | exact Rab].
  - destruct (IH I) as (y & J & Rxy). exists y. split; [right; exact J | exact Rxy].
Qed.

Section FileListFacts.

Variable py_int : string -> option Z.

Lemma arguments_loop (args : list string) (m : nat) :
  (2 * m <= List.length args)%nat ->
  match
    for_each
      (fun file_list i =>
         file <- item args i ;;
         count <- item args (i + 1) ;;
         n <- parse_int py_int count ;;
         Ok (file_list ++ [(file, n)]))
      (map (fun k => (2 * k)%nat) (seq 0 m)) []
  with
  | Ok fl =>
      List.length fl = m /\
      forall k f n, nth_error fl k = Some (f, n) ->
        nth_error args (2 * k) = Some f /\
        exists c, nth_error args (2 * k + 1) = Some c /\ py_int c = Some n
  | Raise e =>
      e = ValueError /\
      exists k c, nth_error args (2 * k + 1) = Some c /\ py_int c = None
  end.
Proof.
  induction m as [|m IH]; intros L.
  - cbn [seq map for_each]. split; [reflexivity|].
    intros k f n N. destruct k; discriminate N.
  - rewrite seq_S, map_app, for_each_app. cbn [map Nat.add].
    match goal with
    | |- match bind ?r _ with Ok _ => _ | Raise _ => _ end =>
        destruct r as [fl|e] eqn:E
    end; [|apply IH; lia].
    specialize (IH ltac:(lia)). cbn beta iota in IH. destruct IH as [Len Nth].
    cbn [bind for_each]. unfold item.
    destruct (nth_error args (2 * m)) as [f|] eqn:Nf;
      [|apply nth_error_None in Nf; lia].
    destruct (nth_error args (2 * m + 1)) as [c|] eqn:Nc;
      [|apply nth_error_None in Nc; lia].
    cbn [bind]. unfold parse_int. destruct (py_int c) as [n|] eqn:P; cbn [bind].
    + split; [rewrite length_app; simpl; lia|].
      intros k f' n' N. destruct (Nat.lt_ge_cases k m) as [Lt|Ge].
      * rewrite nth_error_app1 in N by lia. apply Nth; exact N.
      * rewrite nth_error_app2 in N by lia. rewrite Len in N.
        destruct (k - m)%nat as [|d] eqn:D; [|destruct d; discriminate N].
        assert (k = m) by lia. subst k. simpl in N. inversion N; subst f' n'.
        split; [exact Nf|]. exists c. split; [exact Nc | exact P].
    + split; [reflexivity|]. exists m, c. split; [exact Nc | exact P].
Qed.

Lemma file_list_of_arguments_cases (args : list string) :
  match file_list_of_arguments py_int args with
  | Ok fl =>
      List.length args = (2 * List.length fl)%nat /\
      forall k f n, nth_error fl k = Some (f, n) ->
        nth_error args (2 * k) = Some f /\
        exists c, nth_error args (2 * k + 1) = Some c /\ py_int c = Some n
  | Raise e =>
      e = ValueError /\
      (Nat.modulo (List.length args) 2 = 1%nat \/
       exists k c, nth_error args (2 * k + 1) = Some c /\ py_int c = None)
  end.
Proof.
  unfold file_list_of_arguments.
  pose proof (Nat.div_mod_eq (List.length args) 2) as D.
  pose proof (Nat.mod_upper_bound (List.length args) 2 ltac:(lia)) as U.
  destruct (Nat.eqb_spec (Nat.modulo (List.length args) 2) 0) as [Z0|NZ].
  - pose proof (@arguments_loop args (Nat.div (List.length args) 2)
                  ltac:(lia)) as A.
    match goal with
    | |- match ?r with Ok _ => _ | Raise _ => _ end =>
        destruct r as [fl|e]
    end.
    + destruct A as [Len Nth]. split; [lia | exact Nth].
    + destruct A as [-> Bad]. split; [reflexivity | right; exact Bad].
  - split; [reflexivity | left; lia].
Qed.

Lemma manifest_loop (manifest : list string) : forall acc,
  match for_each (manifest_line py_int) manifest acc with
  | Ok fl =>
      exists added,
        fl = acc ++ added /\
        Forall2 (fun line (entry : string * Z) =>
                   exists count,
                     PyText.words (PyStr.strip line) = [fst entry; count] /\
                     py_int count = Some (snd entry))
          manifest added
  | Raise e =>
      e = ValueError /\
      exists line,
        In line manifest /\
        forall file count n,
          PyText.words (PyStr.strip line) = [file; count] ->
          py_int count <> Some n
  end.
Proof.
  induction manifest as [|line manifest IH]; intros acc; cbn [for_each].
  - exists []. rewrite app_nil_r. split; [reflexivity | constructor].
  - unfold manifest_line at 1.
    destruct (PyText.words (PyStr.strip line)) as [|file [|count [|? ?]]] eqn:W;
      cbn [bind];
      try (split; [reflexivity|]; exists line; split; [left; reflexivity|];
           intros ? ? ? Q; rewrite W in Q; discriminate Q).
    unfold parse_int. destruct (py_int count) as [n|] eqn:P; cbn [bind].
    + specialize (IH (acc ++ [(file, n)])).
      destruct (for_each (manifest_line py_int) manifest (acc ++ [(file, n)]))
        as [fl|e].
      * destruct IH as (added & -> & F). exists ((file, n) :: added).
        split; [rewrite <- app_assoc; reflexivity|].
        constructor; [|exact F]. exists count. split; [exact W | exact P].
      * destruct IH as (-> & line' & I & Bad). split; [reflexivity|].
        exists line'. split; [right; exact I | exact Bad].
    + split; [reflexivity|]. exists line. split; [left; reflexivity|].
      intros file' count' n Q. rewrite W in Q. inversion Q; subst.
      rewrite P. discriminate.
Qed.

End FileListFacts.

(** X20. The file list of the command-line arguments: it is returned when
    the arguments are pairs of a path and a count that [int] accepts, and
    then holds one item per pair, in order; otherwise the exception is
    [ValueError], for an odd number of arguments or a count [int] rejects,
    and no subscript of the arguments is out of range. *)
Theorem file_list_of_arguments_spec (py_int : string -> option Z)
    (args : list string) :
  match file_list_of_arguments py_int args with
  | Ok fl =>
      List.length args = (2 * List.length fl)%nat /\
      forall k f n, nth_error fl k = Some (f, n) ->
        nth_error args (2 * k) = Some f /\
        exists c, nth_error args (2 * k + 1) = Some c /\ py_int c = Some n
  | Raise e =>
      e = ValueError /\
      (Nat.modulo (List.length args) 2 = 1%nat \/
       exists k c, nth_error args (2 * k + 1) = Some c /\ py_int c = None)
  end.
Proof.
  unfold file_list_of_arguments.
  pose proof (Nat.div_mod_eq (List.length args) 2) as D.
  pose proof (Nat.mod_upper_bound (List.length args) 2 ltac:(lia)) as U.
  destruct (Nat.eqb_spec (Nat.modulo (List.length args) 2) 0) as [Z0|NZ].
  - pose proof (@arguments_loop py_int args (Nat.div (List.length args) 2)
                  ltac:(lia)) as A.
    match goal with
    | |- match ?r with Ok _ => _ | Raise _ => _ end =>
        destruct r as [fl|e]
    end.
    + destruct A as [Len Nth]. split; [lia | exact Nth].
    + destruct A as [-> Bad]. split; [reflexivity | right; exact Bad].
  - split; [reflexivity | left; lia].
Qed.

(** X21. The file list of a manifest: it is returned when every line,
    stripped, is two words of which [int] accepts the second, and then
    holds one item per line, in order; otherwise the exception is
    [ValueError], for a line that is not such a pair. *)
Theorem file_list_of_manifest_spec (py_int : string -> option Z)
    (manifest : list string) :
  match file_list_of_manifest py_int manifest with
  | Ok fl =>
      Forall2 (fun line (entry : string * Z) =>
                 exists count,
                   PyText.words (PyStr.strip line) = [fst entry; count] /\
                   py_int count = Some (snd entry))
        manifest fl
  | Raise e =>
      e = ValueError /\
      exists line,
        In line manifest /\
        forall file count n,
          PyText.words (PyStr.strip line) = [file; count] ->
          py_int count <> Some n
  end.
Proof.
  unfold file_list_of_manifest.
  pose proof (manifest_loop py_int manifest []) as L.
  destruct (for_each (manifest_line py_int) manifest []) as [fl|e];
    [|exact L].
  destruct L as (added & -> & F). exact F.
Qed.

(** X22. A manifest with a line that is blank after stripping, such as an
    empty last line, is rejected with [ValueError]. *)
Theorem file_list_of_manifest_blank_line (py_int : string -> option Z)
    (manifest : list string) (line : string) :
  In line manifest -> PyStr.strip line = EmptyString ->
  file_list_of_manifest py_int manifest = Raise ValueError.
Proof.
  intros I B. unfold file_list_of_manifest.
  pose proof (manifest_loop py_int manifest []) as L.
  destruct (for_each (manifest_line py_int) manifest []) as [fl|e].
  - exfalso. destruct L as (added & _ & F).
    destruct (@Forall2_In_left _ _ _ _ _ _ F I) as (item' & _ & cnt & W & _).
    rewrite B in W. discriminate W.
  - destruct L as [-> _]. reflexivity.
Qed.

Lemma file_list_of_manifest_blank_line_witness :
  file_list_of_manifest Runtime.int_of_digits
    ["data/A.frq 5" ++ Example.newline; Example.newline]%string
  = Raise ValueError.
Proof.
  apply (@file_list_of_manifest_blank_line Runtime.int_of_digits
           ["data/A.frq 5" ++ Example.newline; Example.newline]%string
           Example.newline).
  - right; left; reflexivity.
  - reflexivity.
Defined.

(** X23. Reading the file list fails with [ValueError] only, whether it
    comes from a manifest or from the arguments. *)
Theorem read_file_list_raises (py_int : string -> option Z)
    (isfile : string -> bool) (readlines : string -> list string)
    (args : list string) (e : pyexn) :
  read_file_list py_int isfile readlines args = Raise e -> e = ValueError.
Proof.
  assert (A : forall xs, file_list_of_arguments py_int xs = Raise e ->
                         e = ValueError).
  { intros xs E. pose proof (file_list_of_arguments_cases py_int xs) as C.
    rewrite E in C. exact (proj1 C). }
  unfold read_file_list. destruct args as [|only [|? ?]]; try apply A.
  destruct (isfile only); [|apply A].
  intros E. unfold file_list_of_manifest in E.
  pose proof (manifest_loop py_int (readlines only) []) as L.
  rewrite E in L. exact (proj1 L).
Qed.

Lemma read_file_list_raises_witness :
  read_file_list Runtime.int_of_digits (fun _ => false) (fun _ => [])
    ["data/A.frq"%string] = Raise ValueError /\
  ValueError = ValueError.
Proof.
  split; [reflexivity|].
  apply (@read_file_list_raises Runtime.int_of_digits (fun _ => false)
           (fun _ => []) ["data/A.frq"%string] ValueError).
  reflexivity.
Defined.

Section LastKey.
Context {K V : Type} `{KeyOk K}.

Lemma get_app_last (d : dict K V) k v :
  ~ In k (keys d) -> get k (d ++ [(k, v)]) = Some v.
Proof.
  induction d as [|[k0 v0] d IH]; simpl; intros N.
  - rewrite key_eqb_refl. reflexivity.
  - destruct (key_eqb_case k k0) as [[-> _] | [_ ->]].
    + destruct N; left; reflexivity.
    + apply IH. intros I; apply N; right; exact I.
Qed.

Lemma set_app_last (d : dict K V) k v v' :
  ~ In k (keys d) -> set k v' (d ++ [(k, v)]) = d ++ [(k, v')].
Proof.
  induction d as [|[k0 v0] d IH]; simpl; intros N.
  - rewrite key_eqb_refl. reflexivity.
  - destruct (key_eqb_case k k0) as [[-> _] | [_ ->]].
    + destruct N; left; reflexivity.
    + rewrite IH; [reflexivity | intros I; apply N; right; exact I].
Qed.

Lemma mem_new (d : dict K V) k : ~ In k (keys d) -> mem k d = false.
Proof.
  intros N. unfold mem. apply get_None in N. rewrite N. reflexivity.
Qed.

End LastKey.

Section SelectedWf.
Context {K V W : Type} `{KeyOk K}.

Lemma In_keys_selected (f : K -> V -> option W) (d : dict K V) k :
  In k (keys (selected f d)) -> In k (keys d).
Proof.
  induction d as [|[k0 v0] d IH]; simpl; [auto|].
  destruct (f k0 v0); simpl; intuition.
Qed.

Lemma wf_selected (f : K -> V -> option W) (d : dict K V) :
  wf d -> wf (selected f d).
Proof.
  unfold wf. induction d as [|[k0 v0] d IH]; simpl; intros N; [constructor|].
  inversion N as [|? ? Nk Nd]; subst.
  destruct (f k0 v0); simpl; [|apply IH; exact Nd].
  constructor; [|apply IH; exact Nd].
  intros I. apply Nk. eapply In_keys_selected; exact I.
Qed.

End SelectedWf.

Section RowFacts.

Lemma start_row_new (key : locus) (g : grouped) :
  ~ In key (keys g) -> start_row key g = g ++ [(key, [])].
Proof.
  intros N. unfold start_row. rewrite mem_new by exact N.
  apply set_new; exact N.
Qed.

Lemma add_entry_last (key : locus) (e : string) es (g : grouped) :
  ~ In key (keys g) ->
  add_entry key e (g ++ [(key, es)]) = Returns (g ++ [(key, es ++ [e])]).
Proof.
  intros N. unfold add_entry, subscript.
  rewrite get_app_last by exact N. simpl.
  rewrite set_app_last by exact N. reflexivity.
Qed.

Lemma loop_entries {A : Type} (f : A -> string) (key : locus) (xs : list A) :
  forall es (g : grouped), ~ In key (keys g) ->
  loop (fun g x => add_entry key (f x) g) xs (g ++ [(key, es)]) =
  Returns (g ++ [(key, es ++ map f xs)]).
Proof.
  induction xs as [|x xs IH]; intros es g N; simpl.
  - rewrite app_nil_r. reflexivity.
  - rewrite add_entry_last by exact N. simpl.
    rewrite IH by exact N. rewrite <- app_assoc. reflexivity.
Qed.

Lemma loop_nested_entries {A B : Type} (inner : A -> list B)
    (f : A -> B -> string) (key : locus) (xs : list A) :
  forall es (g : grouped), ~ In key (keys g) ->
  loop (fun g a => loop (fun g b => add_entry key (f a b) g) (inner a) g)
    xs (g ++ [(key, es)]) =
  Returns (g ++ [(key, es ++ flat_map (fun a => map (f a) (inner a)) xs)]).
Proof.
  induction xs as [|x xs IH]; intros es g N; simpl.
  - rewrite app_nil_r. reflexivity.
  - rewrite (@loop_entries _ (f x) key (inner x) es g N). simpl.
    rewrite IH by exact N. rewrite <- app_assoc. reflexivity.
Qed.

Lemma loop_rows {V : Type} (rows : grouped -> locus * V -> outcome grouped)
    (entries_of : V -> list string) (d : dict locus V) :
  (forall g key v, In (key, v) d -> ~ In key (keys g) ->
                   rows g (key, v) = Returns (g ++ [(key, entries_of v)])) ->
  forall g, wf d -> (forall k, In k (keys g) -> ~ In k (keys d)) ->
  loop rows d g = Returns (g ++ rows_of entries_of d).
Proof.
  induction d as [|[key v] d IH]; intros R g Wd Dis; simpl.
  - rewrite app_nil_r. reflexivity.
  - unfold wf in Wd. simpl in Wd. inversion Wd as [|? ? Nk Wd']; subst.
    rewrite R; [|left; reflexivity|intros I; apply (Dis key I); left; reflexivity].
    simpl. rewrite IH.
    + rewrite <- app_assoc. reflexivity.
    + intros g' key' v' I. apply R. right; exact I.
    + exact Wd'.
    + intros k I. unfold keys in I. rewrite map_app in I.
      apply in_app_or in I. destruct I as [I | [<- | []]]; [|exact Nk].
      intros J. apply (Dis k I). right; exact J.
Qed.

Lemma loop_rows_nil {V : Type} (rows : grouped -> locus * V -> outcome grouped)
    (entries_of : V -> list string) (d : dict locus V) :
  (forall g key v, In (key, v) d -> ~ In key (keys g) ->
                   rows g (key, v) = Returns (g ++ [(key, entries_of v)])) ->
  wf d -> loop rows d [] = Returns (rows_of entries_of d).
Proof.
  intros R Wd. rewrite (@loop_rows V rows entries_of d R []);
    [reflexivity | exact Wd|].
  intros k [].
Qed.

End RowFacts.

Section WriterFacts.

Variable str_float : float -> string.

Lemma fixed_rows_entries (g : grouped) key (cd : list fixed_entry) :
  ~ In key (keys g) ->
  fixed_rows str_float g (key, cd) =
  Returns (g ++ [(key, fixed_entries str_float cd)]).
Proof.
  intros N. unfold fixed_rows. rewrite start_row_new by exact N.
  rewrite (@loop_nested_entries fixed_entry (allele * float)
             (fun e => snd e)
             (fun e af => allele_entry str_float (fst e) (fst af) (snd af))
             key cd [] g N).
  reflexivity.
Qed.

Lemma private_rows_entries (g : grouped) key
    (cd : dict clade (dict allele private_info)) :
  ~ In key (keys g) ->
  private_rows str_float g (key, cd) =
  Returns (g ++ [(key, private_entries str_float cd)]).
Proof.
  intros N. unfold private_rows. rewrite start_row_new by exact N.
  rewrite (@loop_nested_entries (clade * dict allele private_info)
             (allele * private_info) (fun e => snd e)
             (fun e av =>
                (fst e ++ space ++ fst av ++ space ++ str_float (freq (snd av))
                 ++ space ++ str_float (perc_genotyped (snd av)))%string)
             key cd [] g N).
  reflexivity.
Qed.

Lemma private_site_rows_entries (g : grouped) key (s : clade * float) :
  ~ In key (keys g) ->
  private_site_rows str_float g (key, s) =
  Returns (g ++ [(key, [site_entry str_float (fst s) (snd s)])]).
Proof.
  intros N. destruct s as [c pg]. unfold private_site_rows.
  rewrite start_row_new by exact N. rewrite add_entry_last by exact N.
  reflexivity.
Qed.

Lemma uniquely_missing_rows_entries (g : grouped) key (cd : dict clade float) :
  ~ In key (keys g) ->
  uniquely_missing_rows str_float g (key, cd) =
  Returns (g ++ [(key, map (fun e => site_entry str_float (fst e) (snd e)) cd)]).
Proof.
  intros N. unfold uniquely_missing_rows. rewrite start_row_new by exact N.
  rewrite (@loop_entries (clade * float)
             (fun e => site_entry str_float (fst e) (snd e)) key cd [] g N).
  reflexivity.
Qed.

Lemma fixed_lines (fm : fixed_map) :
  wf fm ->
  write_fixed_alleles_to_file str_float fm =
  Returns (file_lines "Chrom Pos Clade Allele Freq"
             (rows_of (fixed_entries str_float) fm)).
Proof.
  intros W. unfold write_fixed_alleles_to_file.
  rewrite (@loop_rows_nil _ (fixed_rows str_float) (fixed_entries str_float) fm);
    [reflexivity | | exact W].
  intros g key v _ N. apply fixed_rows_entries; exact N.
Qed.

Lemma private_lines (pm : private_map) :
  wf pm ->
  write_private_alleles_to_file str_float pm =
  Returns (file_lines "Chrom Pos Clade Allele Freq Perc_Genotyped"
             (rows_of (private_entries str_float) pm)).
Proof.
  intros W. unfold write_private_alleles_to_file.
  rewrite (@loop_rows_nil _ (private_rows str_float)
             (private_entries str_float) pm);
    [reflexivity | | exact W].
  intros g key v _ N. apply private_rows_entries; exact N.
Qed.

Lemma private_site_lines (ps : private_sites_map) :
  wf ps ->
  write_private_sites_to_file str_float ps =
  Returns (file_lines "Chrom Pos Clade Perc_Genotyped"
             (rows_of (fun s => [site_entry str_float (fst s) (snd s)]) ps)).
Proof.
  intros W. unfold write_private_sites_to_file.
  rewrite (@loop_rows_nil _ (private_site_rows str_float)
             (fun s => [site_entry str_float (fst s) (snd s)]) ps);
    [reflexivity | | exact W].
  intros g key v _ N. apply private_site_rows_entries; exact N.
Qed.

Lemma uniquely_missing_lines (ums : uniquely_missing_map) :
  wf ums ->
  write_uniquely_missing_sites_to_file str_float ums =
  Returns (file_lines "Chrom Pos Clade Perc_Genotyped"
             (rows_of (map (fun e => site_entry str_float (fst e) (snd e)))
                ums)).
Proof.
  intros W. unfold write_uniquely_missing_sites_to_file.
  rewrite (@loop_rows_nil _ (uniquely_missing_rows str_float)
             (map (fun e => site_entry str_float (fst e) (snd e))) ums);
    [reflexivity | | exact W].
  intros g key v _ N. apply uniquely_missing_rows_entries; exact N.
Qed.

End WriterFacts.

(** X24. [write_fixed_alleles_to_file] returns without an exception; the
    file is the header line and one line per locus of the map, in order,
    with one entry [clade allele freq] for every allele of every entry of
    the locus. *)
Theorem write_fixed_alleles_to_file_lines (str_float : float -> string)
    (fm : fixed_map) :
  wf fm ->
  write_fixed_alleles_to_file str_float fm =
  Returns (file_lines "Chrom Pos Clade Allele Freq"
             (rows_of (fixed_entries str_float) fm)).
Proof.
  intros W. unfold write_fixed_alleles_to_file.
  rewrite (@loop_rows_nil _ (fixed_rows str_float) (fixed_entries str_float) fm);
    [reflexivity | | exact W].
  intros g key v _ N. apply fixed_rows_entries; exact N.
Qed.

Lemma write_fixed_alleles_to_file_lines_witness :
    write_fixed_alleles_to_file str_of_float Example.fixed_alleles =
    Returns (file_lines "Chrom Pos Clade Allele Freq"
               (rows_of (fixed_entries str_of_float) Example.fixed_alleles)).
Proof.
  apply write_fixed_alleles_to_file_lines.
  apply distinctb_NoDup. reflexivity.
Defined.

(** X25. [write_private_alleles_to_file] returns without an exception;
    the file is the header line and one line per locus of the map, in
    order, with one entry [clade allele freq perc_genotyped] for every
    private allele of every clade of the locus. *)
Theorem write_private_alleles_to_file_lines (str_float : float -> string)
    (pm : private_map) :
  wf pm ->
  write_private_alleles_to_file str_float pm =
  Returns (file_lines "Chrom Pos Clade Allele Freq Perc_Genotyped"
             (rows_of (private_entries str_float) pm)).
Proof.
  intros W. unfold write_private_alleles_to_file.
  rewrite (@loop_rows_nil _ (private_rows str_float)
             (private_entries str_float) pm);
    [reflexivity | | exact W].
  intros g key v _ N. apply private_rows_entries; exact N.
Qed.

Lemma write_private_alleles_to_file_lines_witness :
    write_private_alleles_to_file str_of_float
      (identify_private_alleles Example.all_alleles zero) =
    Returns (file_lines "Chrom Pos Clade Allele Freq Perc_Genotyped"
               (rows_of (private_entries str_of_float)
                  (identify_private_alleles Example.all_alleles zero))).
Proof.
  apply write_private_alleles_to_file_lines.
  apply distinctb_NoDup. reflexivity.
Defined.

(** X26. [write_private_sites_to_file] and
    [write_uniquely_missing_sites_to_file] return without an exception;
    each file is the header line and one line per locus of the dict, in
    order, with the entry [clade perc_genotyped] of the genotyped clade,
    or of each genotyped clade. *)
Theorem write_sites_to_file_lines (str_float : float -> string)
    (ps : private_sites_map) (ums : uniquely_missing_map) :
  wf ps -> wf ums ->
  write_private_sites_to_file str_float ps =
    Returns (file_lines "Chrom Pos Clade Perc_Genotyped"
               (rows_of (fun s => [site_entry str_float (fst s) (snd s)]) ps)) /\
  write_uniquely_missing_sites_to_file str_float ums =
    Returns (file_lines "Chrom Pos Clade Perc_Genotyped"
               (rows_of (map (fun e => site_entry str_float (fst e) (snd e)))
                  ums)).
Proof.
  intros Wp Wu. split;
    [apply private_site_lines; exact Wp | apply uniquely_missing_lines; exact Wu].
Qed.

Lemma write_sites_to_file_lines_witness :
    write_private_sites_to_file str_of_float
      (fst (find_private_sites Example.all_alleles)) =
      Returns (file_lines "Chrom Pos Clade Perc_Genotyped"
                 (rows_of (fun s => [site_entry str_of_float (fst s) (snd s)])
                    (fst (find_private_sites Example.all_alleles)))) /\
    write_uniquely_missing_sites_to_file str_of_float
      (snd (find_private_sites Example.all_alleles)) =
      Returns (file_lines "Chrom Pos Clade Perc_Genotyped"
                 (rows_of (map (fun e => site_entry str_of_float (fst e) (snd e)))
                    (snd (find_private_sites Example.all_alleles)))).
Proof.
  apply write_sites_to_file_lines;
    apply distinctb_NoDup; reflexivity.
Defined.

Lemma loop_ext {A S : Type} (body1 body2 : S -> A -> outcome S) xs :
  (forall s x, In x xs -> body1 s x = body2 s x) ->
  forall s, loop body1 xs s = loop body2 xs s.
Proof.
  induction xs as [|x xs IH]; intros E s; simpl; [reflexivity|].
  rewrite E by (left; reflexivity). destruct (body2 s x); simpl; [|reflexivity].
  apply IH. intros s' x' I. apply E. right; exact I.
Qed.

Section UniqueWriterFacts.

Variable str_float : float -> string.

Lemma py_max_key_subscript (afs : allele_freqs) :
  afs <> [] ->
  exists a f, py_max_key afs = Ok a /\ subscript afs a = Returns f.
Proof.
  intros Ne. destruct (py_max_key afs) as [a|e] eqn:M.
  - exists a. destruct (py_max_key_first _ M) as (before & f & after & -> & _).
    unfold subscript.
    destruct (get a (before ++ (a, f) :: after)) as [f'|] eqn:G.
    + exists f'. split; reflexivity.
    + exfalso. apply get_None in G. apply G. unfold keys.
      rewrite map_app. apply in_or_app. right; left; reflexivity.
  - apply py_max_key_raise in M. destruct M as [-> _]. destruct Ne; reflexivity.
Qed.

Lemma unique_entry_returns (e : fixed_entry) :
  snd e <> [] -> exists s, unique_entry str_float e = Returns s.
Proof.
  intros Ne. destruct (py_max_key_subscript Ne) as (a & f & M & S).
  unfold unique_entry. rewrite M. simpl. rewrite S. simpl.
  eexists; reflexivity.
Qed.

Lemma unique_rows_entries (key : locus) (cd : list fixed_entry) :
  (forall e, In e cd -> snd e <> []) ->
  forall es (g : grouped), ~ In key (keys g) ->
  exists ss,
    Forall2 (fun e s => unique_entry str_float e = Returns s) cd ss /\
    loop
      (fun g (e : fixed_entry) =>
         and_then (of_result (py_max_key (snd e))) (fun fixed_allele =>
         and_then (subscript (snd e) fixed_allele) (fun f =>
         add_entry key (allele_entry str_float (fst e) fixed_allele f) g)))
      cd (g ++ [(key, es)]) = Returns (g ++ [(key, es ++ ss)]).
Proof.
  induction cd as [|e cd IH]; intros Ne es g N.
  - exists []. split; [constructor|]. simpl. rewrite app_nil_r. reflexivity.
  - destruct (@py_max_key_subscript (snd e)) as (a & f & M & S);
      [apply Ne; left; reflexivity|].
    destruct (IH (fun e' I => Ne e' (or_intror I))
                (es ++ [allele_entry str_float (fst e) a f]) g N)
      as (ss & F & L).
    exists (allele_entry str_float (fst e) a f :: ss). split.
    + constructor; [|exact F]. unfold unique_entry. rewrite M. simpl.
      rewrite S. reflexivity.
    + cbn [loop]. rewrite M. simpl. rewrite S. simpl.
      rewrite add_entry_last by exact N. simpl. rewrite L, <- app_assoc.
      reflexivity.
Qed.

Lemma unique_loop (fm : fixed_map) :
  has_alleles fm ->
  forall g : grouped, wf fm -> (forall k, In k (keys g) -> ~ In k (keys fm)) ->
  exists rows,
    Forall2
      (fun (it : locus * list fixed_entry) (row : locus * list string) =>
         fst row = fst it /\
         Forall2 (fun e s => unique_entry str_float e = Returns s)
           (snd it) (snd row))
      fm rows /\
    loop (unique_fixed_rows str_float) fm g = Returns (g ++ rows).
Proof.
  induction fm as [|[key cd] fm IH]; intros Ha g W Dis.
  - exists []. split; [constructor|]. simpl. rewrite app_nil_r. reflexivity.
  - unfold wf in W. simpl in W. inversion W as [|? ? Nk W']; subst.
    assert (N : ~ In key (keys g)).
    { intros I. apply (Dis key I). left; reflexivity. }
    destruct (@unique_rows_entries key cd) with (es := @nil string) (g := g)
      as (ss & F & L); [|exact N|].
    { intros [c afs] I. simpl. apply (Ha key cd c afs); [left; reflexivity | exact I]. }
    destruct (IH (fun l cd' c afs I J => Ha l cd' c afs (or_intror I) J)
                (g ++ [(key, ss)]) W') as (rows & Fr & Lr).
    { intros k I. unfold keys in I. rewrite map_app in I.
      apply in_app_or in I. destruct I as [I | [<- | []]]; [|exact Nk].
      intros J. apply (Dis k I). right; exact J. }
    exists ((key, ss) :: rows). split.
    + constructor; [|exact Fr]. split; [reflexivity | exact F].
    + cbn [loop]. unfold unique_fixed_rows at 1.
      rewrite start_row_new by exact N. rewrite L. simpl.
      rewrite Lr, <- app_assoc. reflexivity.
Qed.

Lemma unique_lines (fm : fixed_map) :
  wf fm -> has_alleles fm ->
  exists rows,
    write_unique_fixed_alleles_to_file str_float fm =
      Returns (file_lines "Chrom Pos Clade Allele Freq" rows) /\
    Forall2
      (fun (it : locus * list fixed_entry) (row : locus * list string) =>
         fst row = fst it /\
         Forall2 (fun e s => unique_entry str_float e = Returns s)
           (snd it) (snd row))
      fm rows.
Proof.
  intros W Ha.
  destruct (@unique_loop fm Ha [] W) as (rows & F & L); [intros k []|].
  exists rows. split; [|exact F].
  unfold write_unique_fixed_alleles_to_file. rewrite L. reflexivity.
Qed.

End UniqueWriterFacts.

(** X27. On a map whose entries all have an allele
    [write_unique_fixed_alleles_to_file] returns without an exception; the
    file is the header line and one line per locus, in order, with one
    entry per clade entry of the locus: the clade, its allele of greatest
    frequency, and the frequency of that allele. *)
Theorem write_unique_fixed_alleles_to_file_lines
    (str_float : float -> string) (fm : fixed_map) :
  wf fm -> has_alleles fm ->
  exists rows,
    write_unique_fixed_alleles_to_file str_float fm =
      Returns (file_lines "Chrom Pos Clade Allele Freq" rows) /\
    Forall2
      (fun (it : locus * list fixed_entry) (row : locus * list string) =>
         fst row = fst it /\
         Forall2 (fun e s => unique_entry str_float e = Returns s)
           (snd it) (snd row))
      fm rows.
Proof.
  intros W Ha.
  destruct (@unique_loop str_float fm Ha [] W) as (rows & F & L); [intros k []|].
  exists rows. split; [|exact F].
  unfold write_unique_fixed_alleles_to_file. rewrite L. reflexivity.
Qed.

Lemma write_unique_fixed_alleles_to_file_lines_witness :
  exists rows,
    write_unique_fixed_alleles_to_file str_of_float Example.fixed_alleles =
      Returns (file_lines "Chrom Pos Clade Allele Freq" rows) /\
    Forall2
      (fun (it : locus * list fixed_entry) (row : locus * list string) =>
         fst row = fst it /\
         Forall2 (fun e s => unique_entry str_of_float e = Returns s)
           (snd it) (snd row))
      Example.fixed_alleles rows.
Proof.
  apply write_unique_fixed_alleles_to_file_lines.
  - apply distinctb_NoDup. reflexivity.
  - pose proof (@identify_fixed_alleles_entries Example.all_alleles one zero
                  Example.fixed_alleles eq_refl) as [_ Ha].
    exact Ha.
Defined.

Lemma wf_filter_dict {K V : Type} `{KeyOk K} (p : K * V -> bool)
    (d : dict K V) :
  wf d -> wf (filter p d).
Proof.
  unfold wf, keys. induction d as [|[k v] d IH]; simpl; intros N;
    [constructor|].
  inversion N as [|? ? Nk Nd]; subst.
  destruct (p (k, v)); simpl; [|apply IH; exact Nd].
  constructor; [|apply IH; exact Nd].
  intros I. apply Nk. apply in_map_iff in I. destruct I as ([k' v'] & E & I).
  simpl in E; subst k'. apply filter_In in I. destruct I as [I _].
  apply in_map_iff. exists (k, v'). auto.
Qed.

(** X28. A run that completes the classification writes every file: no
    writer raises on the structure [main] hands to it. *)
Theorem main_files_written (py_int : string -> option Z)
    (py_float : string -> option float)
    (set_iter : list allele -> list allele) (round6 : float -> float)
    (str_float format_4f format_2f : float -> string)
    (file_list : list (frq_file * Z)) (miss_tolerance error_tolerance : float)
    (num_div_loci : Z) (outs : list output) :
  main py_int py_float set_iter round6 file_list miss_tolerance
    error_tolerance num_div_loci = Ok outs ->
  Forall
    (fun o => exists file,
       write_output str_float format_4f format_2f o = Returns file)
    outs.
Proof.
  unfold main.
  destruct (process_files py_int py_float file_list) as [t|] eqn:P; simpl;
    [|discriminate].
  apply process_files_wf in P. destruct P as [Wt _].
  destruct (identify_fixed_alleles t miss_tolerance error_tolerance) as [fx|]
    eqn:F; simpl; [|discriminate].
  apply identify_fixed_alleles_entries in F. destruct F as [Wf Ha].
  destruct (find_unique_fixed_alleles fx) as [ux|] eqn:U; simpl;
    [|discriminate].
  apply (find_unique_filter Wf) in U.
  assert (Wu : wf ux) by (subst ux; apply wf_filter_dict; exact Wf).
  assert (Hu : has_alleles ux).
  { subst ux. intros l cd c afs I J. apply filter_In in I.
    destruct I as [I _]. exact (Ha l cd c afs I J). }
  pose proof (classifiers_table_order set_iter error_tolerance Wt)
    as (Ep & Es & Ed).
  rewrite Es, Ed. simpl.
  intros E; inversion E; subst outs; clear E.
  assert (Wp : wf (identify_private_alleles t error_tolerance))
    by (rewrite Ep; apply wf_selected; exact Wt).
  assert (Ws : wf (selected private_site_of t))
    by (apply wf_selected; exact Wt).
  assert (Wm : wf (selected uniquely_missing_of t))
    by (apply wf_selected; exact Wt).
  repeat constructor.
  - eexists; reflexivity.
  - eexists; apply fixed_lines; exact Wf.
  - destruct (unique_lines str_float Wu Hu) as (rows & L & _).
    eexists; exact L.
  - eexists; apply private_lines; exact Wp.
  - eexists; apply private_site_lines; exact Ws.
  - destruct (Nat.ltb 2 (List.length file_list)); repeat constructor.
    eexists; apply uniquely_missing_lines; exact Wm.
Qed.

Lemma main_files_written_witness :
  Forall
    (fun o => exists file,
       write_output str_of_float str_of_float str_of_float o = Returns file)
    Example.outputs_of_three.
Proof.
  apply (@main_files_written Runtime.int_of_digits Runtime.float_of_decimal
           Runtime.set_order Runtime.round6 str_of_float str_of_float
           str_of_float Example.files one zero 200).
  vm_compute. reflexivity.
Defined.

(* ================================================================= *)
(** ** Whitespace *)

(** The characters [strip] removes and [split()] splits on are the code
    points below 256 for which [str.isspace] holds. *)
Lemma is_space_code_points (c : ascii) :
  PyStr.is_space c =
  existsb (Nat.eqb (nat_of_ascii c))
    [9; 10; 11; 12; 13; 28; 29; 30; 31; 32; 133; 160]%nat.
Proof. destruct c as [[] [] [] [] [] [] [] []]; reflexivity. Qed.

(** A header line that ends with a no-break space is stripped of it and
    has its last column; a manifest line whose two words are separated by
    a no-break space is a pair. *)
Lemma process_files_nbsp_header :
  exists t,
    Example.process [(Cases.file_nbsp, 5)] = Ok t /\
    record_at t ("1"%string, 100) "G"%string =
      Some (one, [("A"%string, one); ("T"%string, zero)]).
Proof. eexists. split; vm_compute; reflexivity. Qed.

Lemma file_list_of_manifest_nbsp :
  file_list_of_manifest Runtime.int_of_digits
    ["data/A.frq" ++ Cases.nbsp ++ "5" ++ Example.newline]%string =
  Ok [("data/A.frq"%string, 5)].
Proof. vm_compute. reflexivity. Qed.
